(** * The embedded query-engine client: [web/src/hooks/useDuckDB.ts]

    A shallow embedding of the React hook [useDuckDB]: the asynchronous
    initializer [initDuckDB], the per-call query function [executeQuery],
    the unmount cleanup and the object the hook returns.

    The two [async] functions are written in a small free monad [Prog]
    whose nodes are the things the TypeScript does: calls into the
    DuckDB-WASM / browser API (returning or throwing), awaited calls
    (suspension points), reads of the closure variable [isMounted],
    [setState] and [console.error].  [try]/[catch] and [try]/[finally]
    are combinators over [Prog].  An interpreter runs a [Prog] against the
    hook's mutable cells and an oracle that answers every external call;
    the hook as a whole is a state machine stepped by events: promises
    settling, the component unmounting, callers starting queries that then
    run concurrently. *)

From Stdlib Require Import PrimFloat ZArith.
From Stdlib Require Import String Ascii List Bool Arith Lia.
From ExtLib Require Import Structures.Monad.
Import ListNotations.
Import MonadNotation.
Local Open Scope string_scope.
Local Open Scope monad_scope.

Set Implicit Arguments.

(** ** Values of the JavaScript side *)

(** A thrown value: an [Error] instance carrying its message; any other
    value that [String(value)] converts, represented by what the conversion
    yields; or a value that [String(value)] cannot convert, represented by
    what the conversion throws (a [TypeError] for an object without a usable
    [toString] or [valueOf], or whatever its [toString] throws). *)
Inductive JsValue : Type :=
| JsError (message : string)
| JsOther (repr : string)
| JsNoString (thrown : JsValue).

(** [error instanceof Error] *)
Definition instanceofError (v : JsValue) : bool :=
  match v with JsError _ => true | _ => false end.

(** [new Error(message)] *)
Definition newError (message : string) : JsValue := JsError message.

(** What a call gives back: it returns (its promise fulfils) or it throws
    (its promise rejects). *)
Inductive Outcome (X : Type) : Type :=
| Ok (x : X)
| Thrown (e : JsValue).
Arguments Ok {X} x.
Arguments Thrown {X} e.

(** [String(value)]: the string form of the value, or what the conversion
    throws.  The hook and the console apply it only to values that are no
    [Error] instances; an [Error] instance is given the form
    [Error.prototype.toString] has for the name [Error]: the name alone when
    the message is empty. *)
Definition String_ (v : JsValue) : Outcome string :=
  match v with
  | JsError EmptyString => Ok "Error"
  | JsError m => Ok ("Error: " ++ m)
  | JsOther r => Ok r
  | JsNoString t => Thrown t
  end.

(** ** Handles of the DuckDB-WASM and browser APIs *)

Record DuckDBBundle : Type := {
  mainModule : string;
  mainWorker : option string;
  pthreadWorker : option string
}.

Definition DuckDBBundles := list DuckDBBundle.

Record Blob : Type := { blobParts : list string; blobType : string }.

Definition Worker := nat.
Definition ConsoleLogger := unit.
Definition AsyncDuckDB := nat.
Definition AsyncDuckDBConnection := nat.

Inductive DuckDBDataProtocol : Type :=
| BUFFER | NODE_FS | BROWSER_FILEREADER | BROWSER_FSACCESS | HTTP | S3.

(** A value of a result row: a string, a number (a double), [null], a
    boolean, a [BigInt], or an object of the engine's row format (a date, a
    decimal, a nested list), given by what [String()] and [Number()] return
    for it. *)
Inductive Scalar : Type :=
| SString (s : string) | SNumber (n : float) | SNull | SBool (b : bool)
| SBigInt (z : Z)
| SObject (text : string) (number : float).

(** The number with the value of a natural number. *)
Fixpoint number_of_nat (n : nat) : float :=
  match n with
  | 0 => PrimFloat.zero
  | S m => PrimFloat.add (number_of_nat m) PrimFloat.one
  end.

(** [Record<string, unknown>] as produced by [row.toJSON()] *)
Definition JsonRow := list (string * Scalar).
Definition RowProxy := nat.
Definition Table := nat.

(** ** The lifecycle state, as the source declares it *)

Record DuckDBState : Type := {
  db : option AsyncDuckDB;
  loading : bool;
  error : option JsValue
}.

(** The initial [useState] value. *)
Definition initial_state : DuckDBState :=
  {| db := None; loading := true; error := None |}.

(** ** External calls *)

(** Every call the hook makes into the library or the browser, indexed by
    the type of what it returns.  [terminate] is the Web Worker release
    operation; it is part of the API surface so that traces can be searched
    for it. *)
Inductive ExtOp : Type -> Type :=
| getJsDelivrBundles : ExtOp DuckDBBundles
| selectBundle (bundles : DuckDBBundles) : ExtOp DuckDBBundle
| createObjectURL (b : Blob) : ExtOp string
| newWorker (url : string) : ExtOp Worker
| newConsoleLogger : ExtOp ConsoleLogger
| newAsyncDuckDB (logger : ConsoleLogger) (worker : Worker) : ExtOp AsyncDuckDB
| instantiate (d : AsyncDuckDB) (mainModule : string)
    (pthreadWorker : option string) : ExtOp unit
| registerFileURL (d : AsyncDuckDB) (name url : string)
    (proto : DuckDBDataProtocol) (directIO : bool) : ExtOp unit
| connect (d : AsyncDuckDB) : ExtOp AsyncDuckDBConnection
| query (conn : AsyncDuckDBConnection) (sql : string) : ExtOp Table
| toArray (result : Table) : ExtOp (list RowProxy)
| toJSON (row : RowProxy) : ExtOp JsonRow
| close (conn : AsyncDuckDBConnection) : ExtOp unit
| terminate (worker : Worker) : ExtOp unit.

(** ** Programs *)

(** What an [async] function of the hook can do next: return; throw; make
    a synchronous call and go on with what it returned or threw; make a
    call and [await] its promise, going on when it has settled; read
    [isMounted]; call [setState]; call [console.error].  The last three
    do not throw. *)
Inductive Prog (R : Type) : Type :=
| Ret (r : R)
| Throw (e : JsValue)
| Call {X : Type} (op : ExtOp X) (k : Outcome X -> Prog R)
| Await {X : Type} (op : ExtOp X) (k : Outcome X -> Prog R)
| ReadMounted (k : bool -> Prog R)
| SetState (s : DuckDBState) (k : Prog R)
| ConsoleError (msg : string) (e : JsValue) (k : Prog R).
Arguments Ret {R} r.
Arguments Throw {R} e.
Arguments ReadMounted {R} k.
Arguments SetState {R} s k.
Arguments ConsoleError {R} msg e k.

Fixpoint bindP {A B : Type} (m : Prog A) (f : A -> Prog B) : Prog B :=
  match m with
  | Ret a => f a
  | Throw e => Throw e
  | Call op k => Call op (fun out => bindP (k out) f)
  | Await op k => Await op (fun out => bindP (k out) f)
  | ReadMounted k => ReadMounted (fun b => bindP (k b) f)
  | SetState s k => SetState s (bindP k f)
  | ConsoleError msg e k => ConsoleError msg e (bindP k f)
  end.

#[global] Instance Monad_Prog : Monad Prog :=
  {| ret := @Ret; bind := @bindP |}.

Definition of_outcome {X : Type} (out : Outcome X) : Prog X :=
  match out with Ok x => Ret x | Thrown e => Throw e end.

(** A synchronous call: [f(args)]. *)
Definition call {X : Type} (op : ExtOp X) : Prog X := Call op of_outcome.
(** An awaited call: [await f(args)]. *)
Definition await {X : Type} (op : ExtOp X) : Prog X := Await op of_outcome.
Definition readMounted : Prog bool := ReadMounted Ret.
Definition setState (s : DuckDBState) : Prog unit := SetState s (Ret tt).
Definition consoleError (msg : string) (e : JsValue) : Prog unit :=
  ConsoleError msg e (Ret tt).

(** [try { body } catch (e) { handler e }] *)
Fixpoint try_catch {R : Type} (body : Prog R) (handler : JsValue -> Prog R)
  : Prog R :=
  match body with
  | Ret r => Ret r
  | Throw e => handler e
  | Call op k => Call op (fun out => try_catch (k out) handler)
  | Await op k => Await op (fun out => try_catch (k out) handler)
  | ReadMounted k => ReadMounted (fun b => try_catch (k b) handler)
  | SetState s k => SetState s (try_catch k handler)
  | ConsoleError msg e k => ConsoleError msg e (try_catch k handler)
  end.

(** [try { body } finally { fin }]: [fin] runs on every exit of [body]; when
    [fin] itself throws, that exception replaces the body's completion. *)
Fixpoint try_finally {R : Type} (body : Prog R) (fin : Prog unit) : Prog R :=
  match body with
  | Ret r => bindP fin (fun _ => Ret r)
  | Throw e => bindP fin (fun _ => Throw e)
  | Call op k => Call op (fun out => try_finally (k out) fin)
  | Await op k => Await op (fun out => try_finally (k out) fin)
  | ReadMounted k => ReadMounted (fun b => try_finally (k b) fin)
  | SetState s k => SetState s (try_finally k fin)
  | ConsoleError msg e k => ConsoleError msg e (try_finally k fin)
  end.

(** [xs.map(f)] for an [f] that calls out: left to right, stopping at the
    first exception. *)
Fixpoint mapP {A B : Type} (f : A -> Prog B) (xs : list A) : Prog (list B) :=
  match xs with
  | [] => Ret []
  | x :: xs' => bindP (f x) (fun y => bindP (mapP f xs') (fun ys => Ret (y :: ys)))
  end.

(** ** The hook's two async functions *)

Definition dquote : string := String "034"%char EmptyString.

(** The template literal passed to [new Blob]: [importScripts], an opening
    parenthesis and quote, [bundle.mainWorker!], the closing quote, parenthesis
    and semicolon. *)
Definition importScripts (bundle : DuckDBBundle) : string :=
  "importScripts(" ++ dquote ++
  match mainWorker bundle with Some w => w | None => "null" end ++
  dquote ++ ");".

Definition default_data_url : string := "/data/emendas_rastreadas.parquet".

(** [process.env.NEXT_PUBLIC_DATA_URL || "/data/emendas_rastreadas.parquet"]:
    an unset or empty variable is falsy. *)
Definition PARQUET_URL (NEXT_PUBLIC_DATA_URL : option string) : string :=
  match NEXT_PUBLIC_DATA_URL with
  | Some (String c s) => String c s
  | _ => default_data_url
  end.

(** [error instanceof Error ? error : new Error(String(error))]: the
    expression throws what [String(error)] throws. *)
Definition toError (e : JsValue) : Outcome JsValue :=
  if instanceofError e then Ok e
  else match String_ e with
       | Ok s => Ok (newError s)
       | Thrown t => Thrown t
       end.

Definition ready_state (d : AsyncDuckDB) : DuckDBState :=
  {| db := Some d; loading := false; error := None |}.

Definition error_state (e : JsValue) : DuckDBState :=
  {| db := None; loading := false; error := Some e |}.

(** The [catch] block of [initDuckDB]: the argument of [setState] is
    evaluated, and may throw, before [setState] is called. *)
Definition initDuckDB_catch (e : JsValue) : Prog unit :=
  consoleError "Failed to initialize DuckDB:" e ;;
  mounted <- readMounted ;;
  if mounted : bool
  then err <- of_outcome (toError e) ;; setState (error_state err)
  else ret tt.

(** The [try] block of [initDuckDB]. *)
Definition initDuckDB_try (data_url : string) : Prog unit :=
  JSDELIVR_BUNDLES <- call getJsDelivrBundles ;;
  bundle <- await (selectBundle JSDELIVR_BUNDLES) ;;
  worker_url <- call (createObjectURL
                        {| blobParts := [importScripts bundle];
                           blobType := "text/javascript" |}) ;;
  worker <- call (newWorker worker_url) ;;
  logger <- call newConsoleLogger ;;
  d <- call (newAsyncDuckDB logger worker) ;;
  await (instantiate d (mainModule bundle) (pthreadWorker bundle)) ;;
  await (registerFileURL d "emendas.parquet" data_url HTTP false) ;;
  mounted <- readMounted ;;
  if mounted : bool then setState (ready_state d) else ret tt.

Definition initDuckDB (data_url : string) : Prog unit :=
  try_catch (initDuckDB_try data_url) initDuckDB_catch.

Definition not_initialized : JsValue := newError "Database not initialized".

(** The [try] block of [executeQuery]:
    [result.toArray().map((row) => row.toJSON())] after the awaited query. *)
Definition executeQuery_try (conn : AsyncDuckDBConnection) (sql : string)
  : Prog (list JsonRow) :=
  result <- await (query conn sql) ;;
  rows <- call (toArray result) ;;
  mapP (fun row => call (toJSON row)) rows.

(** [executeQuery], closed over the [state] of the render that created it. *)
Definition executeQuery (state : DuckDBState) (sql : string)
  : Prog (list JsonRow) :=
  match db state with
  | None => Throw not_initialized
  | Some d =>
      conn <- await (connect d) ;;
      try_finally (executeQuery_try conn sql) (await (close conn))
  end.

(** The object [useDuckDB] returns for a render with the given [state]. *)
Module UseDuckDB.
Record t : Type := {
  db : option AsyncDuckDB;
  loading : bool;
  error : option JsValue;
  executeQuery : string -> Prog (list JsonRow);
  isReady : bool
}.
End UseDuckDB.

Definition is_null {A : Type} (x : option A) : bool :=
  match x with None => true | Some _ => false end.

Definition useDuckDB (state : DuckDBState) : UseDuckDB.t :=
  {| UseDuckDB.db := db state;
     UseDuckDB.loading := loading state;
     UseDuckDB.error := error state;
     UseDuckDB.executeQuery := executeQuery state;
     UseDuckDB.isReady := negb (is_null (db state)) && negb (loading state) |}.

(** ** Running programs *)

(** What the hook does is recorded in a trace, most recent entry first: a
    synchronous call with what it returned or threw; an awaited call being
    made; the promise of an awaited call settling; a [console.error]; a
    [setState]; the cleanup having run. *)
Inductive Entry : Type :=
| Called {X : Type} (op : ExtOp X) (out : Outcome X)
| Issued {X : Type} (op : ExtOp X)
| Settled {X : Type} (op : ExtOp X) (out : Outcome X)
| Logged (msg : string) (e : JsValue)
| Committed (s : DuckDBState)
| Unmounted.

(** The mutable cells of one mounted instance of the hook: the React state
    cell, the closure variable [isMounted] of its effect, and the trace. *)
Record Hook : Type := {
  state : DuckDBState;
  isMounted : bool;
  trace : list Entry
}.

Definition log (e : Entry) (h : Hook) : Hook :=
  {| state := state h; isMounted := isMounted h; trace := e :: trace h |}.

Definition commit (s : DuckDBState) (h : Hook) : Hook :=
  {| state := s; isMounted := isMounted h; trace := Committed s :: trace h |}.

(** The cleanup returned by the effect: [isMounted = false]. *)
Definition cleanup (h : Hook) : Hook :=
  {| state := state h; isMounted := false; trace := Unmounted :: trace h |}.

(** The environment: what the n-th recorded action's call gives back. *)
Definition Oracle := nat -> forall X : Type, ExtOp X -> Outcome X.

Section Interpreter.
Variable o : Oracle.

Definition answer {X : Type} (h : Hook) (op : ExtOp X) : Outcome X :=
  o (length (trace h)) op.

(** Run a program up to its next suspension point.  Reaching [await]
    makes the call and suspends; the program returned is the suspended
    one. *)
Fixpoint run_sync {R : Type} (p : Prog R) (h : Hook) : Prog R * Hook :=
  match p with
  | Ret r => (Ret r, h)
  | Throw e => (Throw e, h)
  | Call op k =>
      let out := answer h op in run_sync (k out) (log (Called op out) h)
  | Await op k => (Await op k, log (Issued op) h)
  | ReadMounted k => run_sync (k (isMounted h)) h
  | SetState s k => run_sync k (commit s h)
  | ConsoleError msg e k => run_sync k (log (Logged msg e) h)
  end.

(** The promise a suspended program waits for settles. *)
Definition settle {R : Type} (p : Prog R) (h : Hook) : Prog R * Hook :=
  match p with
  | Await op k =>
      let out := answer h op in run_sync (k out) (log (Settled op out) h)
  | _ => (p, h)
  end.

(** Run a program until it settles, every awaited promise settling in
    turn. *)
Fixpoint run {R : Type} (p : Prog R) (h : Hook) : Outcome R * Hook :=
  match p with
  | Ret r => (Ok r, h)
  | Throw e => (Thrown e, h)
  | Call op k =>
      let out := answer h op in run (k out) (log (Called op out) h)
  | Await op k =>
      let h1 := log (Issued op) h in
      let out := answer h1 op in run (k out) (log (Settled op out) h1)
  | ReadMounted k => run (k (isMounted h)) h
  | SetState s k => run k (commit s h)
  | ConsoleError msg e k => run k (log (Logged msg e) h)
  end.

(** *** The hook as a state machine *)

(** One mounted hook: its cells, its initializer (returned, or suspended
    at an [await] whose call is already made) and the [executeQuery] calls
    made so far, in the order they were made (settled, or suspended
    likewise).  Calls run concurrently: each is resumed on its own. *)
Record Sys : Type := {
  hook : Hook;
  init : Prog unit;
  calls : list (Prog (list JsonRow))
}.

(** Which render's [executeQuery] closure a caller holds. *)
Inductive Closure : Type := FirstRender | LatestRender.

(** What can happen next: the promise the initializer awaits settles; the
    component unmounts; a caller invokes [executeQuery]; the promise the
    [i]-th call awaits settles. *)
Inductive Event : Type :=
| Settle
| Unmount
| StartQuery (c : Closure) (sql : string)
| SettleQuery (i : nat).

Definition closure_state (c : Closure) (h : Hook) : DuckDBState :=
  match c with FirstRender => initial_state | LatestRender => state h end.

Fixpoint set_nth {A : Type} (i : nat) (x : A) (l : list A) : list A :=
  match l, i with
  | [], _ => []
  | _ :: l', 0 => x :: l'
  | y :: l', S i' => y :: set_nth i' x l'
  end.

Definition step (ev : Event) (sys : Sys) : Sys :=
  match ev with
  | Settle =>
      let (p, h) := settle (init sys) (hook sys) in
      {| hook := h; init := p; calls := calls sys |}
  | Unmount =>
      {| hook := cleanup (hook sys); init := init sys; calls := calls sys |}
  | StartQuery c sql =>
      let (q, h) :=
        run_sync (executeQuery (closure_state c (hook sys)) sql) (hook sys) in
      {| hook := h; init := init sys; calls := (calls sys ++ [q])%list |}
  | SettleQuery i =>
      match nth_error (calls sys) i with
      | Some q =>
          let (q', h) := settle q (hook sys) in
          {| hook := h; init := init sys; calls := set_nth i q' (calls sys) |}
      | None => sys
      end
  end.

(** The events that belong to [executeQuery] calls. *)
Definition is_query_event (ev : Event) : bool :=
  match ev with
  | StartQuery _ _ | SettleQuery _ => true
  | Settle | Unmount => false
  end.

Definition exec (evs : list Event) (sys : Sys) : Sys :=
  fold_left (fun s ev => step ev s) evs sys.

(** Mounting: the first render holds [initial_state]; the effect sets
    [isMounted = true] and calls [initDuckDB()], which runs up to its
    first [await]. *)
Definition mount (NEXT_PUBLIC_DATA_URL : option string) (history : list Entry)
  : Sys :=
  let (p, h) :=
    run_sync (initDuckDB (PARQUET_URL NEXT_PUBLIC_DATA_URL))
      {| state := initial_state; isMounted := true; trace := history |} in
  {| hook := h; init := p; calls := [] |}.

End Interpreter.

Definition finished {R : Type} (p : Prog R) : bool :=
  match p with Ret _ | Throw _ => true | _ => false end.

(** ** Reading traces *)

(** How many entries of a trace [f] accepts. *)
Definition count (f : Entry -> bool) (tr : list Entry) : nat :=
  length (filter f tr).

(** The connection a trace entry acquires: [connect()] fulfilled. *)
Definition acquired_of (e : Entry) : option AsyncDuckDBConnection :=
  match e with
  | @Settled X op (Ok x) =>
      match op in ExtOp T return T -> option AsyncDuckDBConnection with
      | connect _ => fun c => Some c
      | _ => fun _ => None
      end x
  | _ => None
  end.

(** The connection a trace entry releases: [conn.close()] called. *)
Definition released_of (e : Entry) : option AsyncDuckDBConnection :=
  match e with
  | @Issued _ (close c) => Some c
  | _ => None
  end.

(** The connection whose [close()] promise a trace entry settles. *)
Definition closed_of (e : Entry) : option AsyncDuckDBConnection :=
  match e with
  | @Settled _ (close c) _ => Some c
  | _ => None
  end.

Fixpoint collect {A : Type} (f : Entry -> option A) (tr : list Entry) : list A :=
  match tr with
  | [] => []
  | e :: tr' =>
      match f e with Some a => a :: collect f tr' | None => collect f tr' end
  end.

Definition acquired := collect acquired_of.
Definition released := collect released_of.
Definition closed := collect closed_of.

(** The five engine calls of [executeQuery]. *)
Definition is_engine_query_op {X : Type} (op : ExtOp X) : bool :=
  match op with
  | connect _ | query _ _ | toArray _ | toJSON _ | close _ => true
  | _ => false
  end.

(** The calls of the initialization sequence. *)
Definition is_init_op {X : Type} (op : ExtOp X) : bool :=
  match op with
  | getJsDelivrBundles | selectBundle _ | createObjectURL _ | newWorker _
  | newConsoleLogger | newAsyncDuckDB _ _ | instantiate _ _ _
  | registerFileURL _ _ _ _ _ => true
  | _ => false
  end.

(** An entry recorded by a query: one of the five calls of [executeQuery]. *)
Definition query_entry (e : Entry) : bool :=
  match e with
  | Called op _ | Issued op | Settled op _ => is_engine_query_op op
  | _ => false
  end.

(** The value an entry reports as thrown by a call accepted by [sel]. *)
Definition thrown_by (sel : forall X : Type, ExtOp X -> bool) (e : Entry)
  : option JsValue :=
  match e with
  | @Called X op (Thrown v) | @Settled X op (Thrown v) =>
      if sel X op then Some v else None
  | _ => None
  end.

(** ** Static descriptions of programs *)

(** [Emits P p]: every entry [p] can ever record satisfies [P]. *)
Fixpoint Emits {R : Type} (P : Entry -> Prop) (p : Prog R) : Prop :=
  match p with
  | Ret _ | Throw _ => True
  | Call op k => forall out, P (Called op out) /\ Emits P (k out)
  | Await op k =>
      P (Issued op) /\ forall out, P (Settled op out) /\ Emits P (k out)
  | ReadMounted k => forall b, Emits P (k b)
  | SetState s k => P (Committed s) /\ Emits P k
  | ConsoleError msg e k => P (Logged msg e) /\ Emits P k
  end.

Definition is_commit (e : Entry) : bool :=
  match e with Committed _ => true | _ => false end.

Definition query_only (e : Entry) : Prop := query_entry e = true.

(** Every call in flight records nothing but calls of queries. *)
Definition CallsInv (sys : Sys) : Prop :=
  Forall (Emits query_only) (calls sys).

(** An entry of a query that neither acquires nor releases a connection. *)
Definition conn_neutral (e : Entry) : Prop :=
  query_entry e = true /\
  acquired_of e = None /\ released_of e = None /\ closed_of e = None.

(** The two shapes [initDuckDB] ever passes to [setState]. *)
Definition settled_state (s : DuckDBState) : Prop :=
  (exists d, s = ready_state d) \/ (exists e, s = error_state e).

(** [Guarded mounted p]: every [setState] [p] contains is reached through
    an [isMounted] test that came out true within the same synchronous
    stretch ([mounted] is what is known of that test so far; an [await]
    forgets it), writes a ready or an error state, and is the last thing
    [p] does. *)
Fixpoint Guarded (mounted : bool) (p : Prog unit) : Prop :=
  match p with
  | Ret _ => True
  | Throw _ => True
  | Call op k => forall out, Guarded mounted (k out)
  | Await op k => forall out, Guarded false (k out)
  | ReadMounted k => Guarded true (k true) /\ Guarded false (k false)
  | SetState s k => mounted = true /\ settled_state s /\ k = Ret tt
  | ConsoleError _ _ k => Guarded mounted k
  end.

(** The values thrown by the engine calls of queries, as a trace reports
    them. *)
Definition engine_thrown : list Entry -> list JsValue :=
  collect (thrown_by (@is_engine_query_op)).

(** The lifecycle invariant of a hook mounted after [history]: its
    initializer is guarded, and either nothing was committed and the state
    is still the initial one, or exactly one settled state was committed and
    the initializer has returned. *)
Definition LifeInv (history : list Entry) (sys : Sys) : Prop :=
  Guarded false (init sys) /\
  ((state (hook sys) = initial_state /\
    count is_commit (trace (hook sys)) = count is_commit history)
   \/
   (settled_state (state (hook sys)) /\
    init sys = Ret tt /\
    count is_commit (trace (hook sys)) = S (count is_commit history))).

(** The values thrown by the calls of the initialization sequence, as a
    trace reports them. *)
Definition init_thrown : list Entry -> list JsValue :=
  collect (thrown_by (@is_init_op)).

Definition init_failure_message : string := "Failed to initialize DuckDB:".

(** [Quiet p]: [p] makes no call, does not suspend and does not throw. *)
Fixpoint Quiet (p : Prog unit) : Prop :=
  match p with
  | Ret _ => True
  | Throw _ => False
  | Call _ _ | Await _ _ => False
  | ReadMounted k => forall b, Quiet (k b)
  | SetState _ k => Quiet k
  | ConsoleError _ _ k => Quiet k
  end.

(** [Handled p]: [p] is a stretch of the [try] block of [initDuckDB] with
    its [catch] in place: every call in it belongs to the initialization
    sequence, and a call that throws continues as the [catch] block applied
    to what was thrown; after the liveness test nothing is called any
    more. *)
Fixpoint Handled (p : Prog unit) : Prop :=
  match p with
  | Ret _ => True
  | Throw _ => False
  | Call op k =>
      is_init_op op = true /\
      (forall e, k (Thrown e) = initDuckDB_catch e) /\
      (forall x, Handled (k (Ok x)))
  | Await op k =>
      is_init_op op = true /\
      (forall e, k (Thrown e) = initDuckDB_catch e) /\
      (forall x, Handled (k (Ok x)))
  | ReadMounted k => forall b, Quiet (k b)
  | SetState _ k => Quiet k
  | ConsoleError _ _ k => Handled k
  end.

(** What the trace and the state say about a failure of the initializer of
    a hook mounted after [history]: no initialization call has thrown; or
    exactly one has and the failure was logged, and then either the
    initializer has returned and, if the hook is still mounted, the failure
    is stored in an error state, or building that error threw and the
    initializer has ended in what was thrown. *)
Definition FailureInv (history : list Entry) (sys : Sys) : Prop :=
  (init_thrown (trace (hook sys)) = init_thrown history /\
   Handled (init sys))
  \/
  (exists e,
      init_thrown (trace (hook sys)) = e :: init_thrown history /\
      In (Logged init_failure_message e) (trace (hook sys)) /\
      ((init sys = Ret tt /\
        (isMounted (hook sys) = true ->
         exists err,
           toError e = Ok err /\ state (hook sys) = error_state err))
       \/
       (exists t, init sys = Throw t /\ toError e = Thrown t))).

(** ** Resource registration, as traces show it *)

(** The arguments of one [registerFileURL] call.  The last one is the
    flag the library calls [directIO]. *)
Record Registration : Type := {
  reg_db : AsyncDuckDB;
  reg_name : string;
  reg_url : string;
  reg_proto : DuckDBDataProtocol;
  reg_flag : bool
}.

(** The one binding [initDuckDB] asks for on handle [d]. *)
Definition the_registration (url : string) (d : AsyncDuckDB) : Registration :=
  {| reg_db := d; reg_name := "emendas.parquet"; reg_url := url;
     reg_proto := HTTP; reg_flag := false |}.

Definition is_ok {X : Type} (out : Outcome X) : bool :=
  match out with Ok _ => true | Thrown _ => false end.

(** The handle an entry reports as instantiated: [db.instantiate] fulfilled. *)
Definition instantiated_of (e : Entry) : option AsyncDuckDB :=
  match e with
  | @Settled _ (instantiate d _ _) out => if is_ok out then Some d else None
  | _ => None
  end.

(** The registration an entry asks for: [db.registerFileURL] called. *)
Definition registering_of (e : Entry) : option Registration :=
  match e with
  | @Issued _ (registerFileURL d n u p f) =>
      Some {| reg_db := d; reg_name := n; reg_url := u;
              reg_proto := p; reg_flag := f |}
  | _ => None
  end.

(** The registration an entry completes: [db.registerFileURL] fulfilled. *)
Definition registered_of (e : Entry) : option Registration :=
  match e with
  | @Settled _ (registerFileURL d n u p f) out =>
      if is_ok out
      then Some {| reg_db := d; reg_name := n; reg_url := u;
                   reg_proto := p; reg_flag := f |}
      else None
  | _ => None
  end.

(** The handle a query asks a connection of: [state.db.connect()] called. *)
Definition connecting_of (e : Entry) : option AsyncDuckDB :=
  match e with
  | @Issued _ (connect d) => Some d
  | _ => None
  end.

Definition instantiated := collect instantiated_of.
Definition registering := collect registering_of.
Definition registered := collect registered_of.
Definition connecting := collect connecting_of.

(** Awaited calls that have nothing to do with instantiation, registration
    or connections. *)
Definition reg_neutral_op {X : Type} (op : ExtOp X) : bool :=
  match op with
  | instantiate _ _ _ | registerFileURL _ _ _ _ _ | connect _ => false
  | _ => true
  end.

(** [RegC d ok p]: [p] comes after the registration on [d] settled ([ok]:
    fulfilled): it calls nothing, and publishes no handle other than [d],
    and that only if the registration was fulfilled. *)
Fixpoint RegC (d : AsyncDuckDB) (ok : bool) (p : Prog unit) : Prop :=
  match p with
  | Ret _ => True
  | Throw _ => True
  | Call _ _ | Await _ _ => False
  | ReadMounted k => forall b, RegC d ok (k b)
  | SetState s k => (db s = None \/ (ok = true /\ db s = Some d)) /\ RegC d ok k
  | ConsoleError _ _ k => RegC d ok k
  end.

(** [RegB url d p]: [p] is suspended on the one registration of [d]. *)
Definition RegB (url : string) (d : AsyncDuckDB) (p : Prog unit) : Prop :=
  match p with
  | Await op k =>
      match op in ExtOp T return (Outcome T -> Prog unit) -> Prop with
      | registerFileURL d' n u pr f => fun k =>
          {| reg_db := d'; reg_name := n; reg_url := u;
             reg_proto := pr; reg_flag := f |} = the_registration url d /\
          forall out, RegC d (is_ok out) (k out)
      | _ => fun _ => False
      end k
  | _ => False
  end.

(** [RegA url p]: [p] has no instantiated engine yet: it registers nothing
    and publishes no handle before [db.instantiate] is fulfilled, and when
    that happens its very next action is the registration. *)
Fixpoint RegA (url : string) (p : Prog unit) : Prop :=
  match p with
  | Ret _ => True
  | Throw _ => True
  | Call op k => forall out, RegA url (k out)
  | Await op k =>
      match op in ExtOp T return
            (Outcome T -> Prog unit) -> (Outcome T -> Prop) -> Prop with
      | instantiate d _ _ => fun k rec =>
          (forall e, rec (Thrown e)) /\ (forall u, RegB url d (k (Ok u)))
      | op' => fun k rec => reg_neutral_op op' = true /\ forall out, rec out
      end k (fun out => RegA url (k out))
  | ReadMounted k => forall b, RegA url (k b)
  | SetState s k => db s = None /\ RegA url k
  | ConsoleError _ _ k => RegA url k
  end.

(** The registration invariant of a hook mounted on a fresh page: no call
    has asked for a connection unless a handle is published, and without a
    handle every call made has already settled; the initializer is before
    the instantiation, or suspended on the registration of the instantiated
    handle, or done with it. *)
Definition RegInv (url : string) (sys : Sys) : Prop :=
  let tr := trace (hook sys) in
  (connecting tr = [] \/ db (state (hook sys)) <> None) /\
  (db (state (hook sys)) = None ->
   Forall (fun q => finished q = true) (calls sys)) /\
  ((instantiated tr = [] /\ registering tr = [] /\ registered tr = [] /\
    db (state (hook sys)) = None /\ RegA url (init sys))
   \/
   (exists d,
       instantiated tr = [d] /\
       registering tr = [the_registration url d] /\
       ((registered tr = [] /\ db (state (hook sys)) = None /\
         RegB url d (init sys))
        \/
        (finished (init sys) = true /\
         ((registered tr = [] /\ db (state (hook sys)) = None) \/
          (registered tr = [the_registration url d] /\
           (db (state (hook sys)) = None \/
            db (state (hook sys)) = Some d))))))).

(** ** Workers, as traces show them *)

(** The worker an entry allocates: [new Worker(url)] returned. *)
Definition worker_created_of (e : Entry) : option Worker :=
  match e with
  | @Called X op (Ok x) =>
      match op in ExtOp T return T -> option Worker with
      | newWorker _ => fun w => Some w
      | _ => fun _ => None
      end x
  | _ => None
  end.

(** The worker an entry releases: [worker.terminate()] called. *)
Definition worker_terminated_of (e : Entry) : option Worker :=
  match e with
  | @Called _ (terminate w) _ => Some w
  | @Issued _ (terminate w) => Some w
  | _ => None
  end.

Definition workers_created := collect worker_created_of.
Definition workers_terminated := collect worker_terminated_of.

(** The workers allocated and not released. *)
Definition live_workers (tr : list Entry) : list Worker :=
  filter (fun w => negb (existsb (Nat.eqb w) (workers_terminated tr)))
         (workers_created tr).

Definition worker_neutral_op {X : Type} (op : ExtOp X) : bool :=
  match op with
  | newWorker _ | terminate _ => false
  | _ => true
  end.

(** [WorkerOK made p]: [p] terminates no worker, creates one only if none
    was made so far ([made]), and publishes a handle only once its worker
    was made. *)
Fixpoint WorkerOK (made : bool) (p : Prog unit) : Prop :=
  match p with
  | Ret _ => True
  | Throw _ => True
  | Call op k =>
      match op in ExtOp T return
            (Outcome T -> Prog unit) -> (bool -> Outcome T -> Prop) -> Prop with
      | newWorker _ => fun k rec =>
          made = false /\ forall out, rec (is_ok out) out
      | op' => fun k rec =>
          worker_neutral_op op' = true /\ forall out, rec made out
      end k (fun m out => WorkerOK m (k out))
  | Await op k => worker_neutral_op op = true /\ forall out, WorkerOK made (k out)
  | ReadMounted k => forall b, WorkerOK made (k b)
  | SetState s k => (db s = None \/ made = true) /\ WorkerOK made k
  | ConsoleError _ _ k => WorkerOK made k
  end.

(** The worker invariant of a hook mounted after [history]: the workers of
    [history] are all still there, joined by at most one of this mount's;
    nothing was terminated; a published handle has its worker. *)
Definition WorkerInv (history : list Entry) (sys : Sys) : Prop :=
  exists (made : bool) (ws : list Worker),
    WorkerOK made (init sys) /\
    workers_created (trace (hook sys)) = (ws ++ workers_created history)%list /\
    length ws = (if made then 1 else 0) /\
    workers_terminated (trace (hook sys)) = workers_terminated history /\
    (db (state (hook sys)) = None \/ made = true).

(** ** Connections of concurrent calls *)

(** An entry that neither acquires nor releases a connection. *)
Definition conn_free (e : Entry) : Prop :=
  acquired_of e = None /\ released_of e = None /\ closed_of e = None.

(** [Releases c q]: [q] is a stretch of [executeQuery] that holds the
    connection [c]: on every path it acquires nothing, ends by awaiting
    [close()] on [c], and has settled once that promise has. *)
Fixpoint Releases {R : Type} (c : AsyncDuckDBConnection) (q : Prog R) : Prop :=
  match q with
  | Ret _ | Throw _ => False
  | Call op k => forall out, Releases c (k out)
  | Await op k =>
      match op in ExtOp T return
            (Outcome T -> Prog R) -> (Outcome T -> Prop) -> Prop with
      | close c' => fun k _ => c' = c /\ forall out, finished (k out) = true
      | connect _ => fun _ _ => False
      | _ => fun _ rec => forall out, rec out
      end k (fun out => Releases c (k out))
  | ReadMounted k => forall b, Releases c (k b)
  | SetState _ k => Releases c k
  | ConsoleError _ _ k => Releases c k
  end.

(** Where a call is: waiting for its connection, holding it, waiting for
    [close()] to settle, or settled. *)
Inductive CallStage : Type := Connecting | Holding | Closing | Done.

Definition stage {R : Type} (q : Prog R) : CallStage :=
  match q with
  | Await op _ =>
      match op with
      | connect _ => Connecting
      | close _ => Closing
      | _ => Holding
      end
  | _ => Done
  end.

Definition CallStage_eqb (s1 s2 : CallStage) : bool :=
  match s1, s2 with
  | Connecting, Connecting | Holding, Holding
  | Closing, Closing | Done, Done => true
  | _, _ => false
  end.

(** How many of the calls are at stage [s]. *)
Definition count_stage {R : Type} (s : CallStage) (qs : list (Prog R)) : nat :=
  length (filter (fun q => CallStage_eqb (stage q) s) qs).

(** One if [q] is at stage [s], zero otherwise. *)
Definition at_stage {R : Type} (s : CallStage) (q : Prog R) : nat :=
  if CallStage_eqb (stage q) s then 1 else 0.

(** [InFlight q]: [q] is a call of [executeQuery] as the hook keeps it:
    settled; or suspended on [connect()], to hold whatever connection it
    gets and to settle at once if it gets none; or suspended while holding a
    connection; or suspended on the [close()] after which it settles. *)
Definition InFlight {R : Type} (q : Prog R) : Prop :=
  match q with
  | Ret _ | Throw _ => True
  | Await op k =>
      match op in ExtOp T return (Outcome T -> Prog R) -> Prop with
      | connect _ => fun k =>
          (forall c, Releases c (k (Ok c))) /\
          (forall e, finished (k (Thrown e)) = true)
      | close _ => fun k => forall out, finished (k out) = true
      | _ => fun k => exists c, forall out, Releases c (k out)
      end k
  | _ => False
  end.

(** The connection invariant of a hook mounted on a fresh page: the
    connections acquired are those released plus one per call that holds
    one; the releases asked for are those settled plus one per call
    waiting for its [close()]. *)
Definition ConnInv (sys : Sys) : Prop :=
  Emits conn_free (init sys) /\
  Forall InFlight (calls sys) /\
  length (acquired (trace (hook sys)))
  = length (released (trace (hook sys))) + count_stage Holding (calls sys) /\
  length (released (trace (hook sys)))
  = length (closed (trace (hook sys))) + count_stage Closing (calls sys).

(** ** What single steps do, as the invariants need it *)

(** What one stretch of the initializer does about failures: no
    initialization call throws in it; or one does, and the stretch ends
    the initializer with the failure logged and, if mounted, stored. *)
Definition failure_step (h : Hook) (r : Prog unit * Hook) : Prop :=
  (init_thrown (trace (snd r)) = init_thrown (trace h) /\
   Handled (fst r) /\
   (forall x, In x (trace h) -> In x (trace (snd r))))
  \/
  (exists e,
      init_thrown (trace (snd r)) = e :: init_thrown (trace h) /\
      In (Logged init_failure_message e) (trace (snd r)) /\
      ((fst r = Ret tt /\
        (isMounted h = true ->
         exists err, toError e = Ok err /\ state (snd r) = error_state err))
       \/
       (exists t, fst r = Throw t /\ toError e = Thrown t))).

(** The four readings of a trace that registration is about. *)
Definition reg_view (tr : list Entry) :=
  (instantiated tr, registering tr, registered tr, connecting tr).

(** The published handle is none, or [d] with its registration fulfilled. *)
Definition handle_ok (d : AsyncDuckDB) (ok : bool) (h : Hook) : Prop :=
  db (state h) = None \/ (ok = true /\ db (state h) = Some d).

(** What one stretch of the initializer does to the workers: [ws] are the
    workers it creates. *)
Definition worker_step (made : bool) (h : Hook) (r : Prog unit * Hook)
  : Prop :=
  exists (made' : bool) (ws : list Worker),
    WorkerOK made' (fst r) /\
    workers_created (trace (snd r))
    = (ws ++ workers_created (trace h))%list /\
    length ws + (if made then 1 else 0) = (if made' then 1 else 0) /\
    workers_terminated (trace (snd r)) = workers_terminated (trace h) /\
    (db (state h) = None \/ made = true ->
     db (state (snd r)) = None \/ made' = true).

(** ** Sample environments and runs *)

Definition bundle_mvp : DuckDBBundle :=
  {| mainModule := "duckdb-mvp.wasm";
     mainWorker := Some "duckdb-browser-mvp.worker.js";
     pthreadWorker := None |}.

(** An environment in which every call succeeds; handles are numbered by
    the position in the trace at which they are handed out. *)
Definition happy : Oracle :=
  fun n X op =>
    match op in ExtOp T return Outcome T with
    | getJsDelivrBundles => Ok [bundle_mvp]
    | selectBundle bundles => Ok (hd bundle_mvp bundles)
    | createObjectURL _ => Ok "blob:worker"
    | newWorker _ => Ok n
    | newConsoleLogger => Ok tt
    | newAsyncDuckDB _ _ => Ok n
    | instantiate _ _ _ => Ok tt
    | registerFileURL _ _ _ _ _ => Ok tt
    | connect _ => Ok n
    | query _ _ => Ok n
    | toArray _ => Ok [0; 1; 2]
    | toJSON row => Ok [("c", SNumber (number_of_nat row))]
    | close _ => Ok tt
    | terminate _ => Ok tt
    end.

(** An environment in which no bundle suits the browser: [selectBundle]
    rejects, everything else succeeds. *)
Definition no_bundle : Oracle :=
  fun n X op =>
    match op in ExtOp T return Outcome T with
    | selectBundle _ => Thrown (JsError "No supported bundle")
    | op' => happy n op'
    end.

(** An environment in which the engine rejects every SQL text. *)
Definition bad_sql : Oracle :=
  fun n X op =>
    match op in ExtOp T return Outcome T with
    | query _ _ => Thrown (JsError "Parser Error: syntax error")
    | op' => happy n op'
    end.

(** One mount that runs to the end and is then unmounted. *)
Definition mount_cycle : list Event := [Settle; Settle; Settle; Unmount].

(** One query from the latest render, run to the end as the first call:
    [connect], [query] and [close] settle in turn. *)
Definition query_cycle (sql : string) : list Event :=
  [StartQuery LatestRender sql; SettleQuery 0; SettleQuery 0; SettleQuery 0].

(** A full initialization, then two calls started one after the other
    whose promises settle interleaved. *)
Definition two_queries : list Event :=
  [Settle; Settle; Settle;
   StartQuery LatestRender "SELECT 1"; StartQuery LatestRender "SELECT 2";
   SettleQuery 1; SettleQuery 0; SettleQuery 0; SettleQuery 1;
   SettleQuery 1; SettleQuery 0].

(** A hook whose initializer committed the handle [5]. *)
Definition ready_hook : Hook :=
  {| state := ready_state 5; isMounted := true; trace := [] |}.

(** A hook on its first render. *)
Definition fresh_hook : Hook :=
  {| state := initial_state; isMounted := true; trace := [] |}.

Definition sample_sql : string :=
  "SELECT COUNT(*) AS c FROM 'emendas.parquet'".

(** * Progress and data flow of the hook *)

(** ** How long the async functions can stay suspended *)

(** [AwaitsLe n p]: on every path, [p] suspends at most [n] times. *)
Fixpoint AwaitsLe {R : Type} (n : nat) (p : Prog R) : Prop :=
  match p with
  | Ret _ | Throw _ => True
  | Call op k => forall out, AwaitsLe n (k out)
  | Await op k =>
      match n with
      | 0 => False
      | S m => forall out, AwaitsLe m (k out)
      end
  | ReadMounted k => forall b, AwaitsLe n (k b)
  | SetState _ k => AwaitsLe n k
  | ConsoleError _ _ k => AwaitsLe n k
  end.

(** A program as the hook keeps it between events: settled, or suspended
    at an [await]. *)
Definition Stopped {R : Type} (p : Prog R) : Prop :=
  match p with
  | Ret _ | Throw _ | Await _ _ => True
  | _ => False
  end.

(** [CommitsIfMounted p]: every path through [p] on which the liveness
    test comes out true reaches a [setState] or ends in an exception. *)
Fixpoint CommitsIfMounted (p : Prog unit) : Prop :=
  match p with
  | Ret _ => False
  | Throw _ => True
  | Call op k => forall out, CommitsIfMounted (k out)
  | Await op k => forall out, CommitsIfMounted (k out)
  | ReadMounted k => CommitsIfMounted (k true)
  | SetState _ _ => True
  | ConsoleError _ _ k => CommitsIfMounted k
  end.

Definition is_settle (ev : Event) : bool :=
  match ev with Settle => true | _ => false end.

Definition is_settle_of (i : nat) (ev : Event) : bool :=
  match ev with SettleQuery j => Nat.eqb i j | _ => false end.

(** How many events of a schedule [f] accepts. *)
Definition count_events (f : Event -> bool) (evs : list Event) : nat :=
  length (filter f evs).

(** While a hook mounted after [history] is mounted, its initializer is
    still to commit or has committed. *)
Definition CommitInv (history : list Entry) (sys : Sys) : Prop :=
  isMounted (hook sys) = true ->
  CommitsIfMounted (init sys) \/
  count is_commit history < count is_commit (trace (hook sys)).

(** ** What a query submits and gets back, as traces show it *)

(** The SQL text an entry submits, with the connection it is submitted
    on: [conn.query(sql)] called. *)
Definition submitted_of (e : Entry) : option (AsyncDuckDBConnection * string) :=
  match e with
  | @Issued _ (query c s) => Some (c, s)
  | _ => None
  end.

(** The rows an entry reports as fetched: [result.toArray()] returned. *)
Definition fetched_of (e : Entry) : option (list RowProxy) :=
  match e with
  | @Called X op (Ok x) =>
      match op in ExtOp T return T -> option (list RowProxy) with
      | toArray _ => fun rows => Some rows
      | _ => fun _ => None
      end x
  | _ => None
  end.

(** The row an entry reports as converted, with the object it was
    converted to: [row.toJSON()] returned. *)
Definition converted_of (e : Entry) : option (RowProxy * JsonRow) :=
  match e with
  | @Called X op (Ok x) =>
      match op in ExtOp T return T -> option (RowProxy * JsonRow) with
      | toJSON r => fun j => Some (r, j)
      | _ => fun _ => None
      end x
  | _ => None
  end.

Definition submitted := collect submitted_of.
Definition fetched := collect fetched_of.
Definition converted := collect converted_of.

(** An environment in which the engine rejects every SQL text and every
    [close()]. *)
Definition bad_sql_bad_close : Oracle :=
  fun n X op =>
    match op in ExtOp T return Outcome T with
    | query _ _ => Thrown (JsError "Parser Error: syntax error")
    | close _ => Thrown (JsOther "connection lost")
    | op' => happy n op'
    end.

(** * The components that use the hook

    [web/src/app/page.tsx], [SqlConsole], [TraceView] and [EvidenceLink].
    What a component renders is modelled by the data it shows: texts,
    flags and lists, without the markup around them. *)

From Stdlib Require Import DecimalString.

(** ** JavaScript built-ins the components use *)

(** Strings stand for sequences of code units below 256. *)
Module JS.

(** The code units of WhiteSpace and LineTerminator: TAB, LF, VT, FF, CR,
    SP and NBSP. *)
Definition isWhiteSpace (c : ascii) : bool :=
  existsb (Ascii.eqb c)
          ["009"; "010"; "011"; "012"; "013"; " "; "160"]%char.

(** [s.trimStart()] *)
Fixpoint trimStart (s : string) : string :=
  match s with
  | EmptyString => EmptyString
  | String c s' => if isWhiteSpace c then trimStart s' else s
  end.

(** [s.trimEnd()] *)
Fixpoint trimEnd (s : string) : string :=
  match s with
  | EmptyString => EmptyString
  | String c s' =>
      match trimEnd s' with
      | EmptyString =>
          if isWhiteSpace c then EmptyString else String c EmptyString
      | t => String c t
      end
  end.

(** [s.trim()] *)
Definition trim (s : string) : string := trimEnd (trimStart s).

(** [s.split(sep)] for a separator of one code unit: the pieces between
    the separators, in order; a string without separator is its one
    piece. *)
Fixpoint split (sep : ascii) (s : string) : list string :=
  match s with
  | EmptyString => [EmptyString]
  | String c s' =>
      if Ascii.eqb c sep then EmptyString :: split sep s'
      else match split sep s' with
           | x :: xs => String c x :: xs
           | [] => [String c EmptyString]
           end
  end.

(** [xs.join(sep)] on strings *)
Fixpoint join (sep : ascii) (xs : list string) : string :=
  match xs with
  | [] => EmptyString
  | [x] => x
  | x :: xs' => x ++ String sep (join sep xs')
  end.

(** [s.includes(c)] for one code unit *)
Fixpoint includes (c : ascii) (s : string) : bool :=
  match s with
  | EmptyString => false
  | String c' s' => Ascii.eqb c' c || includes c s'
  end.

(** Truthiness of a string: [Boolean(s)]. *)
Definition truthy (s : string) : bool :=
  match s with EmptyString => false | String _ _ => true end.

(** [s.slice(0, n)] *)
Definition slice0 (n : nat) (s : string) : string := substring 0 n s.

(** [String(n)] for an array length or index [n] (a non-negative integer
    below 2^32): its decimal digits. *)
Definition String_of_length (n : nat) : string :=
  NilEmpty.string_of_uint (Nat.to_uint n).

(** [String(z)] for a [BigInt]: its decimal digits, with the sign of a
    negative one. *)
Definition String_of_BigInt (z : Z) : string :=
  NilEmpty.string_of_int (Z.to_int z).

(** [row[col]]: [None] is [undefined]. *)
Fixpoint get (row : JsonRow) (col : string) : option Scalar :=
  match row with
  | [] => None
  | (k, v) :: row' => if String.eqb k col then Some v else get row' col
  end.

(** [Object.keys(row)] *)
Definition keys (row : JsonRow) : list string := map fst row.

Section Conversions.
(** Number-to-string conversion of a double (the shortest digits that
    read back as the same double, exponent notation from 1e21 on). *)
Variable NumberToString : float -> string.
(** StringToNumber; [NaN] where the string is no numeric literal. *)
Variable StringToNumber : string -> float.
(** The double nearest to a [BigInt]. *)
Variable BigIntToNumber : Z -> float.

(** [String(v ?? EMPTY)], [EMPTY] being the empty string literal: [null]
    and [undefined] ([None]) give the empty string. *)
Definition String_or_empty (v : option Scalar) : string :=
  match v with
  | None | Some SNull => EmptyString
  | Some (SString s) => s
  | Some (SNumber n) => NumberToString n
  | Some (SBool b) => if b then "true" else "false"
  | Some (SBigInt z) => String_of_BigInt z
  | Some (SObject text _) => text
  end.

(** [Number(v)]; [None] is [undefined]. *)
Definition Number (v : option Scalar) : float :=
  match v with
  | None => PrimFloat.nan
  | Some SNull => PrimFloat.zero
  | Some (SBool b) => if b then PrimFloat.one else PrimFloat.zero
  | Some (SNumber n) => n
  | Some (SString s) => StringToNumber s
  | Some (SBigInt z) => BigIntToNumber z
  | Some (SObject _ number) => number
  end.

(** [x || 0] on a number: [0], [-0] and [NaN] are falsy. *)
Definition or_0 (x : float) : float :=
  if PrimFloat.is_zero x || PrimFloat.is_nan x then PrimFloat.zero else x.

(** [Number(v) || 0] *)
Definition Number_or_0 (v : option Scalar) : float := or_0 (Number v).
End Conversions.

(** [err.message]: [None] is [undefined]. *)
Definition message (e : JsValue) : option string :=
  match e with JsError m => Some m | _ => None end.

End JS.

(** ** Async functions of components *)

(** What an [async] function of a component can do next: return; throw;
    [await] a promise of the hook, given by the program that settles it;
    call one of the component's state setters; call [console.error]. *)
Inductive UI (S R : Type) : Type :=
| URet (r : R)
| UThrow (e : JsValue)
| UAwait {X : Type} (p : Prog X) (k : Outcome X -> UI S R)
| USet (f : S -> S) (k : UI S R)
| ULog (msg : string) (e : JsValue) (k : UI S R).
Arguments URet {S R} r.
Arguments UThrow {S R} e.
Arguments UAwait {S R X} p k.
Arguments USet {S R} f k.
Arguments ULog {S R} msg e k.

Fixpoint ubind {S A B : Type} (m : UI S A) (f : A -> UI S B) : UI S B :=
  match m with
  | URet a => f a
  | UThrow e => UThrow e
  | UAwait p k => UAwait p (fun out => ubind (k out) f)
  | USet g k => USet g (ubind k f)
  | ULog msg e k => ULog msg e (ubind k f)
  end.

#[global] Instance Monad_UI (S : Type) : Monad (UI S) :=
  {| ret := fun R => @URet S R; bind := fun A B => @ubind S A B |}.

Definition uof_outcome {S X : Type} (out : Outcome X) : UI S X :=
  match out with Ok x => URet x | Thrown e => UThrow e end.

(** [await p] *)
Definition uawait {S X : Type} (p : Prog X) : UI S X := UAwait p uof_outcome.
Definition uset {S : Type} (f : S -> S) : UI S unit := USet f (URet tt).
Definition ulog {S : Type} (msg : string) (e : JsValue) : UI S unit :=
  ULog msg e (URet tt).

(** [try { body } catch (e) { handler e }] *)
Fixpoint utry_catch {S R : Type} (body : UI S R) (handler : JsValue -> UI S R)
  : UI S R :=
  match body with
  | URet r => URet r
  | UThrow e => handler e
  | UAwait p k => UAwait p (fun out => utry_catch (k out) handler)
  | USet f k => USet f (utry_catch k handler)
  | ULog msg e k => ULog msg e (utry_catch k handler)
  end.

(** [try { body } finally { fin }] *)
Fixpoint utry_finally {S R : Type} (body : UI S R) (fin : UI S unit) : UI S R :=
  match body with
  | URet r => ubind fin (fun _ => URet r)
  | UThrow e => ubind fin (fun _ => UThrow e)
  | UAwait p k => UAwait p (fun out => utry_finally (k out) fin)
  | USet f k => USet f (utry_finally k fin)
  | ULog msg e k => ULog msg e (utry_finally k fin)
  end.

(** Run an async function of a component until it settles, every promise
    it awaits settling in turn: the component's cells and the hook's. *)
Fixpoint urun (o : Oracle) {S R : Type} (u : UI S R) (s : S) (h : Hook)
  : Outcome R * S * Hook :=
  match u with
  | URet r => (Ok r, s, h)
  | UThrow e => (Thrown e, s, h)
  | UAwait p k => let (out, h') := run o p h in urun o (k out) s h'
  | USet f k => urun o k (f s) h
  | ULog msg e k => urun o k s (log (Logged msg e) h)
  end.

(** The component's cells when the function first suspends (or settles
    without suspending): what is rendered while it waits. *)
Fixpoint ususpend {S R : Type} (u : UI S R) (s : S) : S :=
  match u with
  | USet f k => ususpend k (f s)
  | ULog _ _ k => ususpend k s
  | _ => s
  end.

(** Whether the function suspends at all. *)
Fixpoint ususpends {S R : Type} (u : UI S R) : bool :=
  match u with
  | UAwait _ _ => true
  | USet _ k | ULog _ _ k => ususpends k
  | _ => false
  end.

(** ** [SqlConsole] *)

Module SqlConsole.

Record Props : Type := {
  executeQuery : string -> Prog (list JsonRow);
  isReady : bool
}.

(** The four [useState] cells. *)
Record State : Type := {
  query : string;
  results : list JsonRow;
  error : option string;
  loading : bool
}.

Definition initial : State :=
  {| query := "SELECT * FROM 'emendas.parquet' LIMIT 10";
     results := []; error := None; loading := false |}.

Definition setQuery (q : string) (s : State) : State :=
  {| query := q; results := results s; error := error s; loading := loading s |}.
Definition setResults (r : list JsonRow) (s : State) : State :=
  {| query := query s; results := r; error := error s; loading := loading s |}.
Definition setError (e : option string) (s : State) : State :=
  {| query := query s; results := results s; error := e; loading := loading s |}.
Definition setLoading (b : bool) (s : State) : State :=
  {| query := query s; results := results s; error := error s; loading := b |}.

(** [err instanceof Error ? err.message : String(err)]: the expression
    throws what [String(err)] throws. *)
Definition error_text (err : JsValue) : Outcome string :=
  match err with
  | JsError message => Ok message
  | _ => String_ err
  end.

(** [handleExecute] of the render with cells [s]: the argument of
    [setError] is evaluated, and may throw, before [setError] is called. *)
Definition handleExecute (props : Props) (s : State) : UI State unit :=
  if negb (isReady props) then URet tt
  else
    uset (setLoading true) ;;
    uset (setError None) ;;
    utry_finally
      (utry_catch
         (data <- uawait (executeQuery props (query s)) ;;
          uset (setResults data))
         (fun err =>
            text <- uof_outcome (error_text err) ;;
            uset (setError (Some text)) ;;
            uset (setResults [])))
      (uset (setLoading false)).

(** [results.length > 0 ? Object.keys(results[0]) : []] *)
Definition columns (s : State) : list string :=
  match results s with
  | row :: _ => JS.keys row
  | [] => []
  end.

(** The result table: the counter, the header row and the body rows.  A
    body cell is given by the value [row[col]] ([None]: [undefined]) whose
    string form [String(row[col] ?? EMPTY)] it shows. *)
Record Table : Type := {
  counter : nat;
  header : list string;
  body : list (list (option Scalar))
}.

(** The texts of the body cells. *)
Definition cell_texts (NumberToString : float -> string) (t : Table)
  : list (list string) :=
  map (map (JS.String_or_empty NumberToString)) (body t).

(** What the component shows. *)
Record View : Type := {
  status : string;
  textarea_disabled : bool;
  button_disabled : bool;
  button_busy : bool;
  error_box : option string;
  table : option Table
}.

Definition render (props : Props) (s : State) : View :=
  {| status := if isReady props then "DuckDB Conectado" else "Carregando...";
     textarea_disabled := negb (isReady props);
     button_disabled := negb (isReady props) || loading s;
     button_busy := loading s;
     error_box :=
       match error s with
       | Some e => if JS.truthy e then Some e else None
       | None => None
       end;
     table :=
       if Nat.ltb 0 (length (results s))
       then Some {| counter := length (results s);
                    header := columns s;
                    body := map (fun row =>
                                   map (fun col => JS.get row col)
                                       (columns s))
                                (results s) |}
       else None |}.

End SqlConsole.

(** ** [TraceView] *)

Module TraceView.

(** A record as the component reads it; [None] is [null] or
    [undefined]. *)
Record TraceRecord : Type := {
  emenda_id : option string;
  emenda_autor : option string;
  emenda_valor : option float;
  municipio_nome : option string;
  uf : option string;
  cnpjs_encontrados : option string;
  gazette_url : option string;
  link_status : option string
}.

(** [v || d] on a string that may be missing *)
Definition or_default (v : option string) (d : string) : string :=
  match v with
  | Some s => if JS.truthy s then s else d
  | None => d
  end.

(** [record.cnpjs_encontrados
     ? record.cnpjs_encontrados.split(",").map((c) => c.trim()).filter(Boolean)
     : []] *)
Definition cnpjs (record : TraceRecord) : list string :=
  match cnpjs_encontrados record with
  | Some s =>
      if JS.truthy s
      then filter JS.truthy (map JS.trim (JS.split "," s))
      else []
  | None => []
  end.

(** The three status badges: evidence found, no gazette, incomplete
    data. *)
Inductive Badge : Type := Found | NoGazette | Incomplete.

(** What one card shows. *)
Record Card : Type := {
  author : string;
  valor : float;
  municipality : string;
  state_code : string;
  company : string;
  company_note : string;
  badge : Badge;
  evidence : option string
}.

Definition Municipio : string := "Munic" ++ String "237"%char "pio".

Definition TraceCard (record : TraceRecord) : Card :=
  let cnpjs := cnpjs record in
  {| author := or_default (emenda_autor record) "Deputado";
     valor := match emenda_valor record with
              | Some x => JS.or_0 x
              | None => PrimFloat.zero
              end;
     municipality := or_default (municipio_nome record) Municipio;
     state_code := or_default (uf record) "UF";
     company := match cnpjs with c :: _ => c | [] => "Empresa" end;
     company_note :=
       if Nat.ltb 1 (length cnpjs)
       then "+" ++ JS.String_of_length (length cnpjs - 1) ++ " CNPJ(s)"
       else "CNPJ";
     badge :=
       match link_status record with
       | Some "found" => Found
       | Some "no_gazette" => NoGazette
       | _ => Incomplete
       end;
     evidence :=
       match gazette_url record with
       | Some u => if JS.truthy u then Some u else None
       | None => None
       end |}.

(** [record.emenda_id || idx] *)
Definition key (record : TraceRecord) (idx : nat) : string + nat :=
  match emenda_id record with
  | Some s => if JS.truthy s then inl s else inr idx
  | None => inr idx
  end.

Inductive Rendered : Type :=
| Placeholder
| Cards (counter : nat) (cards : list ((string + nat) * Card)).

Fixpoint cards_from (idx : nat) (data : list TraceRecord)
  : list ((string + nat) * Card) :=
  match data with
  | [] => []
  | record :: data' =>
      (key record idx, TraceCard record) :: cards_from (S idx) data'
  end.

(** [TraceView]; [None] is a missing [data]. *)
Definition TraceView (data : option (list TraceRecord)) : Rendered :=
  match data with
  | None | Some [] => Placeholder
  | Some d => Cards (length d) (cards_from 0 d)
  end.

End TraceView.

(** ** [EvidenceLink] *)

Module EvidenceLink.

Record Props : Type := {
  url : string;
  date : option string;
  territory : option string;
  excerpts : option (list string)
}.

(** What one link box shows: the date handed to the formatter, what
    follows the title, the excerpt texts, the link target. *)
Record Rendered : Type := {
  date_shown : option string;
  title_suffix : string;
  paragraphs : list string;
  href : string
}.

Definition EvidenceLink (p : Props) : Rendered :=
  {| date_shown :=
       match date p with
       | Some d => if JS.truthy d then Some d else None
       | None => None
       end;
     title_suffix :=
       match territory p with
       | Some t => if JS.truthy t then "- " ++ t else EmptyString
       | None => EmptyString
       end;
     paragraphs :=
       match excerpts p with
       | Some l =>
           if Nat.ltb 0 (length l) then map (JS.slice0 150) (firstn 2 l) else []
       | None => []
       end;
     href := url p |}.

(** [EvidenceList]; [None] is the placeholder. *)
Definition EvidenceList (evidences : option (list Props))
  : option (list Rendered) :=
  match evidences with
  | None | Some [] => None
  | Some l => Some (map EvidenceLink l)
  end.

End EvidenceLink.

(** ** [Home] *)

Module Home.

Inductive Tab : Type := tab_trace | tab_sql.

Record Stats : Type := {
  totalEmendas : float;
  totalValor : float;
  totalMunicipios : float;
  evidenciasEncontradas : float
}.

(** The three [useState] cells. *)
Record State : Type := {
  traceData : list JsonRow;
  stats : Stats;
  activeTab : Tab
}.

Definition initial : State :=
  {| traceData := [];
     stats := {| totalEmendas := PrimFloat.zero; totalValor := PrimFloat.zero;
                 totalMunicipios := PrimFloat.zero;
                 evidenciasEncontradas := PrimFloat.zero |};
     activeTab := tab_trace |}.

Definition setTraceData (d : list JsonRow) (s : State) : State :=
  {| traceData := d; stats := stats s; activeTab := activeTab s |}.
Definition setStats (st : Stats) (s : State) : State :=
  {| traceData := traceData s; stats := st; activeTab := activeTab s |}.
Definition setActiveTab (t : Tab) (s : State) : State :=
  {| traceData := traceData s; stats := stats s; activeTab := t |}.

Definition nl : string := String "010"%char EmptyString.

(** The two template literals of [loadInitialData], line by line. *)
Definition trace_sql : string :=
  nl ++ "          SELECT * FROM 'emendas.parquet' " ++
  nl ++ "          ORDER BY emenda_valor DESC " ++
  nl ++ "          LIMIT 20" ++
  nl ++ "        ".

Definition stats_sql : string :=
  nl ++ "          SELECT " ++
  nl ++ "            COUNT(*) as total_emendas," ++
  nl ++ "            COALESCE(SUM(emenda_valor), 0) as total_valor," ++
  nl ++ "            COUNT(DISTINCT municipio_nome) as total_municipios," ++
  nl ++ "            SUM(CASE WHEN link_status = 'found' THEN 1 ELSE 0 END) as evidencias" ++
  nl ++ "          FROM 'emendas.parquet'" ++
  nl ++ "        ".

Definition load_failure_message : string := "Failed to load initial data:".

Section LoadInitialData.
Variable StringToNumber : string -> float.
Variable BigIntToNumber : Z -> float.

Definition stats_of (s : JsonRow) : Stats :=
  let number_or_0 := JS.Number_or_0 StringToNumber BigIntToNumber in
  {| totalEmendas := number_or_0 (JS.get s "total_emendas");
     totalValor := number_or_0 (JS.get s "total_valor");
     totalMunicipios := number_or_0 (JS.get s "total_municipios");
     evidenciasEncontradas := number_or_0 (JS.get s "evidencias") |}.

(** [loadInitialData] of the effect of a render that got [v] from
    [useDuckDB]. *)
Definition loadInitialData (v : UseDuckDB.t) : UI State unit :=
  if negb (UseDuckDB.isReady v) then URet tt
  else
    utry_catch
      (data <- uawait (UseDuckDB.executeQuery v trace_sql) ;;
       uset (setTraceData data) ;;
       statsQuery <- uawait (UseDuckDB.executeQuery v stats_sql) ;;
       match statsQuery with
       | s :: _ => uset (setStats (stats_of s))
       | [] => URet tt
       end)
      (fun err => ulog load_failure_message err).
End LoadInitialData.

(** [loading ? "Carregando..." : isReady ? "Online" : "Offline"] *)
Definition status_label (v : UseDuckDB.t) : string :=
  if UseDuckDB.loading v then "Carregando..."
  else if UseDuckDB.isReady v then "Online" else "Offline".

(** The error banner: shown for a non-null [error], with [error.message]
    ([None] inside: [undefined]). *)
Definition error_banner (v : UseDuckDB.t) : option (option string) :=
  match UseDuckDB.error v with
  | Some e => Some (JS.message e)
  | None => None
  end.

(** The props [Home] hands to [SqlConsole]. *)
Definition console_props (v : UseDuckDB.t) : SqlConsole.Props :=
  {| SqlConsole.executeQuery := UseDuckDB.executeQuery v;
     SqlConsole.isReady := UseDuckDB.isReady v |}.

End Home.

(** ** Sample inputs of the components *)

Definition sample_record : TraceView.TraceRecord :=
  {| TraceView.emenda_id := Some "202312340001";
     TraceView.emenda_autor := Some EmptyString;
     TraceView.emenda_valor := Some PrimFloat.zero;
     TraceView.municipio_nome := None;
     TraceView.uf := Some "SP";
     TraceView.cnpjs_encontrados := Some " 12.345.678/0001-00 , ,98.765.432/0001-10 ";
     TraceView.gazette_url := Some EmptyString;
     TraceView.link_status := Some "found" |}.

(** [sample_record] with its CNPJ field rewritten from the parsed list. *)
Definition sample_record_rejoined : TraceView.TraceRecord :=
  {| TraceView.emenda_id := TraceView.emenda_id sample_record;
     TraceView.emenda_autor := TraceView.emenda_autor sample_record;
     TraceView.emenda_valor := TraceView.emenda_valor sample_record;
     TraceView.municipio_nome := TraceView.municipio_nome sample_record;
     TraceView.uf := TraceView.uf sample_record;
     TraceView.cnpjs_encontrados :=
       Some (JS.join "," (TraceView.cnpjs sample_record));
     TraceView.gazette_url := TraceView.gazette_url sample_record;
     TraceView.link_status := TraceView.link_status sample_record |}.

(** Console cells holding two result rows, the second without the
    column [uf]. *)
Definition sample_console : SqlConsole.State :=
  {| SqlConsole.query := "SELECT municipio_nome, uf, emenda_valor FROM 'emendas.parquet'";
     SqlConsole.results :=
       [ [("municipio_nome", SString "Campinas"); ("uf", SNull);
          ("emenda_valor", SNumber 1500)];
         [("municipio_nome", SString "Santos"); ("emenda_valor", SNumber 0)] ];
     SqlConsole.error := None;
     SqlConsole.loading := false |}.

(** What an entry reports to [console.error]. *)
Definition logged_of (e : Entry) : option (string * JsValue) :=
  match e with
  | Logged msg v => Some (msg, v)
  | _ => None
  end.

Definition logged := collect logged_of.

(** Every state an entry commits satisfies [Q]. *)
Definition commits_satisfy (Q : DuckDBState -> Prop) (e : Entry) : Prop :=
  match e with Committed s => Q s | _ => True end.

(** The [error] cell holds [null] or an [Error] instance. *)
Definition error_is_Error (s : DuckDBState) : Prop :=
  match error s with
  | Some e => instanceofError e = true
  | None => True
  end.

(** Two records, the second without an identifier. *)
Definition sample_data : list TraceView.TraceRecord :=
  [ sample_record;
    {| TraceView.emenda_id := None;
       TraceView.emenda_autor := Some "Dep. Fulano";
       TraceView.emenda_valor := Some 2500%float;
       TraceView.municipio_nome := Some "Santos";
       TraceView.uf := Some "SP";
       TraceView.cnpjs_encontrados := None;
       TraceView.gazette_url := Some "https://queridodiario.ok.org.br/doc/1";
       TraceView.link_status := Some "no_gazette" |} ].

(** An environment in which [selectBundle] rejects with an object that has
    no string form: [String()] throws a [TypeError] for it. *)
Definition no_bundle_opaque : Oracle :=
  fun n X op =>
    match op in ExtOp T return Outcome T with
    | selectBundle _ =>
        Thrown (JsNoString
                  (JsError "Cannot convert object to primitive value"))
    | op' => happy n op'
    end.

(** An environment in which the engine rejects every SQL text with such an
    object. *)
Definition bad_sql_opaque : Oracle :=
  fun n X op =>
    match op in ExtOp T return Outcome T with
    | query _ _ =>
        Thrown (JsNoString
                  (JsError "Cannot convert object to primitive value"))
    | op' => happy n op'
    end.

(** * Properties *)

Local Open Scope list_scope.

(** ** The interpreter *)

Section InterpreterFacts.
Variable o : Oracle.

Lemma run_bindP {A B : Type} (m : Prog A) (f : A -> Prog B) (h : Hook) :
  run o (bindP m f) h =
  match run o m h with
  | (Ok a, h1) => run o (f a) h1
  | (Thrown e, h1) => (Thrown e, h1)
  end.
Proof.
  revert h; induction m as [a|e|X op k IH|X op k IH|k IH|s k IH|msg e k IH];
    intros h; simpl; auto.
Qed.

Lemma run_try_finally {R : Type} (body : Prog R) (fin : Prog unit) (h : Hook) :
  run o (try_finally body fin) h =
  let (out, h1) := run o body h in
  match run o fin h1 with
  | (Ok _, h2) => (out, h2)
  | (Thrown e, h2) => (Thrown e, h2)
  end.
Proof.
  revert h; induction body as [r|e|X op k IH|X op k IH|k IH|s k IH|msg e k IH];
    intros h; simpl; auto.
  - rewrite run_bindP. destruct (run o fin h) as [[u|e] h2]; reflexivity.
  - rewrite run_bindP. destruct (run o fin h) as [[u|e'] h2]; reflexivity.
Qed.

Lemma run_isMounted {R : Type} (p : Prog R) (h : Hook) :
  isMounted (snd (run o p h)) = isMounted h.
Proof.
  revert h; induction p as [r|e|X op k IH|X op k IH|k IH|s k IH|msg e k IH];
    intros h; simpl; auto; rewrite IH; reflexivity.
Qed.

Lemma run_sync_isMounted {R : Type} (p : Prog R) (h : Hook) :
  isMounted (snd (run_sync o p h)) = isMounted h.
Proof.
  revert h; induction p as [r|e|X op k IH|X op k IH|k IH|s k IH|msg e k IH];
    intros h; simpl; auto; rewrite IH; reflexivity.
Qed.

Lemma settle_isMounted {R : Type} (p : Prog R) (h : Hook) :
  isMounted (snd (settle o p h)) = isMounted h.
Proof.
  destruct p; simpl; auto. rewrite run_sync_isMounted. reflexivity.
Qed.

(** Everything a stretch of a program records satisfies what [Emits]
    promises, and so does what is left of the program. *)
Lemma Emits_run_sync {R : Type} (P : Entry -> Prop) (p : Prog R) (h : Hook) :
  Emits P p ->
  Emits P (fst (run_sync o p h)) /\
  exists new, trace (snd (run_sync o p h)) = new ++ trace h /\ Forall P new.
Proof.
  revert h; induction p as [r|e|X op k IH|X op k IH|k IH|s k IH|msg e k IH];
    intros h HE; cbn [run_sync]; cbn [Emits] in HE.
  - cbn. split; auto. exists []. auto.
  - cbn. split; auto. exists []. auto.
  - destruct (HE (answer o h op)) as [HP HK].
    destruct (IH _ (log (Called op (answer o h op)) h) HK) as (H1 & new & Ht & HF).
    split; auto.
    exists (new ++ [Called op (answer o h op)]). rewrite Ht, <- app_assoc.
    split; [reflexivity|]. apply Forall_app; auto.
  - destruct HE as [HI HE]. cbn [fst snd].
    split; [cbn [Emits]; auto|]. exists [Issued op]. auto.
  - apply IH, HE.
  - destruct HE as [HP HK]. destruct (IH (commit s h) HK) as (H1 & new & Ht & HF).
    split; auto. exists (new ++ [Committed s]). rewrite Ht, <- app_assoc.
    split; [reflexivity|]. apply Forall_app; auto.
  - destruct HE as [HP HK].
    destruct (IH (log (Logged msg e) h) HK) as (H1 & new & Ht & HF).
    split; auto. exists (new ++ [Logged msg e]). rewrite Ht, <- app_assoc.
    split; [reflexivity|]. apply Forall_app; auto.
Qed.

Lemma Emits_settle {R : Type} (P : Entry -> Prop) (p : Prog R) (h : Hook) :
  Emits P p ->
  Emits P (fst (settle o p h)) /\
  exists new, trace (snd (settle o p h)) = new ++ trace h /\ Forall P new.
Proof.
  intros HE.
  destruct p as [r|e|X op k|X op k|k|s k|msg e k];
    try (cbn [settle fst snd]; split; [exact HE|]; exists []; auto; fail).
  cbn [settle]. cbn [Emits] in HE. destruct HE as [_ HE].
  destruct (HE (answer o h op)) as [HP HK].
  destruct (@Emits_run_sync _ P (k (answer o h op))
              (log (Settled op (answer o h op)) h) HK) as (H1 & new & Ht & HF).
  split; auto.
  exists (new ++ [Settled op (answer o h op)]). rewrite Ht, <- app_assoc.
  split; [reflexivity|]. apply Forall_app; auto.
Qed.

(** A stretch of a program that records only calls of queries: so does
    what is left of it, and the stretch leaves the state cell alone. *)
Lemma run_sync_frame {R : Type} (p : Prog R) (h : Hook) :
  Emits query_only p ->
  Emits query_only (fst (run_sync o p h)) /\
  state (snd (run_sync o p h)) = state h /\
  exists new,
    trace (snd (run_sync o p h)) = new ++ trace h /\ Forall query_only new.
Proof.
  revert h; induction p as [r|e|X op k IH|X op k IH|k IH|s k IH|msg e k IH];
    intros h HE; cbn [run_sync]; cbn [Emits] in HE.
  - cbn. repeat split; auto. exists []. auto.
  - cbn. repeat split; auto. exists []. auto.
  - destruct (HE (answer o h op)) as [HP HK].
    destruct (IH _ (log (Called op (answer o h op)) h) HK)
      as (H1 & H2 & new & Ht & HF).
    repeat split; auto.
    exists (new ++ [Called op (answer o h op)]). rewrite Ht, <- app_assoc.
    split; [reflexivity|]. apply Forall_app; auto.
  - destruct HE as [HI HE]. cbn [fst snd].
    split; [cbn [Emits]; auto|]. split; [reflexivity|].
    exists [Issued op]. auto.
  - apply IH, HE.
  - destruct HE as [HP _]. discriminate HP.
  - destruct HE as [HP _]. discriminate HP.
Qed.

Lemma settle_frame {R : Type} (p : Prog R) (h : Hook) :
  Emits query_only p ->
  Emits query_only (fst (settle o p h)) /\
  state (snd (settle o p h)) = state h /\
  exists new,
    trace (snd (settle o p h)) = new ++ trace h /\ Forall query_only new.
Proof.
  intros HE.
  destruct p as [r|e|X op k|X op k|k|s k|msg e k];
    try (cbn [settle fst snd]; split; [exact HE|]; split; [reflexivity|];
         exists []; auto; fail).
  cbn [settle]. cbn [Emits] in HE. destruct HE as [_ HE].
  destruct (HE (answer o h op)) as [HP HK].
  destruct (@run_sync_frame _ (k (answer o h op))
              (log (Settled op (answer o h op)) h) HK)
    as (H1 & H2 & new & Ht & HF).
  repeat split; auto.
  exists (new ++ [Settled op (answer o h op)]). rewrite Ht, <- app_assoc.
  split; [reflexivity|]. apply Forall_app; auto.
Qed.

End InterpreterFacts.

Lemma Emits_bindP {A B : Type} (P : Entry -> Prop) (m : Prog A) (f : A -> Prog B) :
  Emits P m -> (forall a, Emits P (f a)) -> Emits P (bindP m f).
Proof.
  intros HM HF. induction m as [r|e|X op k IH|X op k IH|k IH|s k IH|msg e k IH];
    simpl in *; auto.
  - intros out. destruct (HM out). auto.
  - destruct HM as [HI HM]. split; auto. intros out. destruct (HM out). auto.
  - destruct HM. auto.
  - destruct HM. auto.
Qed.

Lemma Emits_try_finally {R : Type} (P : Entry -> Prop) (body : Prog R)
      (fin : Prog unit) :
  Emits P body -> Emits P fin -> Emits P (try_finally body fin).
Proof.
  intros HM HF. induction body as [r|e|X op k IH|X op k IH|k IH|s k IH|msg e k IH];
    simpl in *; auto.
  - apply Emits_bindP; simpl; auto.
  - apply Emits_bindP; simpl; auto.
  - intros out. destruct (HM out). auto.
  - destruct HM as [HI HM]. split; auto. intros out. destruct (HM out). auto.
  - destruct HM. auto.
  - destruct HM. auto.
Qed.

Lemma Emits_mapP {A B : Type} (P : Entry -> Prop) (f : A -> Prog B) (xs : list A) :
  (forall a, Emits P (f a)) -> Emits P (mapP f xs).
Proof.
  intros HF. induction xs as [|x xs IH]; simpl; auto.
  apply Emits_bindP; auto. intros y. apply Emits_bindP; simpl; auto.
Qed.

Lemma Emits_call {X : Type} (P : Entry -> Prop) (op : ExtOp X) :
  (forall out, P (Called op out)) -> Emits P (call op).
Proof. intros H out. split; auto. destruct out; simpl; auto. Qed.

Lemma Emits_await {X : Type} (P : Entry -> Prop) (op : ExtOp X) :
  P (Issued op) -> (forall out, P (Settled op out)) -> Emits P (await op).
Proof. intros H1 H2. split; auto. intros out. split; auto. destruct out; simpl; auto. Qed.

Lemma collect_app {A : Type} (f : Entry -> option A) (l1 l2 : list Entry) :
  collect f (l1 ++ l2) = collect f l1 ++ collect f l2.
Proof.
  induction l1 as [|e l1 IH]; simpl; auto.
  destruct (f e); simpl; rewrite IH; reflexivity.
Qed.

Lemma collect_none {A : Type} (f : Entry -> option A) (l : list Entry) :
  Forall (fun e => f e = None) l -> collect f l = [].
Proof.
  induction 1 as [|e l He _ IH]; simpl; auto. rewrite He. exact IH.
Qed.

(** ** [executeQuery] *)

Section ExecuteQuery.
Variable o : Oracle.

Lemma mapP_toJSON_run (rows : list RowProxy) (h : Hook) :
  exists new,
    trace (snd (run o (mapP (fun row => call (toJSON row)) rows) h))
    = new ++ trace h /\
    Forall conn_neutral new /\
    state (snd (run o (mapP (fun row => call (toJSON row)) rows) h))
    = state h /\
    forall e, fst (run o (mapP (fun row => call (toJSON row)) rows) h)
              = Thrown e -> In e (engine_thrown new).
Proof.
  revert h; induction rows as [|row rows IH]; intros h.
  - exists []. cbn. repeat split; auto. discriminate.
  - cbn. destruct (answer o h (toJSON row)) as [y|e0] eqn:Ha; cbn.
    + rewrite run_bindP.
      destruct (IH (log (Called (toJSON row) (Ok y)) h))
        as [new [Ht [Hn [Hs He]]]].
      destruct (run o (mapP (fun r => call (toJSON r)) rows)
                  (log (Called (toJSON row) (Ok y)) h)) as [[ys|e] h2];
        cbn in *.
      * exists (new ++ [Called (toJSON row) (Ok y)]).
        rewrite Ht, <- app_assoc. repeat split; auto.
        -- apply Forall_app; split; auto. repeat constructor.
        -- discriminate.
      * exists (new ++ [Called (toJSON row) (Ok y)]).
        rewrite Ht, <- app_assoc. repeat split; auto.
        -- apply Forall_app; split; auto. repeat constructor.
        -- intros e' He'. unfold engine_thrown. rewrite collect_app.
           apply in_or_app. left. apply He. exact He'.
    + exists [Called (toJSON row) (Thrown e0)]. repeat split; auto.
      * repeat constructor.
      * intros e' He'. inversion He'; subst. left. reflexivity.
Qed.

(** What the [try] block records: nothing that touches a connection, no
    commit; and an exception leaving it was thrown by one of its calls. *)
Lemma executeQuery_try_run (conn : AsyncDuckDBConnection) (sql : string)
      (h : Hook) :
  exists new,
    trace (snd (run o (executeQuery_try conn sql) h)) = new ++ trace h /\
    Forall conn_neutral new /\
    state (snd (run o (executeQuery_try conn sql) h)) = state h /\
    forall e, fst (run o (executeQuery_try conn sql) h) = Thrown e ->
              In e (engine_thrown new).
Proof.
  unfold executeQuery_try. cbn.
  set (h1 := log (Issued (query conn sql)) h).
  destruct (answer o h1 (query conn sql)) as [t|e0]; cbn.
  - set (h2 := log (Settled (query conn sql) (Ok t)) h1).
    destruct (answer o h2 (toArray t)) as [rows|e1]; cbn.
    + destruct (mapP_toJSON_run rows (log (Called (toArray t) (Ok rows)) h2))
        as [new [Ht [Hn [Hs He]]]].
      exists (new ++ [Called (toArray t) (Ok rows);
                      Settled (query conn sql) (Ok t);
                      Issued (query conn sql)]).
      rewrite Ht, <- app_assoc. repeat split; auto.
      * apply Forall_app; split; auto. repeat constructor.
      * intros e' He'. unfold engine_thrown. rewrite collect_app.
        apply in_or_app. left. apply He. exact He'.
    + exists [Called (toArray t) (Thrown e1);
              Settled (query conn sql) (Ok t); Issued (query conn sql)].
      repeat split; auto.
      * repeat constructor.
      * intros e' He'. inversion He'; subst. left. reflexivity.
  - exists [Settled (query conn sql) (Thrown e0); Issued (query conn sql)].
    repeat split; auto.
    + repeat constructor.
    + intros e' He'. inversion He'; subst. left. reflexivity.
Qed.

(** The shape of every run of [executeQuery] on an initialized handle:
    either [connect()] rejects, or a connection is acquired, the [try]
    block runs, and [close()] is called and settles. *)
Lemma executeQuery_run (st : DuckDBState) (d : AsyncDuckDB) (sql : string)
      (h : Hook) :
  db st = Some d ->
  (exists e,
      run o (executeQuery st sql) h =
      (Thrown e,
       log (Settled (connect d) (Thrown e)) (log (Issued (connect d)) h)))
  \/
  (exists c body outb outc,
      trace (snd (run o (executeQuery st sql) h)) =
      [Settled (close c) outc; Issued (close c)] ++ body ++
      [Settled (connect d) (Ok c); Issued (connect d)] ++ trace h /\
      state (snd (run o (executeQuery st sql) h)) = state h /\
      Forall conn_neutral body /\
      fst (run o (executeQuery st sql) h) =
      match outc with Ok _ => outb | Thrown e => Thrown e end /\
      forall e, outb = Thrown e -> In e (engine_thrown body)).
Proof.
  intros Hd. unfold executeQuery. rewrite Hd. cbn -[executeQuery_try].
  set (h1 := log (Issued (connect d)) h).
  destruct (answer o h1 (connect d)) as [c|e0]; cbn -[executeQuery_try].
  - right. rewrite run_try_finally.
    set (h2 := log (Settled (connect d) (Ok c)) h1).
    destruct (executeQuery_try_run c sql h2) as [body [Ht [Hn [Hs He]]]].
    destruct (run o (executeQuery_try c sql) h2) as [outb h3] eqn:Hr.
    cbn in Ht, Hs, He |- *.
    set (h4 := log (Issued (close c)) h3).
    exists c, body, outb, (answer o h4 (close c)).
    destruct (answer o h4 (close c)) as [u|ec]; cbn; rewrite Ht;
      repeat split; auto.
  - left. exists e0. reflexivity.
Qed.

(** [executeQuery] never touches the state cell or the liveness flag. *)
Lemma executeQuery_frame (st : DuckDBState) (sql : string) (h : Hook) :
  state (snd (run o (executeQuery st sql) h)) = state h /\
  isMounted (snd (run o (executeQuery st sql) h)) = isMounted h.
Proof.
  split; [| apply run_isMounted].
  destruct (db st) as [d|] eqn:Hd.
  - destruct (executeQuery_run st sql h Hd) as [[e Hr] | (c & body & outb & outc & _ & Hs & _)].
    + rewrite Hr. reflexivity.
    + exact Hs.
  - unfold executeQuery. rewrite Hd. reflexivity.
Qed.

End ExecuteQuery.


(** C2. Called on a render whose [state.db] is null, [executeQuery] is the
    bare [throw new Error(...)]: it rejects with the message
    "Database not initialized" without reaching any suspension point and
    without recording a single call.  On a render with a handle, by
    contrast, whatever a call rejects with was thrown by one of the engine
    calls that this call recorded. *)
Theorem executeQuery_not_initialized
        (o : Oracle) (st : DuckDBState) (sql : string) (h : Hook) :
  db st = None ->
  executeQuery st sql = Throw (JsError "Database not initialized") /\
  finished (executeQuery st sql) = true /\
  run o (executeQuery st sql) h
  = (Thrown (JsError "Database not initialized"), h) /\
  forall (st' : DuckDBState) (d : AsyncDuckDB) (e : JsValue),
    db st' = Some d ->
    fst (run o (executeQuery st' sql) h) = Thrown e ->
    exists new,
      trace (snd (run o (executeQuery st' sql) h)) = new ++ trace h /\
      In e (engine_thrown new).
Proof.
  intros Hd. unfold executeQuery at 1 2 3. rewrite Hd.
  repeat split.
  intros st' d e Hd' He.
  destruct (executeQuery_run o st' sql h Hd')
    as [[e0 Hr] | (c & body & outb & outc & Ht & _ & _ & Ho & Hb)].
  - rewrite Hr in *. cbn in He. inversion He; subst.
    exists [Settled (connect d) (Thrown e); Issued (connect d)].
    split; [reflexivity|]. left. reflexivity.
  - exists ([Settled (close c) outc; Issued (close c)] ++ body ++
            [Settled (connect d) (Ok c); Issued (connect d)]).
    rewrite Ht. repeat rewrite <- app_assoc. split; [reflexivity|].
    rewrite He in Ho. unfold engine_thrown in *.
    destruct outc as [u|ec].
    + cbn. rewrite collect_app. apply in_or_app. left. apply Hb. auto.
    + inversion Ho; subst. cbn. left. reflexivity.
Qed.


(** ** The initializer and the lifecycle state *)

Lemma exec_cons (o : Oracle) (ev : Event) (evs : list Event) (sys : Sys) :
  exec o (ev :: evs) sys = exec o evs (step o ev sys).
Proof. reflexivity. Qed.

(** An invariant of every step from the mounted hook holds along every
    execution. *)
Lemma exec_invariant (o : Oracle) (I : Sys -> Prop) (sys : Sys) :
  I sys -> (forall s ev, I s -> I (step o ev s)) ->
  forall evs, I (exec o evs sys).
Proof.
  intros H0 Hstep evs. revert sys H0.
  induction evs as [|ev evs IH]; intros sys H0; simpl; auto.
Qed.

Lemma count_app (f : Entry -> bool) (l1 l2 : list Entry) :
  count f (l1 ++ l2) = count f l1 + count f l2.
Proof. unfold count. rewrite filter_app, length_app. reflexivity. Qed.

Lemma count_none (f : Entry -> bool) (l : list Entry) :
  Forall (fun e => f e = false) l -> count f l = 0.
Proof.
  unfold count. induction 1 as [|e l He _ IH]; simpl; auto. rewrite He. exact IH.
Qed.

(** One call of [initDuckDB]: either it returns, and the proof goes on
    with the rest of the [try] block, or it throws, and [caught] settles the
    [catch] block. *)
Ltac outcome_cases caught :=
  intros [?|?]; cbn -[initDuckDB_catch]; [|apply caught].

Lemma Guarded_catch (m : bool) (e : JsValue) : Guarded m (initDuckDB_catch e).
Proof.
  cbn -[toError]. split; [|exact I].
  destruct (toError e) as [err|t]; cbn; [|exact I].
  repeat split; auto. right. eexists. reflexivity.
Qed.

Lemma Guarded_initDuckDB (url : string) : Guarded false (initDuckDB url).
Proof.
  unfold initDuckDB, initDuckDB_try. cbn -[initDuckDB_catch].
  do 8 outcome_cases Guarded_catch.
  repeat split; auto. left. eexists. reflexivity.
Qed.

Section Lifecycle.
Variable o : Oracle.

(** One synchronous stretch of a guarded program: either the state cell
    and the commits recorded are as before, or the hook was mounted, one
    settled state was committed and the program has returned. *)
Lemma run_sync_Guarded (p : Prog unit) (m : bool) (h : Hook) :
  Guarded m p -> (m = true -> isMounted h = true) ->
  Guarded false (fst (run_sync o p h)) /\
  ((state (snd (run_sync o p h)) = state h /\
    count is_commit (trace (snd (run_sync o p h)))
    = count is_commit (trace h))
   \/
   (isMounted h = true /\
    settled_state (state (snd (run_sync o p h))) /\
    fst (run_sync o p h) = Ret tt /\
    count is_commit (trace (snd (run_sync o p h)))
    = S (count is_commit (trace h)))).
Proof.
  revert m h.
  induction p as [r|e|X op k IH|X op k IH|k IH|s k IH|msg e k IH];
    intros m h HG Hm; cbn in *.
  - auto.
  - auto.
  - destruct (IH (answer o h op) m (log (Called op (answer o h op)) h)
                (HG _) Hm) as [H1 H2].
    split; auto.
  - split; auto.
  - destruct HG as [Ht Hf].
    apply (IH (isMounted h) (isMounted h) h); auto.
    destruct (isMounted h); assumption.
  - destruct HG as [Hmt [Hs Hk]]. subst k. cbn. split; auto.
  - apply (IH m (log (Logged msg e) h) HG Hm).
Qed.

Lemma settle_Guarded (p : Prog unit) (h : Hook) :
  Guarded false p ->
  Guarded false (fst (settle o p h)) /\
  ((state (snd (settle o p h)) = state h /\
    count is_commit (trace (snd (settle o p h)))
    = count is_commit (trace h))
   \/
   (isMounted h = true /\
    settled_state (state (snd (settle o p h))) /\
    fst (settle o p h) = Ret tt /\
    count is_commit (trace (snd (settle o p h)))
    = S (count is_commit (trace h)))).
Proof.
  destruct p as [r|e|X op k|X op k|k|s k|msg e k]; intros HG;
    try (split; [exact HG | left; split; reflexivity]).
  cbn [settle].
  assert (Hm : false = true ->
               isMounted (log (Settled op (answer o h op)) h) = true)
    by discriminate.
  exact (@run_sync_Guarded (k (answer o h op)) false _ (HG _) Hm).
Qed.

Lemma executeQuery_Emits (st : DuckDBState) (sql : string) :
  Emits query_only (executeQuery st sql).
Proof.
  unfold executeQuery. destruct (db st) as [d|]; [|exact I].
  cbn [bind Monad_Prog]. apply Emits_bindP.
  - apply Emits_await; [reflexivity | intros; reflexivity].
  - intros conn. apply Emits_try_finally.
    + unfold executeQuery_try. cbn [bind Monad_Prog]. apply Emits_bindP.
      * apply Emits_await; [reflexivity | intros; reflexivity].
      * intros result. apply Emits_bindP.
        -- apply Emits_call. intros; reflexivity.
        -- intros rows. apply Emits_mapP. intros row.
           apply Emits_call. intros; reflexivity.
    + apply Emits_await; [reflexivity | intros; reflexivity].
Qed.

Lemma Forall_set_nth {A : Type} (P : A -> Prop) (i : nat) (x : A) (l : list A) :
  Forall P l -> P x -> Forall P (set_nth i x l).
Proof.
  intros Hl Hx. revert i.
  induction Hl as [|y l Hy Hl IH]; intros i; destruct i; cbn;
    constructor; auto.
Qed.

(** What the events of queries do to the hook as a whole: nothing to the
    initializer, the state cell or the liveness flag; the trace grows by
    calls of queries. *)
Lemma step_query (sys : Sys) (ev : Event) :
  CallsInv sys -> is_query_event ev = true ->
  CallsInv (step o ev sys) /\
  init (step o ev sys) = init sys /\
  state (hook (step o ev sys)) = state (hook sys) /\
  isMounted (hook (step o ev sys)) = isMounted (hook sys) /\
  exists new,
    trace (hook (step o ev sys)) = new ++ trace (hook sys) /\
    Forall query_only new.
Proof.
  intros HQ Hev. destruct ev as [| |c sql|i]; try discriminate Hev.
  - cbn [step].
    destruct (@run_sync_frame o _ (executeQuery (closure_state c (hook sys)) sql)
                (hook sys) (executeQuery_Emits _ _)) as (H1 & H2 & new & Ht & HF).
    pose proof (run_sync_isMounted o
                  (executeQuery (closure_state c (hook sys)) sql) (hook sys))
      as Hm.
    destruct (run_sync o (executeQuery (closure_state c (hook sys)) sql)
                (hook sys)) as [q h].
    cbn [fst snd hook init calls] in *. repeat split; auto.
    + unfold CallsInv. cbn [calls]. apply Forall_app. split; auto.
    + exists new. auto.
  - cbn [step]. destruct (nth_error (calls sys) i) as [q|] eqn:Hn.
    + assert (HE : Emits query_only q).
      { eapply Forall_forall; [exact HQ | eapply nth_error_In; eauto]. }
      destruct (@settle_frame o _ q (hook sys) HE) as (H1 & H2 & new & Ht & HF).
      pose proof (settle_isMounted o q (hook sys)) as Hm.
      destruct (settle o q (hook sys)) as [q' h].
      cbn [fst snd hook init calls] in *. repeat split; auto.
      * unfold CallsInv. cbn [calls]. apply Forall_set_nth; auto.
      * exists new. auto.
    + repeat split; auto. exists []. auto.
Qed.

Lemma step_CallsInv (sys : Sys) (ev : Event) :
  CallsInv sys -> CallsInv (step o ev sys).
Proof.
  intros HQ. destruct (is_query_event ev) eqn:Hev.
  - apply step_query; auto.
  - destruct ev as [| |c sql|i]; try discriminate Hev; cbn [step].
    + destruct (settle o (init sys) (hook sys)). exact HQ.
    + exact HQ.
Qed.

Lemma mount_CallsInv (env_url : option string) (history : list Entry) :
  CallsInv (mount o env_url history).
Proof.
  unfold mount, CallsInv.
  destruct (run_sync o (initDuckDB (PARQUET_URL env_url)) _). constructor.
Qed.

Lemma exec_CallsInv (evs : list Event) (sys : Sys) :
  CallsInv sys -> CallsInv (exec o evs sys).
Proof.
  intros H. apply exec_invariant; auto. intros; apply step_CallsInv; auto.
Qed.

(** An invariant of every step of a hook whose calls are well-behaved holds
    along every execution from mounting. *)
Lemma exec_invariant_calls (I : Sys -> Prop) (env_url : option string)
      (history : list Entry) :
  I (mount o env_url history) ->
  (forall s ev, CallsInv s -> I s -> I (step o ev s)) ->
  forall evs, I (exec o evs (mount o env_url history)).
Proof.
  intros H0 Hstep evs.
  apply (@exec_invariant o (fun s => CallsInv s /\ I s)).
  - split; [apply mount_CallsInv | exact H0].
  - intros s ev [HQ HI]. split; [apply step_CallsInv | apply Hstep]; auto.
Qed.
End Lifecycle.

(** C4. No call to [executeQuery], returning or throwing, changes the
    lifecycle state (handle, loading flag, error field) or the liveness
    flag.  The same holds of calls running concurrently in the mounted hook:
    along every execution, starting a call and settling a promise of a call
    leave the state, the flag and the initializer as they were.  A handle
    that was there before a call is there after it, and the next call on it
    passes the guard and asks that handle for a connection. *)
Theorem executeQuery_preserves_lifecycle
        (o : Oracle) (st : DuckDBState) (sql : string) (h : Hook) :
  state (snd (run o (executeQuery st sql) h)) = state h /\
  isMounted (snd (run o (executeQuery st sql) h)) = isMounted h /\
  (forall (env_url : option string) (history : list Entry)
          (evs : list Event) (ev : Event),
      is_query_event ev = true ->
      let sys := exec o evs (mount o env_url history) in
      state (hook (step o ev sys)) = state (hook sys) /\
      isMounted (hook (step o ev sys)) = isMounted (hook sys) /\
      init (step o ev sys) = init sys) /\
  (forall (d : AsyncDuckDB) (sql' : string),
      db (state h) = Some d ->
      exists k,
        executeQuery (state (snd (run o (executeQuery st sql) h))) sql'
        = Await (connect d) k).
Proof.
  destruct (executeQuery_frame o st sql h) as [Hs Hm].
  repeat split; auto.
  - apply step_query; auto. apply exec_CallsInv, mount_CallsInv.
  - apply step_query; auto. apply exec_CallsInv, mount_CallsInv.
  - apply step_query; auto. apply exec_CallsInv, mount_CallsInv.
  - intros d sql' Hd. rewrite Hs. unfold executeQuery. rewrite Hd.
    cbn -[try_finally]. eexists. reflexivity.
Qed.


(** ** Connections of concurrent calls *)

(** What the [catch] block records: the log entry and, at most, the commit
    of an error state. *)
Lemma Emits_catch (P : Entry -> Prop) (e : JsValue) :
  P (Logged "Failed to initialize DuckDB:" e) ->
  (forall err, P (Committed (error_state err))) ->
  Emits P (initDuckDB_catch e).
Proof.
  intros HL HC. cbn -[toError]. split; [exact HL|].
  intros [|]; [|exact I].
  destruct (toError e) as [err|t]; cbn; auto.
Qed.

Lemma conn_free_catch (e : JsValue) : Emits conn_free (initDuckDB_catch e).
Proof. apply Emits_catch; repeat split. Qed.

Lemma Emits_conn_free_initDuckDB (url : string) :
  Emits conn_free (initDuckDB url).
Proof.
  unfold initDuckDB, initDuckDB_try. cbn -[initDuckDB_catch].
  intros [?|?]; (split; [repeat split|]); cbn -[initDuckDB_catch];
    [|apply conn_free_catch].
  split; [repeat split|].
  do 5 (intros [?|?]; (split; [repeat split|]); cbn -[initDuckDB_catch];
        [|apply conn_free_catch]).
  do 2 (split; [repeat split|];
        intros [?|?]; (split; [repeat split|]); cbn -[initDuckDB_catch];
        [|apply conn_free_catch]).
  intros [|]; cbn; repeat split.
Qed.

Lemma Emits_conn_free_try (conn : AsyncDuckDBConnection) (sql : string) :
  Emits conn_free (executeQuery_try conn sql).
Proof.
  unfold executeQuery_try. cbn [bind Monad_Prog]. apply Emits_bindP.
  - apply Emits_await; [repeat split | intros []; repeat split].
  - intros result. apply Emits_bindP.
    + apply Emits_call. intros []; repeat split.
    + intros rows. apply Emits_mapP. intros row.
      apply Emits_call. intros []; repeat split.
Qed.

(** A [try] block that touches no connection, with [close()] in its
    [finally], releases the connection on every path. *)
Lemma Releases_try_finally {R : Type} (c : AsyncDuckDBConnection)
      (body : Prog R) :
  Emits conn_free body -> Releases c (try_finally body (await (close c))).
Proof.
  induction body as [r|e|X op k IH|X op k IH|k IH|s k IH|msg e k IH];
    intros HE; cbn [try_finally]; cbn [Emits] in HE.
  - cbn. split; auto. intros [u|e]; reflexivity.
  - cbn. split; auto. intros [u|e']; reflexivity.
  - cbn. intros out. apply IH, HE.
  - destruct HE as [[_ [HI _]] HE].
    assert (HK : forall out, Releases c (try_finally (k out) (await (close c)))).
    { intros out. apply IH, HE. }
    assert (HS : forall out, acquired_of (Settled op out) = None).
    { intros out. apply (HE out). }
    clear IH HE. revert k HK HI HS.
    destruct op; intros k HK HI HS; cbn; auto.
    + specialize (HS (Ok 0)). discriminate HS.
    + discriminate HI.
  - cbn. intros b. apply IH, HE.
  - cbn. apply IH, HE.
  - cbn. apply IH, HE.
Qed.

Lemma executeQuery_InFlight (st : DuckDBState) (sql : string) :
  InFlight (executeQuery st sql).
Proof.
  unfold executeQuery. destruct (db st) as [d|]; [|exact I].
  cbn -[try_finally executeQuery_try]. split.
  - intros c. apply Releases_try_finally, Emits_conn_free_try.
  - intros e. reflexivity.
Qed.

Lemma conn_free_frame (new tr : list Entry) :
  Forall conn_free new ->
  acquired (new ++ tr) = acquired tr /\
  released (new ++ tr) = released tr /\
  closed (new ++ tr) = closed tr.
Proof.
  intros HF. unfold acquired, released, closed.
  repeat split; rewrite collect_app, collect_none; auto;
    (eapply Forall_impl; [|exact HF]); intros e He; apply He.
Qed.

Lemma count_stage_snoc {R : Type} (s : CallStage) (qs : list (Prog R))
      (q : Prog R) :
  count_stage s (qs ++ [q]) = count_stage s qs + at_stage s q.
Proof.
  unfold count_stage, at_stage. rewrite filter_app, length_app. cbn.
  destruct (CallStage_eqb (stage q) s); reflexivity.
Qed.

Lemma count_stage_set_nth {R : Type} (s : CallStage) (qs : list (Prog R))
      (i : nat) (q q' : Prog R) :
  nth_error qs i = Some q ->
  count_stage s (set_nth i q' qs) + at_stage s q
  = count_stage s qs + at_stage s q'.
Proof.
  unfold count_stage, at_stage. revert i.
  induction qs as [|y qs IH]; intros i Hn; destruct i; cbn in Hn;
    try discriminate.
  - inversion Hn; subst. cbn.
    destruct (CallStage_eqb (stage q) s), (CallStage_eqb (stage q') s);
      cbn; lia.
  - specialize (IH i Hn). cbn.
    destruct (CallStage_eqb (stage y) s); cbn; lia.
Qed.

Section Connections.
Variable o : Oracle.

(** A stretch of a call that holds [c]: it ends suspended, still holding
    [c] and having touched no connection, or with [close()] called on
    [c]. *)
Lemma run_sync_Releases {R : Type} (c : AsyncDuckDBConnection) (p : Prog R)
      (h : Hook) :
  Releases c p ->
  InFlight (fst (run_sync o p h)) /\
  acquired (trace (snd (run_sync o p h))) = acquired (trace h) /\
  closed (trace (snd (run_sync o p h))) = closed (trace h) /\
  ((stage (fst (run_sync o p h)) = Holding /\
    released (trace (snd (run_sync o p h))) = released (trace h))
   \/
   (stage (fst (run_sync o p h)) = Closing /\
    released (trace (snd (run_sync o p h))) = c :: released (trace h))).
Proof.
  revert h. induction p as [r|e|X op k IH|X op k IH|k IH|s k IH|msg e k IH];
    intros h HR; cbn [run_sync]; cbn [Releases] in HR; try contradiction.
  - apply (IH (answer o h op) (log (Called op (answer o h op)) h)), HR.
  - cbn [fst snd]. clear IH. revert k HR.
    destruct op; intros k HR; try contradiction;
      try (split; [cbn; exists c; exact HR|]; split; [reflexivity|];
           split; [reflexivity|]; left; split; reflexivity).
    destruct HR as [Hc HR]. subst conn.
    split; [exact HR|]. split; [reflexivity|]. split; [reflexivity|].
    right. split; reflexivity.
  - apply IH, HR.
  - apply (IH (commit s h)), HR.
  - apply (IH (log (Logged msg e) h)), HR.
Qed.

(** The settlement of the promise a call waits for, and what it does to
    the balance of connections. *)
Lemma settle_InFlight {R : Type} (q : Prog R) (h : Hook) :
  InFlight q ->
  InFlight (fst (settle o q h)) /\
  length (acquired (trace (snd (settle o q h))))
  + length (released (trace h)) + at_stage Holding q
  = length (acquired (trace h))
    + length (released (trace (snd (settle o q h))))
    + at_stage Holding (fst (settle o q h)) /\
  length (released (trace (snd (settle o q h))))
  + length (closed (trace h)) + at_stage Closing q
  = length (released (trace h))
    + length (closed (trace (snd (settle o q h))))
    + at_stage Closing (fst (settle o q h)).
Proof.
  destruct q as [r|e|X op k|X op k|k|s k|msg e k]; intros HI;
    try contradiction; try (cbn; repeat split; auto; lia).
  cbn [settle]. revert k HI.
  destruct op; intros k HI; cbn [InFlight] in HI;
    try (destruct HI as [c HR];
         match goal with
         | |- context [answer o h ?op'] => destruct (answer o h op')
         end;
         match goal with
         | |- context [run_sync o (k ?out) ?h1] =>
             destruct (@run_sync_Releases _ c (k out) h1 (HR out))
               as (H1 & H2 & H3 & [[H4 H5] | [H4 H5]])
         end;
         (split; [exact H1|]); unfold at_stage;
         rewrite H2, H3, H4, H5; cbn; lia).
  - (* connect settles *)
    destruct HI as [HOk HTh].
    destruct (answer o h (connect d)) as [c|e].
    + destruct (@run_sync_Releases _ c (k (Ok c))
                  (log (Settled (connect d) (Ok c)) h) (HOk c))
        as (H1 & H2 & H3 & [[H4 H5] | [H4 H5]]);
        (split; [exact H1|]); unfold at_stage;
        rewrite H2, H3, H4, H5; cbn; lia.
    + specialize (HTh e).
      destruct (k (Thrown e)); try discriminate HTh; cbn; repeat split; lia.
  - (* close settles *)
    destruct (answer o h (close conn)) as [u|e];
      match goal with
      | |- context [run_sync o (k ?out) _] =>
          specialize (HI out); destruct (k out); try discriminate HI
      end; cbn; repeat split; lia.
Qed.
Variable env_url : option string.

Lemma mount_ConnInv : ConnInv (mount o env_url []).
Proof.
  unfold mount, ConnInv.
  set (h0 := {| state := initial_state; isMounted := true; trace := [] |}).
  destruct (@Emits_run_sync o _ conn_free _ h0
              (Emits_conn_free_initDuckDB (PARQUET_URL env_url)))
    as (HE & new & Ht & HF).
  destruct (run_sync o (initDuckDB (PARQUET_URL env_url)) h0) as [p h].
  cbn [fst snd hook init calls] in *.
  destruct (@conn_free_frame new [] HF) as (Ha & Hr & Hc).
  subst h0. cbn [trace] in Ht. rewrite Ht, Ha, Hr, Hc. repeat split; auto.
Qed.

Lemma step_ConnInv (sys : Sys) (ev : Event) :
  ConnInv sys -> ConnInv (step o ev sys).
Proof.
  intros (HE & HF & H1 & H2). unfold ConnInv.
  destruct ev as [| |c sql|i]; cbn [step].
  - (* a promise of the initializer settles *)
    destruct (@Emits_settle o _ conn_free (init sys) (hook sys) HE)
      as (HE' & new & Ht & HN).
    destruct (settle o (init sys) (hook sys)) as [p h].
    cbn [fst snd hook init calls] in *.
    destruct (@conn_free_frame new (trace (hook sys)) HN) as (Ha & Hr & Hc).
    rewrite Ht, Ha, Hr, Hc. auto.
  - (* the cleanup runs *)
    cbn. auto.
  - (* a call is started *)
    pose proof (executeQuery_InFlight (closure_state c (hook sys)) sql) as HI.
    unfold executeQuery in *.
    destruct (db (closure_state c (hook sys))) as [d|];
      cbn -[try_finally executeQuery_try count_stage] in HI |- *;
      rewrite !count_stage_snoc; unfold at_stage; cbn [stage CallStage_eqb];
      (split; [exact HE|]); (split; [apply Forall_app; split; auto|]);
      split; lia.
  - (* a promise of a call settles *)
    destruct (nth_error (calls sys) i) as [q|] eqn:Hn; [|auto].
    assert (HI : InFlight q).
    { eapply (proj1 (Forall_forall _ _) HF), nth_error_In; eauto. }
    destruct (@settle_InFlight _ q (hook sys) HI) as (HI' & E1 & E2).
    destruct (settle o q (hook sys)) as [q' h].
    cbn [fst snd hook init calls] in *.
    pose proof (@count_stage_set_nth _ Holding (calls sys) i q q' Hn) as C1.
    pose proof (@count_stage_set_nth _ Closing (calls sys) i q q' Hn) as C2.
    split; [exact HE|]. split; [apply Forall_set_nth; auto|]. split; lia.
Qed.

Lemma exec_ConnInv (evs : list Event) :
  ConnInv (exec o evs (mount o env_url [])).
Proof.
  apply exec_invariant; [apply mount_ConnInv | intros; apply step_ConnInv; auto].
Qed.
End Connections.

Lemma count_stage_settled {R : Type} (s : CallStage) (qs : list (Prog R)) :
  s <> Done -> Forall (fun q => finished q = true) qs -> count_stage s qs = 0.
Proof.
  intros Hs HF. unfold count_stage.
  induction HF as [|q qs Hq _ IH]; cbn; auto.
  destruct q; try discriminate Hq; destruct s; cbn; auto; contradiction.
Qed.

(** C1. Whenever [executeQuery] acquires a connection, it calls [close()] on
    that connection and awaits it before the call settles, whether the
    [try] block returned or threw: over the entries one call records, the
    connections released are exactly the connections acquired (at most
    one), and every release has settled.  With any number of calls running
    concurrently in the mounted hook, at every point of every execution the
    connections acquired are those released plus one per call still inside
    its [try] block, and the releases asked for are those settled plus one
    per call waiting for its [close()]; once every call has settled,
    acquired, released and closed are equal in number. *)
Theorem executeQuery_releases_connection
        (o : Oracle) (st : DuckDBState) (sql : string) (h : Hook) :
  (exists new,
      trace (snd (run o (executeQuery st sql) h)) = new ++ trace h /\
      released new = acquired new /\
      closed new = acquired new /\
      length (acquired new) <= 1) /\
  (forall (env_url : option string) (evs : list Event),
      let sys := exec o evs (mount o env_url []) in
      let tr := trace (hook sys) in
      length (acquired tr)
      = length (released tr) + count_stage Holding (calls sys) /\
      length (released tr)
      = length (closed tr) + count_stage Closing (calls sys) /\
      (Forall (fun q => finished q = true) (calls sys) ->
       length (released tr) = length (acquired tr) /\
       length (closed tr) = length (acquired tr))).
Proof.
  split.
  - destruct (db st) as [d|] eqn:Hd.
    + destruct (executeQuery_run o st sql h Hd)
        as [[e Hr] | (c & body & outb & outc & Ht & _ & Hn & _)].
      * rewrite Hr.
        exists [Settled (connect d) (Thrown e); Issued (connect d)].
        cbn. repeat split; auto.
      * exists ([Settled (close c) outc; Issued (close c)] ++ body ++
                [Settled (connect d) (Ok c); Issued (connect d)]).
        rewrite Ht. repeat rewrite <- app_assoc.
        assert (Ha : acquired body = []).
        { apply collect_none. eapply Forall_impl; [|exact Hn].
          intros e He. apply He. }
        assert (Hr : released body = []).
        { apply collect_none. eapply Forall_impl; [|exact Hn].
          intros e He. apply He. }
        assert (Hc : closed body = []).
        { apply collect_none. eapply Forall_impl; [|exact Hn].
          intros e He. apply He. }
        unfold acquired, released, closed in *.
        repeat rewrite collect_app. rewrite Ha, Hr, Hc.
        destruct outc; cbn; repeat split; auto.
    + unfold executeQuery. rewrite Hd. exists []. cbn. repeat split; auto.
  - intros env_url evs sys tr.
    destruct (exec_ConnInv o env_url evs) as (_ & _ & H1 & H2).
    fold sys in H1, H2. fold tr in H1, H2.
    split; [exact H1|]. split; [exact H2|].
    intros HF.
    rewrite (count_stage_settled (s := Holding)) in H1; auto; [|discriminate].
    rewrite (count_stage_settled (s := Closing)) in H2; auto; [|discriminate].
    lia.
Qed.


Section LifecycleInvariant.
Variable o : Oracle.
Variable env_url : option string.
Variable history : list Entry.

Lemma count_query_frame (f : Entry -> bool) (new tr : list Entry) :
  (forall e, query_entry e = true -> f e = false) ->
  Forall query_only new ->
  count f (new ++ tr) = count f tr.
Proof.
  intros Hf Hn. rewrite count_app, count_none; auto.
  eapply Forall_impl; [|exact Hn]. auto.
Qed.

Lemma query_entry_not_commit (e : Entry) :
  query_entry e = true -> is_commit e = false.
Proof. destruct e; cbn; auto; discriminate. Qed.

Lemma mount_LifeInv : LifeInv history (mount o env_url history).
Proof.
  unfold mount, LifeInv.
  set (h0 := {| state := initial_state; isMounted := true; trace := history |}).
  assert (Hm : false = true -> isMounted h0 = true) by reflexivity.
  pose proof (@run_sync_Guarded o _ false h0
                (Guarded_initDuckDB (PARQUET_URL env_url)) Hm) as [HG H].
  destruct (run_sync o (initDuckDB (PARQUET_URL env_url)) h0) as [p h].
  cbn in *. split; auto.
  destruct H as [[Hs Hc] | (_ & Hs & Hp & Hc)]; auto.
Qed.

Lemma step_LifeInv (sys : Sys) (ev : Event) :
  CallsInv sys -> LifeInv history sys -> LifeInv history (step o ev sys).
Proof.
  intros HQ [HG H]. destruct (is_query_event ev) eqn:Hev.
  { destruct (@step_query o sys ev HQ Hev) as (_ & Hi & Hs & Hm & new & Ht & Hn).
    unfold LifeInv. rewrite Hi, Hs, Ht.
    rewrite (count_query_frame is_commit); auto using query_entry_not_commit. }
  destruct ev as [| |c sql|i]; try discriminate Hev.
  - unfold LifeInv. cbn [step].
    pose proof (@settle_Guarded o (init sys) (hook sys) HG) as [HG' H'].
    destruct (settle o (init sys) (hook sys)) as [p h] eqn:Hst.
    cbn [fst snd hook init] in *. split; auto.
    destruct H as [[Hs Hc] | (Hs & Hp & Hc)].
    + destruct H' as [[Hs' Hc'] | (_ & Hs' & Hp' & Hc')].
      * left. split; congruence.
      * right. repeat split; auto. congruence.
    + rewrite Hp in Hst. cbn in Hst. inversion Hst; subst. right. auto.
  - unfold LifeInv. cbn. split; auto.
Qed.

Lemma exec_LifeInv (evs : list Event) :
  LifeInv history (exec o evs (mount o env_url history)).
Proof.
  apply exec_invariant_calls;
    [apply mount_LifeInv | intros; apply step_LifeInv; auto].
Qed.

(** Once the liveness flag is down, no step changes the state cell or
    records a commit. *)
Lemma step_unmounted (sys : Sys) (ev : Event) :
  CallsInv sys ->
  Guarded false (init sys) -> isMounted (hook sys) = false ->
  Guarded false (init (step o ev sys)) /\
  isMounted (hook (step o ev sys)) = false /\
  state (hook (step o ev sys)) = state (hook sys) /\
  count is_commit (trace (hook (step o ev sys)))
  = count is_commit (trace (hook sys)).
Proof.
  intros HQ HG HM. destruct (is_query_event ev) eqn:Hev.
  { destruct (@step_query o sys ev HQ Hev) as (_ & Hi & Hs & Hm & new & Ht & Hn).
    rewrite Hi, Hs, Hm, Ht.
    rewrite (count_query_frame is_commit); auto using query_entry_not_commit. }
  destruct ev as [| |c sql|i]; try discriminate Hev.
  - cbn [step].
    pose proof (@settle_Guarded o (init sys) (hook sys) HG) as [HG' H'].
    pose proof (settle_isMounted o (init sys) (hook sys)) as Hm'.
    destruct (settle o (init sys) (hook sys)) as [p h] eqn:Hst.
    cbn [fst snd hook init] in *.
    destruct H' as [[Hs' Hc'] | (Hmt & _)]; [|congruence].
    repeat split; auto. congruence.
  - cbn. auto.
Qed.

Lemma exec_unmounted (evs : list Event) (sys : Sys) :
  CallsInv sys ->
  Guarded false (init sys) -> isMounted (hook sys) = false ->
  isMounted (hook (exec o evs sys)) = false /\
  state (hook (exec o evs sys)) = state (hook sys) /\
  count is_commit (trace (hook (exec o evs sys)))
  = count is_commit (trace (hook sys)).
Proof.
  revert sys. induction evs as [|ev evs IH]; intros sys HQ HG HM; [cbn; auto|].
  rewrite exec_cons.
  destruct (@step_unmounted sys ev HQ HG HM) as (HG' & HM' & Hs' & Hc').
  destruct (IH _ (@step_CallsInv o sys ev HQ) HG' HM') as (HM2 & Hs2 & Hc2).
  repeat split; congruence.
Qed.

(** A hook whose initializer has returned keeps its state through every
    later step. *)
Lemma exec_returned (evs : list Event) (sys : Sys) :
  CallsInv sys -> init sys = Ret tt ->
  init (exec o evs sys) = Ret tt /\
  state (hook (exec o evs sys)) = state (hook sys).
Proof.
  revert sys. induction evs as [|ev evs IH]; intros sys HQ Hp; [cbn; auto|].
  rewrite exec_cons.
  assert (H : init (step o ev sys) = Ret tt /\
              state (hook (step o ev sys)) = state (hook sys)).
  { destruct (is_query_event ev) eqn:Hev.
    - destruct (@step_query o sys ev HQ Hev) as (_ & Hi & Hs & _).
      split; congruence.
    - destruct ev as [| |c sql|i]; try discriminate Hev.
      + cbn [step]. rewrite Hp. cbn. auto.
      + cbn. auto. }
  destruct H as [Hp' Hs'].
  destruct (IH _ (@step_CallsInv o sys ev HQ) Hp') as [Hp2 Hs2].
  split; congruence.
Qed.

End LifecycleInvariant.

(** ** The published signals *)

(** C5. Along every execution of the mounted hook: as long as the
    initializer has not returned, the state is still the initial one and
    [isReady] is false; and once [isReady] is true it is true after any
    further events whatsoever (later settlements, queries, even the
    cleanup). *)
Theorem isReady_monotonic
        (o : Oracle) (env_url : option string) (history : list Entry)
        (evs evs' : list Event) :
  let sys := exec o evs (mount o env_url history) in
  (finished (init sys) = false ->
   state (hook sys) = initial_state /\
   UseDuckDB.isReady (useDuckDB (state (hook sys))) = false) /\
  (UseDuckDB.isReady (useDuckDB (state (hook sys))) = true ->
   state (hook (exec o evs' sys)) = state (hook sys) /\
   UseDuckDB.isReady (useDuckDB (state (hook (exec o evs' sys)))) = true).
Proof.
  intros sys.
  destruct (exec_LifeInv o env_url history evs) as [_ H]. fold sys in H.
  destruct H as [[Hs _] | (_ & Hp & _)].
  - rewrite Hs. cbn. split; [auto | discriminate].
  - split.
    + rewrite Hp. discriminate.
    + intros Hr.
      assert (HQ : CallsInv sys) by apply exec_CallsInv, mount_CallsInv.
      destruct (@exec_returned o evs' sys HQ Hp) as [_ Hs'].
      rewrite Hs'. auto.
Qed.

(** C9. Once the cleanup has run, nothing the initializer still does is
    committed: through every later sequence of events the state cell keeps
    the value it had, the trace gains no commit, and the flag stays
    down. *)
Theorem no_commit_after_unmount
        (o : Oracle) (env_url : option string) (history : list Entry)
        (evs evs' : list Event) :
  let sys := exec o evs (mount o env_url history) in
  isMounted (hook sys) = false ->
  state (hook (exec o evs' sys)) = state (hook sys) /\
  count is_commit (trace (hook (exec o evs' sys)))
  = count is_commit (trace (hook sys)) /\
  isMounted (hook (exec o evs' sys)) = false.
Proof.
  intros sys HM.
  destruct (exec_LifeInv o env_url history evs) as [HG _]. fold sys in HG.
  assert (HQ : CallsInv sys) by apply exec_CallsInv, mount_CallsInv.
  destruct (@exec_unmounted o evs' sys HQ HG HM) as (H1 & H2 & H3). auto.
Qed.

(** C10. Every state the hook ever holds is the initial (loading) one, a
    ready one or an error one; so a handle comes with [loading = false] and
    no error, [isReady] is the same test as [db !== null], and
    [executeQuery] refuses exactly when [isReady] is false. *)
Theorem lifecycle_tristate
        (o : Oracle) (env_url : option string) (history : list Entry)
        (evs : list Event) :
  let st := state (hook (exec o evs (mount o env_url history))) in
  (st = initial_state \/
   (exists d, st = ready_state d) \/
   (exists e, st = error_state e)) /\
  (forall d, db st = Some d -> loading st = false /\ error st = None) /\
  UseDuckDB.isReady (useDuckDB st) = negb (is_null (db st)) /\
  (forall sql,
      UseDuckDB.isReady (useDuckDB st) = false <->
      UseDuckDB.executeQuery (useDuckDB st) sql = Throw not_initialized).
Proof.
  intros st.
  assert (H : st = initial_state \/
              (exists d, st = ready_state d) \/ (exists e, st = error_state e)).
  { destruct (exec_LifeInv o env_url history evs) as [_ H].
    destruct H as [[Hs _] | ([[d Hs]|[e Hs]] & _)]; eauto. }
  split; [exact H|].
  destruct H as [Hs | [[d Hs] | [e Hs]]]; rewrite Hs; cbn;
    repeat split; try discriminate; auto.
Qed.

(** C6 (as the code has it). For every state, the [isReady] the hook
    returns is [(db !== null) && !loading], true exactly when there is a
    handle and [loading] is false; [loading] and [error] are the state's
    own fields.  Next to these three signals the returned object carries
    the raw handle [db] and the [executeQuery] closure of that state. *)
Theorem useDuckDB_signals (st : DuckDBState) :
  UseDuckDB.isReady (useDuckDB st)
  = negb (is_null (db st)) && negb (loading st) /\
  (UseDuckDB.isReady (useDuckDB st) = true <->
   (exists d, db st = Some d) /\ loading st = false) /\
  UseDuckDB.loading (useDuckDB st) = loading st /\
  UseDuckDB.error (useDuckDB st) = error st /\
  UseDuckDB.db (useDuckDB st) = db st /\
  UseDuckDB.executeQuery (useDuckDB st) = executeQuery st.
Proof.
  repeat split; auto.
  - destruct st as [[d|] [] e]; cbn in *; try discriminate; eauto.
  - destruct st as [[d|] [] e]; cbn in *; try discriminate; auto.
  - intros [[d Hd] Hl]. cbn. rewrite Hd, Hl. reflexivity.
Qed.

(** C6, as stated, fails: two states that agree on [loading], [error] and
    [isReady] are still told apart through the returned object, which
    exposes the handle itself. *)
Lemma useDuckDB_exposes_handle :
  UseDuckDB.loading (useDuckDB (ready_state 0))
  = UseDuckDB.loading (useDuckDB (ready_state 1)) /\
  UseDuckDB.error (useDuckDB (ready_state 0))
  = UseDuckDB.error (useDuckDB (ready_state 1)) /\
  UseDuckDB.isReady (useDuckDB (ready_state 0))
  = UseDuckDB.isReady (useDuckDB (ready_state 1)) /\
  UseDuckDB.db (useDuckDB (ready_state 0))
  <> UseDuckDB.db (useDuckDB (ready_state 1)).
Proof. repeat split; discriminate. Qed.

(** ** Failures of the initializer *)

Lemma Handled_initDuckDB (url : string) : Handled (initDuckDB url).
Proof.
  unfold initDuckDB, initDuckDB_try. cbn -[initDuckDB_catch].
  repeat (split; [reflexivity|]; split; [reflexivity|];
          intros ?; cbn -[initDuckDB_catch]).
  intros []; cbn; auto.
Qed.

Lemma query_entry_not_init_thrown (e : Entry) :
  query_entry e = true -> thrown_by (@is_init_op) e = None.
Proof.
  destruct e as [X op [x|v]|X op|X op [x|v]|msg v|s|]; cbn; auto;
    destruct op; cbn; auto; discriminate.
Qed.

Lemma collect_query_frame {A : Type} (f : Entry -> option A)
      (new tr : list Entry) :
  (forall e, query_entry e = true -> f e = None) ->
  Forall query_only new ->
  collect f (new ++ tr) = collect f tr.
Proof.
  intros Hf Hn. rewrite collect_app, collect_none; auto.
  eapply Forall_impl; [|exact Hn]. auto.
Qed.

Section Failure.
Variable o : Oracle.
Variable env_url : option string.
Variable history : list Entry.

Lemma run_sync_Quiet (p : Prog unit) (h : Hook) :
  Quiet p ->
  fst (run_sync o p h) = Ret tt /\
  init_thrown (trace (snd (run_sync o p h))) = init_thrown (trace h) /\
  (forall x, In x (trace h) -> In x (trace (snd (run_sync o p h)))).
Proof.
  revert h. induction p as [r|e|X op k IH|X op k IH|k IH|s k IH|msg e k IH];
    intros h HQ; cbn in *; try contradiction; auto.
  - destruct r. auto.
  - destruct (IH (commit s h) HQ) as (H1 & H2 & H3).
    repeat split; auto. intros x Hx. apply H3. right. exact Hx.
  - destruct (IH (log (Logged msg e) h) HQ) as (H1 & H2 & H3).
    repeat split; auto. intros x Hx. apply H3. right. exact Hx.
Qed.

(** The [catch] block: log, test the flag and, if it is still up, build
    the error and commit the error state, or throw what building it
    throws. *)
Lemma run_sync_catch (e : JsValue) (h : Hook) :
  run_sync o (initDuckDB_catch e) h =
  if isMounted h
  then match toError e with
       | Ok err =>
           (Ret tt,
            commit (error_state err) (log (Logged init_failure_message e) h))
       | Thrown t => (Throw t, log (Logged init_failure_message e) h)
       end
  else (Ret tt, log (Logged init_failure_message e) h).
Proof.
  cbn -[toError]. destruct (isMounted h); [|reflexivity].
  destruct (toError e); reflexivity.
Qed.

Lemma caught_step {X : Type} (op : ExtOp X) (e : JsValue) (h : Hook)
      (entry : Entry) :
  thrown_by (@is_init_op) entry = Some e ->
  failure_step h (run_sync o (initDuckDB_catch e) (log entry h)).
Proof.
  intros Hth. right. exists e. rewrite run_sync_catch.
  cbn [isMounted log].
  destruct (isMounted h); [destruct (toError e) as [err|t] eqn:He|];
    cbn -[toError]; unfold init_thrown; cbn -[toError]; rewrite Hth;
    (split; [reflexivity|]); (split; [auto|]).
  - left. split; [reflexivity|]. intros _. exists err. auto.
  - right. exists t. auto.
  - left. split; [reflexivity|]. discriminate.
Qed.

Lemma run_sync_Handled (p : Prog unit) (h : Hook) :
  Handled p -> failure_step h (run_sync o p h).
Proof.
  revert h. induction p as [r|e|X op k IH|X op k IH|k IH|s k IH|msg e k IH];
    intros h HH; cbn [run_sync].
  - left. cbn. auto.
  - contradiction.
  - destruct HH as (Hop & Hc & Hk).
    destruct (answer o h op) as [x|e].
    + destruct (IH (Ok x) (log (Called op (Ok x)) h) (Hk x))
        as [(H1 & H2 & H3) | (e & H1 & H2 & H3)].
      * left; repeat split; auto; intros y Hy; apply H3; right; exact Hy.
      * right. exists e. auto.
    + rewrite Hc. apply (caught_step op). cbn. rewrite Hop. reflexivity.
  - left. split; [reflexivity|]. split; [exact HH|].
    intros x Hx. right. exact Hx.
  - pose proof (@run_sync_Quiet (k (isMounted h)) h (HH _)) as (H1 & H2 & H3).
    left. rewrite H1. repeat split; auto.
  - pose proof (@run_sync_Quiet k (commit s h) HH) as (H1 & H2 & H3).
    left; rewrite H1; repeat split; auto;
      intros x Hx; apply H3; right; exact Hx.
  - destruct (IH (log (Logged msg e) h) HH)
      as [(H1 & H2 & H3) | (e' & H1 & H2 & H3)].
    + left; repeat split; auto; intros y Hy; apply H3; right; exact Hy.
    + right. exists e'. auto.
Qed.

Lemma settle_Handled (p : Prog unit) (h : Hook) :
  Handled p -> failure_step h (settle o p h).
Proof.
  destruct p as [r|e|X op k|X op k|k|s k|msg e k]; intros HH;
    try (left; split; [reflexivity|]; split; [exact HH|]; auto; fail).
  cbn [settle]. destruct HH as (Hop & Hc & Hk).
  destruct (answer o h op) as [x|e].
  - destruct (@run_sync_Handled (k (Ok x)) (log (Settled op (Ok x)) h) (Hk x))
      as [(H1 & H2 & H3) | (e & H1 & H2 & H3)].
    + left; repeat split; auto; intros y Hy; apply H3; right; exact Hy.
    + right. exists e. auto.
  - rewrite Hc. apply (caught_step op). cbn. rewrite Hop. reflexivity.
Qed.

Lemma mount_FailureInv : FailureInv history (mount o env_url history).
Proof.
  unfold mount, FailureInv.
  set (h0 := {| state := initial_state; isMounted := true; trace := history |}).
  pose proof (@run_sync_Handled _ h0 (Handled_initDuckDB (PARQUET_URL env_url)))
    as H.
  pose proof (run_sync_isMounted o (initDuckDB (PARQUET_URL env_url)) h0) as Hm.
  destruct (run_sync o (initDuckDB (PARQUET_URL env_url)) h0) as [p h].
  destruct H as [(H1 & H2 & H3) | (e & H1 & H2 & H3)]; cbn in *.
  - left. auto.
  - right. exists e. repeat split; auto.
    destruct H3 as [[Hp Hs] | Ht]; [left | right; exact Ht].
    split; [exact Hp|]. intros _. apply Hs. reflexivity.
Qed.

Lemma step_FailureInv (sys : Sys) (ev : Event) :
  CallsInv sys -> FailureInv history sys -> FailureInv history (step o ev sys).
Proof.
  intros HQ H. destruct (is_query_event ev) eqn:Hev.
  { destruct (@step_query o sys ev HQ Hev) as (_ & Hi & Hs & Hm & new & Htr & Hn).
    unfold FailureInv. rewrite Hi, Hs, Hm, Htr. unfold init_thrown in *.
    rewrite (collect_query_frame (thrown_by (@is_init_op)));
      auto using query_entry_not_init_thrown.
    destruct H as [[Ht HH] | (e & Ht & Hl & Hst)].
    - left. auto.
    - right. exists e. repeat split; auto. apply in_or_app. right. exact Hl. }
  destruct ev as [| |c sql|i]; try discriminate Hev.
  - unfold FailureInv. cbn [step].
    destruct H as [[Ht HH] | (e & Ht & Hl & Hs)].
    + pose proof (@settle_Handled (init sys) (hook sys) HH) as H'.
      pose proof (settle_isMounted o (init sys) (hook sys)) as Hm'.
      destruct (settle o (init sys) (hook sys)) as [p h].
      destruct H' as [(H1 & H2 & H3) | (e & H1 & H2 & H3)];
        cbn [fst snd hook init] in *.
      * left. split; [congruence | auto].
      * right. exists e. split; [congruence|]. split; [exact H2|].
        destruct H3 as [[Hp Hs] | Ht']; [left | right; exact Ht'].
        split; [exact Hp|]. intros Hm. apply Hs. congruence.
    + right. exists e.
      destruct Hs as [[Hp Hs] | (t & Hp & Ht')]; rewrite Hp; cbn;
        repeat split; auto.
      right. exists t. auto.
  - destruct H as [[Ht HH] | (e & Ht & Hl & Hs)].
    + left. auto.
    + right. exists e. cbn. repeat split; auto.
      destruct Hs as [[Hp Hs] | Ht']; [left | right; exact Ht'].
      split; [exact Hp | discriminate].
Qed.

Lemma exec_FailureInv (evs : list Event) :
  FailureInv history (exec o evs (mount o env_url history)).
Proof.
  apply exec_invariant_calls;
    [apply mount_FailureInv | intros; apply step_FailureInv; auto].
Qed.
End Failure.

(** C3 (as the code has it). Along every execution, either no call of the
    initialization sequence has thrown, and then the initializer has not
    ended in an exception; or exactly one has, and then the initializer has
    ended and the failure was logged.  When the thrown value is an [Error]
    or has a string form, the initializer has returned and, provided the
    cleanup has not run, the lifecycle state is the error state
    ([loading = false], [db = null]) holding the thrown [Error] itself, or
    a new [Error] whose message is the string form of a thrown non-[Error]
    value. *)
Theorem initDuckDB_failure_is_caught
        (o : Oracle) (env_url : option string) (history : list Entry)
        (evs : list Event) :
  let sys := exec o evs (mount o env_url history) in
  ((init_thrown (trace (hook sys)) = init_thrown history /\
    forall t, init sys <> Throw t)
   \/
   exists e,
     init_thrown (trace (hook sys)) = e :: init_thrown history /\
     finished (init sys) = true /\
     In (Logged "Failed to initialize DuckDB:" e) (trace (hook sys)) /\
     forall err,
       toError e = Ok err ->
       init sys = Ret tt /\
       (isMounted (hook sys) = true ->
        state (hook sys)
        = {| db := None; loading := false; error := Some err |})) /\
  (forall m, toError (JsError m) = Ok (JsError m)) /\
  (forall r, toError (JsOther r) = Ok (JsError r)).
Proof.
  intros sys. split; [|split; reflexivity].
  pose proof (exec_FailureInv o env_url history evs) as H. fold sys in H.
  destruct H as [[Ht HH] | (e & Ht & Hl & Hs)].
  - left. split; [exact Ht|]. intros t Hp. rewrite Hp in HH. exact HH.
  - right. exists e. split; [exact Ht|].
    split; [destruct Hs as [[Hp _] | (t & Hp & _)]; rewrite Hp; reflexivity|].
    split; [exact Hl|].
    intros err He.
    destruct Hs as [[Hp Hs] | (t & _ & Ht')];
      [|rewrite He in Ht'; discriminate Ht'].
    split; [exact Hp|]. intros Hm.
    destruct (Hs Hm) as (err' & He' & Hst).
    rewrite He in He'. injection He' as <-. exact Hst.
Qed.

(** C3, as stated, fails: when the cleanup runs while [selectBundle] is
    pending and [selectBundle] then rejects, the exception is caught and
    logged but the state is left loading. *)
Lemma initDuckDB_failure_after_unmount_not_stored :
  let sys := exec no_bundle [Unmount; Settle] (mount no_bundle None []) in
  init_thrown (trace (hook sys)) = [JsError "No supported bundle"] /\
  init sys = Ret tt /\
  loading (state (hook sys)) = true /\
  error (state (hook sys)) = None.
Proof. repeat split. Qed.

(** ** Resource registration *)

Lemma RegC_catch (d : AsyncDuckDB) (ok : bool) (e : JsValue) :
  RegC d ok (initDuckDB_catch e).
Proof.
  intros [|]; cbn -[toError]; auto. destruct (toError e); cbn; auto.
Qed.

Lemma RegA_catch (url : string) (e : JsValue) : RegA url (initDuckDB_catch e).
Proof.
  intros [|]; cbn -[toError]; auto. destruct (toError e); cbn; auto.
Qed.

Lemma RegA_initDuckDB (url : string) : RegA url (initDuckDB url).
Proof.
  unfold initDuckDB, initDuckDB_try. cbn -[initDuckDB_catch].
  outcome_cases RegA_catch.
  split; [reflexivity|].
  do 5 outcome_cases RegA_catch.
  split; [intros e; apply RegA_catch|].
  intros u. cbn -[initDuckDB_catch]. split; [reflexivity|].
  outcome_cases RegC_catch.
  intros [|]; cbn; auto.
Qed.

Lemma reg_view_query_entry (e : Entry) :
  query_entry e = true ->
  instantiated_of e = None /\ registering_of e = None /\ registered_of e = None.
Proof.
  destruct e as [X op out|X op|X op out|msg v|s|]; cbn; auto;
    destruct op; cbn; auto; discriminate.
Qed.

Section Registration.
Variable o : Oracle.
Variable url : string.
Variable env_url : option string.
Hypothesis url_is_configured : url = PARQUET_URL env_url.

Lemma run_sync_RegC (d : AsyncDuckDB) (ok : bool) (p : Prog unit) (h : Hook) :
  RegC d ok p ->
  finished (fst (run_sync o p h)) = true /\
  reg_view (trace (snd (run_sync o p h))) = reg_view (trace h) /\
  (handle_ok d ok h -> handle_ok d ok (snd (run_sync o p h))).
Proof.
  revert h. induction p as [r|e|X op k IH|X op k IH|k IH|s k IH|msg e k IH];
    intros h HR; cbn [run_sync]; try contradiction.
  - cbn. auto.
  - cbn. auto.
  - apply IH, HR.
  - destruct HR as [Hs HR].
    destruct (IH (commit s h) HR) as (H1 & H2 & H3). repeat split; auto.
  - destruct (IH (log (Logged msg e) h) HR) as (H1 & H2 & H3).
    repeat split; auto.
Qed.

Lemma run_sync_RegA (p : Prog unit) (h : Hook) :
  RegA url p ->
  RegA url (fst (run_sync o p h)) /\
  reg_view (trace (snd (run_sync o p h))) = reg_view (trace h) /\
  (db (state h) = None -> db (state (snd (run_sync o p h))) = None).
Proof.
  revert h. induction p as [r|e|X op k IH|X op k IH|k IH|s k IH|msg e k IH];
    intros h HR; cbn [run_sync]; try contradiction.
  - cbn. auto.
  - cbn. auto.
  - destruct (IH (answer o h op) (log (Called op (answer o h op)) h) (HR _))
      as (H1 & H2 & H3). repeat split; auto.
  - cbn [fst snd]. split; [exact HR|]. split; [|auto].
    clear IH. revert k HR. destruct op; intros k HR; cbn in HR |- *;
      try reflexivity; destruct HR as [HR _]; discriminate.
  - apply IH, HR.
  - destruct HR as [Hs HR].
    destruct (IH (commit s h) HR) as (H1 & H2 & H3). repeat split; auto.
  - destruct (IH (log (Logged msg e) h) HR) as (H1 & H2 & H3).
    repeat split; auto.
Qed.

Lemma reg_view_eq (tr tr' : list Entry) :
  reg_view tr' = reg_view tr ->
  instantiated tr' = instantiated tr /\ registering tr' = registering tr /\
  registered tr' = registered tr /\ connecting tr' = connecting tr.
Proof. unfold reg_view. intros H. injection H as H1 H2 H3 H4. auto. Qed.

(** A settlement before the engine is instantiated: either nothing that
    matters to registration happens, or [db.instantiate] is fulfilled and
    the registration of that very handle is issued at once. *)
Lemma settle_RegA (p : Prog unit) (h : Hook) :
  RegA url p ->
  (RegA url (fst (settle o p h)) /\
   reg_view (trace (snd (settle o p h))) = reg_view (trace h) /\
   (db (state h) = None -> db (state (snd (settle o p h))) = None))
  \/
  (exists d,
      RegB url d (fst (settle o p h)) /\
      instantiated (trace (snd (settle o p h))) = d :: instantiated (trace h) /\
      registering (trace (snd (settle o p h)))
      = the_registration url d :: registering (trace h) /\
      registered (trace (snd (settle o p h))) = registered (trace h) /\
      connecting (trace (snd (settle o p h))) = connecting (trace h) /\
      state (snd (settle o p h)) = state h).
Proof.
  destruct p as [r|e|X op k|X op k|k|s k|msg e k]; intros HR;
    try (left; cbn [settle fst snd]; auto; fail).
  cbn [settle]. revert k HR.
  destruct op as [|bs|b|wu| |lg wk|d mm pw|d nm u pr fl|d|cn sq|rs|rw|cn|wk];
    intros k HR; cbn in HR;
    try (destruct HR as [HN HR]; try discriminate HN; left;
         match goal with
         | |- context [run_sync o (k ?out) ?h1] =>
             destruct (@run_sync_RegA (k out) h1 (HR out)) as (H1 & H2 & H3)
         end; repeat split; auto; fail).
  destruct HR as [HT HO].
  destruct (answer o h (instantiate d mm pw)) as [u|e].
  - right. exists d. specialize (HO u).
    destruct (k (Ok u)) as [r|e|Y op' k'|Y op' k'|k'|s k'|msg e k'];
      cbn in HO; try contradiction.
    revert k' HO.
    destruct op' as [|bs|b|wu| |lg wk|d' mm' pw'|d' nm ur pr fl|d'|cn sq|rs|rw|cn|wk];
      intros k' HO; try contradiction.
    destruct HO as [Heq HC]. cbn [run_sync fst snd].
    split; [cbn; auto|].
    unfold instantiated, registering, registered, connecting.
    cbn. rewrite Heq. auto.
  - left.
    destruct (@run_sync_RegA (k (Thrown e))
                (log (Settled (instantiate d mm pw)
                        (Thrown e)) h) (HT e)) as (H1 & H2 & H3).
    repeat split; auto.
Qed.

(** The settlement of the registration. *)
Lemma settle_RegB (d : AsyncDuckDB) (p : Prog unit) (h : Hook) :
  RegB url d p ->
  finished (fst (settle o p h)) = true /\
  instantiated (trace (snd (settle o p h))) = instantiated (trace h) /\
  registering (trace (snd (settle o p h))) = registering (trace h) /\
  connecting (trace (snd (settle o p h))) = connecting (trace h) /\
  exists ok,
    registered (trace (snd (settle o p h)))
    = (if ok : bool then [the_registration url d] else [])
        ++ registered (trace h) /\
    (handle_ok d ok h -> handle_ok d ok (snd (settle o p h))).
Proof.
  destruct p as [r|e|X op k|X op k|k|s k|msg e k]; intros HR;
    cbn in HR; try contradiction.
  revert k HR.
  destruct op as [|bs|b|wu| |lg wk|d' mm pw|d' nm u pr fl|d'|cn sq|rs|rw|cn|wk];
    intros k HR; try contradiction.
  destruct HR as [Heq HC]. cbn [settle].
  set (out := answer o h (registerFileURL d' nm u pr fl)).
  destruct (@run_sync_RegC d (is_ok out) (k out)
              (log (Settled (registerFileURL d' nm u pr fl) out) h)
              (HC out)) as (H1 & H2 & H3).
  apply reg_view_eq in H2. destruct H2 as (Hi & Hg & Hd & Hc).
  repeat split; auto.
  exists (is_ok out). split; auto.
  rewrite Hd. unfold registered. cbn. rewrite Heq.
  destruct (is_ok out); reflexivity.
Qed.

Lemma mount_RegInv : RegInv url (mount o env_url []).
Proof.
  unfold mount, RegInv. rewrite <- url_is_configured.
  set (h0 := {| state := initial_state; isMounted := true; trace := [] |}).
  destruct (@run_sync_RegA (initDuckDB url) h0 (RegA_initDuckDB url))
    as (H1 & H2 & H3).
  destruct (run_sync o (initDuckDB url) h0) as [p h].
  cbn [fst snd hook init calls] in *.
  apply reg_view_eq in H2. destruct H2 as (Hi & Hg & Hd & Hc).
  split; [left; exact Hc|]. split; [constructor|]. left. repeat split; auto.
Qed.

(** Without a published handle, the events of queries record nothing: a
    call started then is refused at once, and every earlier call has
    settled. *)
Lemma step_query_not_ready (sys : Sys) (ev : Event) :
  is_query_event ev = true ->
  db (state (hook sys)) = None ->
  Forall (fun q => finished q = true) (calls sys) ->
  hook (step o ev sys) = hook sys /\
  Forall (fun q => finished q = true) (calls (step o ev sys)).
Proof.
  intros Hev Hdb HF. destruct ev as [| |c sql|i]; try discriminate Hev.
  - cbn [step].
    assert (Hcl : db (closure_state c (hook sys)) = None)
      by (destruct c; cbn; auto).
    unfold executeQuery. rewrite Hcl. cbn. split; auto.
    apply Forall_app. split; auto.
  - cbn [step]. destruct (nth_error (calls sys) i) as [q|] eqn:Hn; auto.
    assert (Hq : finished q = true).
    { eapply (proj1 (Forall_forall _ _) HF), nth_error_In; eauto. }
    destruct q; try discriminate Hq; cbn; split; auto;
      apply Forall_set_nth; auto.
Qed.

Lemma step_RegInv (sys : Sys) (ev : Event) :
  CallsInv sys -> RegInv url sys -> RegInv url (step o ev sys).
Proof.
  intros HQ (HC & HF & H). destruct (is_query_event ev) eqn:Hev.
  { (* a call is started, or a promise of a call settles *)
    destruct (@step_query o sys ev HQ Hev)
      as (_ & Hi & Hs & Hm & new & Htr & Hn).
    unfold RegInv. rewrite Hi, Hs.
    assert (Hv : instantiated (trace (hook (step o ev sys)))
                 = instantiated (trace (hook sys)) /\
                 registering (trace (hook (step o ev sys)))
                 = registering (trace (hook sys)) /\
                 registered (trace (hook (step o ev sys)))
                 = registered (trace (hook sys))).
    { rewrite Htr. unfold instantiated, registering, registered.
      repeat split; apply collect_query_frame; auto;
        intros e He; apply reg_view_query_entry in He; apply He. }
    destruct Hv as (Hv1 & Hv2 & Hv3). rewrite Hv1, Hv2, Hv3.
    split; [|split; [|exact H]].
    - destruct (db (state (hook sys))) as [d|] eqn:Hdb.
      + right. discriminate.
      + left.
        destruct (@step_query_not_ready sys ev Hev Hdb (HF eq_refl)) as [Hh _].
        rewrite Hh. destruct HC as [HC|HC]; [exact HC | congruence].
    - intros Hdb.
      apply (@step_query_not_ready sys ev Hev Hdb (HF Hdb)). }
  destruct ev as [| |c sql|i]; try discriminate Hev.
  - (* a promise of the initializer settles *)
    unfold RegInv. cbn [step].
    destruct H as [(Hi & Hg & Hd & Hs & HA) | (d & Hi & Hg & H)].
    + destruct (@settle_RegA (init sys) (hook sys) HA)
        as [(H1 & H2 & H3) | (d & H1 & H2 & H3 & H4 & H5 & H6)];
        destruct (settle o (init sys) (hook sys)) as [p h];
        cbn [fst snd hook init calls] in *.
      * apply reg_view_eq in H2. destruct H2 as (Hi' & Hg' & Hd' & Hc').
        split; [|split].
        -- left. destruct HC as [HC|HC]; congruence.
        -- intros _. auto.
        -- left. repeat split; auto; congruence.
      * split; [|split].
        -- left. destruct HC as [HC|HC]; congruence.
        -- intros _. auto.
        -- right. exists d. rewrite H2, H3, H4, H6, Hi, Hg, Hd.
           repeat split; auto.
    + destruct H as [(Hd & Hs & HB) | (Hp & H)].
      * destruct (@settle_RegB d (init sys) (hook sys) HB)
          as (H1 & H2 & H3 & H4 & ok & H5 & H6).
        destruct (settle o (init sys) (hook sys)) as [p h].
        cbn [fst snd hook init calls] in *.
        assert (Hk : handle_ok d ok h) by (apply H6; left; exact Hs).
        split; [|split].
        -- destruct HC as [HC|HC]; [left|]; congruence.
        -- intros _. auto.
        -- right. exists d. rewrite H2, H3, H5, Hd.
           repeat split; auto. right. split; auto.
           destruct ok; cbn.
           ++ right. split; auto. destruct Hk as [Hk|[_ Hk]]; auto.
           ++ left. split; auto. destruct Hk as [Hk|[Hk _]];
                [auto | discriminate].
      * assert (Hst : settle o (init sys) (hook sys) = (init sys, hook sys)).
        { destruct (init sys); try discriminate Hp; reflexivity. }
        rewrite Hst. cbn [hook init calls]. split; [|split]; auto.
        right. exists d. repeat split; auto.
  - (* the cleanup runs *)
    unfold RegInv. cbn. split; [|split]; auto.
Qed.

Lemma exec_RegInv (evs : list Event) :
  RegInv url (exec o evs (mount o env_url [])).
Proof.
  apply exec_invariant_calls;
    [apply mount_RegInv | intros; apply step_RegInv; auto].
Qed.

End Registration.

(** C7 (as the code has it). In every execution of a hook mounted on a
    fresh page: the registrations asked for are exactly one per fulfilled
    [db.instantiate] (none when the initialization fails before that), for
    that very handle, with the name "emendas.parquet", the configured URL,
    the HTTP protocol and the flag [false]; there is at most one; the
    registrations completed are that one or none, so no later call rebinds
    the name; the lifecycle state holds a handle only once its registration
    is completed; and a query has asked the engine for a connection only if
    the registration was completed. *)
Theorem registration_once
        (o : Oracle) (env_url : option string) (evs : list Event) :
  let sys := exec o evs (mount o env_url []) in
  let tr := trace (hook sys) in
  let reg := fun d =>
    {| reg_db := d; reg_name := "emendas.parquet";
       reg_url := PARQUET_URL env_url; reg_proto := HTTP; reg_flag := false |} in
  registering tr = map reg (instantiated tr) /\
  length (registering tr) <= 1 /\
  (registered tr = [] \/ registered tr = registering tr) /\
  (forall d, db (state (hook sys)) = Some d -> registered tr = [reg d]) /\
  (connecting tr <> [] -> exists d, registered tr = [reg d]).
Proof.
  intros sys tr reg.
  pose proof (@exec_RegInv o (PARQUET_URL env_url) env_url eq_refl evs) as H.
  fold sys in H. unfold RegInv in H. fold tr in H.
  change (the_registration (PARQUET_URL env_url)) with reg in H.
  destruct H as (HC & _ & H).
  assert (Hdb : forall d, db (state (hook sys)) = Some d -> registered tr = [reg d]).
  { intros d Hd.
    destruct H as [(_ & _ & _ & Hs & _) | (d' & _ & _ & H)]; [congruence|].
    destruct H as [(_ & Hs & _) | (_ & [[_ Hs] | [Hr Hs]])]; try congruence.
    destruct Hs as [Hs|Hs]; congruence. }
  assert (Hcn : connecting tr <> [] -> exists d, registered tr = [reg d]).
  { intros Hc. destruct HC as [HC|HC]; [contradiction|].
    destruct (db (state (hook sys))) as [d|] eqn:Hd; [|contradiction].
    exists d. auto. }
  split; [|split; [|split; [|split]]]; auto.
  - destruct H as [(Hi & Hg & _) | (d & Hi & Hg & _)];
      rewrite Hi, Hg; reflexivity.
  - destruct H as [(_ & Hg & _) | (d & _ & Hg & _)]; rewrite Hg; cbn; auto.
  - destruct H as [(_ & _ & Hd & _) | (d & _ & Hg & H)]; auto.
    destruct H as [(Hd & _) | (_ & [[Hd _] | [Hd _]])]; auto.
    right. congruence.
Qed.

(** C7, as stated, fails: an initialization in which [selectBundle]
    rejects ends in the error state without any registration. *)
Lemma registration_skipped_when_init_fails :
  let sys := exec no_bundle [Settle] (mount no_bundle None []) in
  init sys = Ret tt /\
  state (hook sys) = error_state (JsError "No supported bundle") /\
  registering (trace (hook sys)) = [] /\
  registered (trace (hook sys)) = [].
Proof. repeat split. Qed.

(** ** Workers *)

Lemma WorkerOK_catch (made : bool) (e : JsValue) :
  WorkerOK made (initDuckDB_catch e).
Proof.
  intros [|]; cbn -[toError]; auto. destruct (toError e); cbn; auto.
Qed.

Lemma WorkerOK_initDuckDB (url : string) : WorkerOK false (initDuckDB url).
Proof.
  unfold initDuckDB, initDuckDB_try. cbn -[initDuckDB_catch].
  do 8 (split; [reflexivity|]; outcome_cases WorkerOK_catch).
  intros [|]; cbn; auto.
Qed.

Lemma worker_view_query_entry (e : Entry) :
  query_entry e = true ->
  worker_created_of e = None /\ worker_terminated_of e = None.
Proof.
  destruct e as [X op [x|v]|X op|X op out|msg v|s|]; cbn; auto;
    destruct op; cbn; auto; discriminate.
Qed.

Section Workers.
Variable o : Oracle.
Variable env_url : option string.
Variable history : list Entry.

Lemma worker_step_log (made : bool) (h : Hook) (e : Entry)
      (r : Prog unit * Hook) :
  worker_created_of e = None -> worker_terminated_of e = None ->
  worker_step made (log e h) r -> worker_step made h r.
Proof.
  intros Hc Ht (made' & ws & H1 & H2 & H3 & H4 & H5).
  exists made', ws. unfold workers_created, workers_terminated in *.
  cbn in H2, H4. rewrite Hc in H2. rewrite Ht in H4. auto.
Qed.

Lemma run_sync_WorkerOK (p : Prog unit) (made : bool) (h : Hook) :
  WorkerOK made p -> worker_step made h (run_sync o p h).
Proof.
  revert made h.
  induction p as [r|e|X op k IH|X op k IH|k IH|s k IH|msg e k IH];
    intros made h HW; cbn [run_sync]; try contradiction.
  - exists made, []. cbn. repeat split; auto.
  - exists made, []. cbn. repeat split; auto.
  - revert k IH HW.
    destruct op; intros k IH HW; cbn in HW; destruct HW as [HN HW];
      try discriminate HN;
      try (match goal with
           | |- worker_step _ _ (run_sync o (k ?out) (log ?ent h)) =>
               apply worker_step_log with (e := ent);
               [destruct out; reflexivity | reflexivity | apply IH, HW]
           end; fail).
    subst made.
    destruct (answer o h (newWorker url)) as [w|e] eqn:Ha.
    + destruct (IH (Ok w) true (log (Called (newWorker url) (Ok w)) h)
                  (HW (Ok w))) as (made' & ws & H1 & H2 & H3 & H4 & H5).
      destruct made'; cbn in H3; [|lia].
      exists true, [w]. destruct ws; [|cbn in H3; lia].
      repeat split; auto.
    + apply worker_step_log
        with (e := Called (newWorker url) (Thrown e));
        [reflexivity | reflexivity | apply IH, (HW (Thrown e))].
  - destruct HW as [HN HW]. exists made, []. cbn [fst snd].
    split; [cbn; auto|].
    unfold workers_created, workers_terminated. cbn.
    split; [reflexivity|]. split; [reflexivity|]. split; [|auto].
    destruct op; cbn in HN |- *; auto; discriminate.
  - apply IH, HW.
  - destruct HW as [Hs HW].
    destruct (IH made (commit s h) HW) as (made' & ws & H1 & H2 & H3 & H4 & H5).
    exists made', ws. repeat split; auto.
  - apply worker_step_log with (e := Logged msg e); auto.
Qed.
Lemma settle_WorkerOK (p : Prog unit) (made : bool) (h : Hook) :
  WorkerOK made p -> worker_step made h (settle o p h).
Proof.
  destruct p as [r|e|X op k|X op k|k|s k|msg e k]; intros HW;
    try (exists made, []; cbn [settle fst snd]; split; [exact HW|];
         repeat split; auto; fail).
  cbn [settle]. destruct HW as [HN HW].
  apply worker_step_log with (e := Settled op (answer o h op)).
  - destruct (answer o h op); reflexivity.
  - destruct op; cbn in HN |- *; auto.
  - apply run_sync_WorkerOK, HW.
Qed.

Lemma worker_step_inv (sys : Sys) (r : Prog unit * Hook) (made : bool)
      (ws : list Worker) :
  workers_created (trace (hook sys)) = ws ++ workers_created history ->
  length ws = (if made then 1 else 0) ->
  workers_terminated (trace (hook sys)) = workers_terminated history ->
  (db (state (hook sys)) = None \/ made = true) ->
  worker_step made (hook sys) r ->
  WorkerInv history {| hook := snd r; init := fst r; calls := calls sys |}.
Proof.
  intros Hc Hl Ht Hs (made' & ws' & H1 & H2 & H3 & H4 & H5).
  exists made', (ws' ++ ws). cbn [hook init].
  rewrite H2, H4, Hc, Ht, app_assoc, length_app.
  repeat split; auto. lia.
Qed.

Lemma mount_WorkerInv : WorkerInv history (mount o env_url history).
Proof.
  unfold mount.
  set (h0 := {| state := initial_state; isMounted := true; trace := history |}).
  pose proof (@run_sync_WorkerOK _ false h0
                (WorkerOK_initDuckDB (PARQUET_URL env_url))) as H.
  destruct (run_sync o (initDuckDB (PARQUET_URL env_url)) h0) as [p h] eqn:Hr.
  apply (@worker_step_inv {| hook := h0; init := Ret tt; calls := [] |}
           (p, h) false []);
    cbn; auto.
Qed.

Lemma step_WorkerInv (sys : Sys) (ev : Event) :
  CallsInv sys -> WorkerInv history sys -> WorkerInv history (step o ev sys).
Proof.
  intros HQ (made & ws & HW & Hc & Hl & Ht & Hs).
  destruct (is_query_event ev) eqn:Hev.
  { destruct (@step_query o sys ev HQ Hev)
      as (_ & Hi & Hst & Hm & new & Htr & Hn).
    exists made, ws. rewrite Hi, Hst, Htr.
    unfold workers_created, workers_terminated in *.
    rewrite !collect_query_frame; auto;
      intros e He; apply worker_view_query_entry in He; apply He. }
  destruct ev as [| |c sql|i]; try discriminate Hev.
  - cbn [step].
    pose proof (@settle_WorkerOK (init sys) made (hook sys) HW) as H.
    destruct (settle o (init sys) (hook sys)) as [p h].
    destruct (@worker_step_inv sys (p, h) made ws Hc Hl Ht Hs H)
      as (made' & ws' & H').
    exists made', ws'. exact H'.
  - exists made, ws. cbn. auto.
Qed.

Lemma exec_WorkerInv (evs : list Event) :
  WorkerInv history (exec o evs (mount o env_url history)).
Proof.
  apply exec_invariant_calls;
    [apply mount_WorkerInv | intros; apply step_WorkerInv; auto].
Qed.
End Workers.

(** C8 (as the code has it). Through every execution of a hook mounted
    after any history, including its cleanup: no worker is ever terminated;
    the workers allocated before are all still allocated, joined by at most
    one worker of this mount, and by exactly one when this mount publishes a
    handle; and the cleanup itself records nothing but that it ran. *)
Theorem workers_never_released
        (o : Oracle) (env_url : option string) (history : list Entry)
        (evs : list Event) :
  let sys := exec o evs (mount o env_url history) in
  workers_terminated (trace (hook sys)) = workers_terminated history /\
  (exists ws,
      workers_created (trace (hook sys)) = ws ++ workers_created history /\
      length ws <= 1 /\
      (forall d, db (state (hook sys)) = Some d -> length ws = 1)) /\
  trace (hook (step o Unmount sys)) = Unmounted :: trace (hook sys) /\
  state (hook (step o Unmount sys)) = state (hook sys).
Proof.
  intros sys.
  destruct (exec_WorkerInv o env_url history evs)
    as (made & ws & HW & Hc & Hl & Ht & Hs).
  repeat split; auto.
  exists ws. repeat split; auto.
  - destruct made; lia.
  - intros d Hd. destruct Hs as [Hs|Hs]; [fold sys in Hs; congruence|].
    subst made. exact Hl.
Qed.

(** C8, as stated, fails: after two mounts that each ran to the end and
    were unmounted, both workers are still allocated and none was
    terminated. *)
Lemma workers_accumulate_across_remounts :
  let first := exec happy mount_cycle (mount happy None []) in
  let second :=
    exec happy mount_cycle (mount happy None (trace (hook first))) in
  isMounted (hook first) = false /\
  isMounted (hook second) = false /\
  workers_created (trace (hook second)) = [17; 4] /\
  workers_terminated (trace (hook second)) = [] /\
  live_workers (trace (hook second)) = [17; 4].
Proof. repeat split. Qed.

(** ** The theorems at work on sample runs *)

(** Two calls running interleaved after a full initialization: once both
    have settled, as many connections were released as acquired. *)
Lemma executeQuery_releases_connection_witness :
  let sys := exec happy two_queries (mount happy None []) in
  length (released (trace (hook sys))) = length (acquired (trace (hook sys))) /\
  length (closed (trace (hook sys))) = length (acquired (trace (hook sys))).
Proof.
  intros sys.
  apply (proj2 (proj2 (proj2 (executeQuery_releases_connection
                                happy initial_state sample_sql fresh_hook)
                               None two_queries))).
  repeat constructor.
Defined.

(** Before the engine is there the query is refused on the spot; with the
    engine there and rejecting the SQL text, what the call rejects with is
    what the engine threw. *)
Lemma executeQuery_not_initialized_witness :
  run happy (executeQuery initial_state sample_sql) fresh_hook
  = (Thrown (JsError "Database not initialized"), fresh_hook) /\
  exists new,
    trace (snd (run bad_sql (executeQuery (ready_state 5) sample_sql) fresh_hook))
    = new ++ trace fresh_hook /\
    In (JsError "Parser Error: syntax error") (engine_thrown new).
Proof.
  split.
  - apply (executeQuery_not_initialized happy initial_state sample_sql
             fresh_hook eq_refl).
  - apply (proj2 (proj2 (proj2
             (executeQuery_not_initialized bad_sql initial_state sample_sql
                fresh_hook eq_refl))) (ready_state 5) 5); reflexivity.
Defined.

(** After [selectBundle] rejects on a mounted hook, the error state holds
    the thrown error. *)
Lemma initDuckDB_failure_is_caught_witness :
  state (hook (exec no_bundle [Settle] (mount no_bundle None [])))
  = error_state (JsError "No supported bundle").
Proof.
  destruct (initDuckDB_failure_is_caught no_bundle None [] [Settle])
    as ([[H _] | (e & Ht & _ & _ & Hs)] & _).
  - vm_compute in H. discriminate H.
  - vm_compute in Ht. injection Ht as Ht. subst e.
    destruct (Hs (JsError "No supported bundle") eq_refl) as [_ H].
    apply H. reflexivity.
Defined.

(** After a query the engine rejected, the handle is still there and the
    next call reaches it. *)
Lemma executeQuery_preserves_lifecycle_witness :
  exists k,
    executeQuery
      (state (snd (run bad_sql (executeQuery (ready_state 5) sample_sql)
                     ready_hook))) sample_sql
    = Await (connect 5) k.
Proof.
  apply (proj2 (proj2 (proj2
           (executeQuery_preserves_lifecycle bad_sql (ready_state 5)
              sample_sql ready_hook))) 5 sample_sql).
  reflexivity.
Defined.

(** Not ready after one settlement; ready after three, and still ready
    after a query and the cleanup. *)
Lemma isReady_monotonic_witness :
  UseDuckDB.isReady
    (useDuckDB (state (hook (exec happy [Settle] (mount happy None [])))))
  = false /\
  UseDuckDB.isReady
    (useDuckDB
       (state (hook (exec happy (query_cycle sample_sql ++ [Unmount])
                       (exec happy [Settle; Settle; Settle]
                          (mount happy None []))))))
  = true.
Proof.
  split.
  - apply (proj1 (isReady_monotonic happy None [] [Settle] [])). reflexivity.
  - apply (proj2 (isReady_monotonic happy None [] [Settle; Settle; Settle]
                    (query_cycle sample_sql ++ [Unmount]))).
    reflexivity.
Defined.

(** The returned [isReady] of a ready state is true. *)
Lemma useDuckDB_signals_witness :
  UseDuckDB.isReady (useDuckDB (ready_state 5)) = true.
Proof.
  apply (proj2 (proj1 (proj2 (useDuckDB_signals (ready_state 5))))).
  split; [exists 5|]; reflexivity.
Defined.

(** A full initialization followed by a query: the one registration was
    completed before the query asked for its connection. *)
Lemma registration_once_witness :
  let sys := exec happy ([Settle; Settle; Settle] ++ query_cycle sample_sql)
                  (mount happy None []) in
  registered (trace (hook sys))
  = [the_registration "/data/emendas_rastreadas.parquet" 6] /\
  exists d,
    registered (trace (hook sys))
    = [the_registration "/data/emendas_rastreadas.parquet" d].
Proof.
  intros sys.
  destruct (registration_once happy None
              ([Settle; Settle; Settle] ++ query_cycle sample_sql))
    as (_ & _ & _ & Hdb & Hcn).
  split.
  - apply (Hdb 6). reflexivity.
  - apply Hcn. vm_compute. discriminate.
Defined.

(** A mount that publishes its handle has allocated exactly one worker. *)
Lemma workers_never_released_witness :
  exists ws,
    workers_created
      (trace (hook (exec happy mount_cycle (mount happy None []))))
    = ws ++ workers_created [] /\
    length ws = 1.
Proof.
  destruct (workers_never_released happy None [] mount_cycle)
    as (_ & (ws & Hc & _ & Hd) & _).
  exists ws. split; [exact Hc|]. apply (Hd 6). reflexivity.
Defined.

(** Unmounted while [selectBundle] is pending: the later success of the
    whole initialization is not committed. *)
Lemma no_commit_after_unmount_witness :
  state (hook (exec happy [Settle; Settle; Settle]
                 (exec happy [Unmount] (mount happy None []))))
  = initial_state.
Proof.
  apply (no_commit_after_unmount happy None [] [Unmount]
           [Settle; Settle; Settle]).
  reflexivity.
Defined.

(** The ready state reached by a full initialization has no error and is
    not loading. *)
Lemma lifecycle_tristate_witness :
  let st := state (hook (exec happy [Settle; Settle; Settle]
                           (mount happy None []))) in
  loading st = false /\ error st = None.
Proof.
  intros st.
  apply (proj1 (proj2 (lifecycle_tristate happy None []
                         [Settle; Settle; Settle])) 6).
  reflexivity.
Defined.

(** * Progress, data flow and the components *)

(** ** Progress: how many settlements the async functions need *)

Lemma AwaitsLe_mono {R : Type} (p : Prog R) (n m : nat) :
  n <= m -> AwaitsLe n p -> AwaitsLe m p.
Proof.
  revert n m. induction p as [r|e|X op k IH|X op k IH|k IH|s k IH|msg e k IH];
    intros n m Hle Hp; cbn in *; eauto.
  destruct n as [|n]; [contradiction|].
  destruct m as [|m]; [lia|]. intros out. apply (IH out n m); [lia|auto].
Qed.

Lemma AwaitsLe_bindP {A B : Type} (n m : nat) (p : Prog A) (f : A -> Prog B) :
  AwaitsLe n p -> (forall a, AwaitsLe m (f a)) -> AwaitsLe (n + m) (bindP p f).
Proof.
  revert n. induction p as [r|e|X op k IH|X op k IH|k IH|s k IH|msg e k IH];
    intros n Hp Hf; cbn in *; auto.
  - apply (@AwaitsLe_mono _ (f r) m); [lia|auto].
  - destruct n as [|n]; [contradiction|]. cbn. intros out. apply IH; auto.
Qed.

Lemma AwaitsLe_try_finally {R : Type} (n m : nat) (p : Prog R) (fin : Prog unit) :
  AwaitsLe n p -> AwaitsLe m fin -> AwaitsLe (n + m) (try_finally p fin).
Proof.
  revert n. induction p as [r|e|X op k IH|X op k IH|k IH|s k IH|msg e k IH];
    intros n Hp Hf; cbn in *; auto.
  - replace (n + m) with (m + n) by lia.
    apply AwaitsLe_bindP; [auto | intros; apply (@AwaitsLe_mono _ _ 0); cbn; auto; lia].
  - replace (n + m) with (m + n) by lia.
    apply AwaitsLe_bindP; [auto | intros; apply (@AwaitsLe_mono _ _ 0); cbn; auto; lia].
  - destruct n as [|n]; [contradiction|]. cbn. intros out. apply IH; auto.
Qed.

Lemma AwaitsLe_mapP_call {A B : Type} (op : A -> ExtOp B) (xs : list A) :
  AwaitsLe 0 (mapP (fun x => call (op x)) xs).
Proof.
  induction xs as [|x xs IH]; cbn; auto.
  intros [y|e]; cbn; auto.
  apply (@AwaitsLe_bindP _ _ 0 0); [exact IH | intros; exact I].
Qed.

Lemma AwaitsLe_catch (n : nat) (e : JsValue) :
  AwaitsLe n (initDuckDB_catch e).
Proof.
  cbn -[toError]. intros [|]; [|exact I].
  destruct (toError e); exact I.
Qed.

(** [initDuckDB] suspends at most three times: on [selectBundle],
    [instantiate] and [registerFileURL]. *)
Lemma AwaitsLe_initDuckDB (url : string) : AwaitsLe 3 (initDuckDB url).
Proof.
  unfold initDuckDB, initDuckDB_try. cbn -[initDuckDB_catch].
  do 8 outcome_cases AwaitsLe_catch.
  intros [|]; exact I.
Qed.

(** [executeQuery] suspends at most three times: on [connect], [query] and
    [close]. *)
Lemma AwaitsLe_executeQuery (st : DuckDBState) (sql : string) :
  AwaitsLe 3 (executeQuery st sql).
Proof.
  unfold executeQuery. destruct (db st) as [d|]; [|exact I].
  cbn [bind Monad_Prog]. apply (@AwaitsLe_bindP _ _ 1 2).
  - cbn. intros [?|?]; exact I.
  - intros c. apply (@AwaitsLe_try_finally _ 1 1).
    + unfold executeQuery_try. cbn [bind Monad_Prog].
      apply (@AwaitsLe_bindP _ _ 1 0).
      * cbn. intros [?|?]; exact I.
      * intros t. apply (@AwaitsLe_bindP _ _ 0 0).
        -- cbn. intros [?|?]; exact I.
        -- intros rows. apply AwaitsLe_mapP_call.
    + cbn. intros [?|?]; exact I.
Qed.

Lemma Commits_catch (e : JsValue) : CommitsIfMounted (initDuckDB_catch e).
Proof. cbn -[toError]. destruct (toError e); exact I. Qed.

Lemma Commits_initDuckDB (url : string) : CommitsIfMounted (initDuckDB url).
Proof.
  unfold initDuckDB, initDuckDB_try. cbn -[initDuckDB_catch].
  do 8 outcome_cases Commits_catch.
  exact I.
Qed.

Lemma Stopped_AwaitsLe_0 {R : Type} (p : Prog R) :
  Stopped p -> AwaitsLe 0 p -> finished p = true.
Proof. destruct p; cbn; auto; contradiction. Qed.

Section Progress.
Variable o : Oracle.

Lemma run_sync_AwaitsLe {R : Type} (n : nat) (p : Prog R) (h : Hook) :
  AwaitsLe n p ->
  AwaitsLe n (fst (run_sync o p h)) /\ Stopped (fst (run_sync o p h)).
Proof.
  revert h. induction p as [r|e|X op k IH|X op k IH|k IH|s k IH|msg e k IH];
    intros h Hp; cbn in *; auto.
Qed.

Lemma settle_AwaitsLe {R : Type} (n : nat) (p : Prog R) (h : Hook) :
  Stopped p -> AwaitsLe (S n) p ->
  AwaitsLe n (fst (settle o p h)) /\ Stopped (fst (settle o p h)).
Proof.
  destruct p as [r|e|X op k|X op k|k|s k|msg e k]; cbn [Stopped];
    intros HS Hp; try contradiction; try (split; exact I).
  cbn [settle]. apply run_sync_AwaitsLe. apply Hp.
Qed.

Lemma step_init_other (ev : Event) (sys : Sys) :
  is_settle ev = false -> init (step o ev sys) = init sys.
Proof.
  destruct ev as [| |c sql|i]; intros Hev; try discriminate Hev; cbn [step].
  - reflexivity.
  - destruct (run_sync o _ (hook sys)). reflexivity.
  - destruct (nth_error (calls sys) i); [|reflexivity].
    destruct (settle o _ (hook sys)). reflexivity.
Qed.

(** An initializer that needs at most [n] more settlements has returned or
    thrown once the schedule held that many. *)
Lemma init_progress (evs : list Event) (n : nat) (sys : Sys) :
  Stopped (init sys) -> AwaitsLe n (init sys) ->
  n <= count_events is_settle evs ->
  finished (init (exec o evs sys)) = true.
Proof.
  revert n sys. induction evs as [|ev evs IH]; intros n sys HS Hp Hn.
  - cbn in Hn. assert (n = 0) by lia. subst n.
    apply Stopped_AwaitsLe_0; auto.
  - rewrite exec_cons. destruct (is_settle ev) eqn:Hev.
    + destruct ev; try discriminate Hev.
      destruct (@settle_AwaitsLe _ (pred n) (init sys) (hook sys) HS) as [Hp' HS'].
      { apply (@AwaitsLe_mono _ _ n); [lia|auto]. }
      apply (IH (pred n)).
      * cbn [step]. destruct (settle o (init sys) (hook sys)); exact HS'.
      * cbn [step]. destruct (settle o (init sys) (hook sys)); exact Hp'.
      * unfold count_events in *. cbn in Hn. lia.
    + apply (IH n).
      * rewrite step_init_other; auto.
      * rewrite step_init_other; auto.
      * unfold count_events in *. cbn [filter] in Hn. rewrite Hev in Hn. exact Hn.
Qed.

Lemma mount_AwaitsLe (env_url : option string) (history : list Entry) :
  Stopped (init (mount o env_url history)) /\
  AwaitsLe 3 (init (mount o env_url history)).
Proof.
  unfold mount.
  set (h0 := {| state := initial_state; isMounted := true; trace := history |}).
  destruct (@run_sync_AwaitsLe _ 3 (initDuckDB (PARQUET_URL env_url)) h0
              (AwaitsLe_initDuckDB _)) as [H1 H2].
  destruct (run_sync o (initDuckDB (PARQUET_URL env_url)) h0). auto.
Qed.

Lemma run_sync_commits_mono {R : Type} (p : Prog R) (h : Hook) :
  count is_commit (trace h) <= count is_commit (trace (snd (run_sync o p h))).
Proof.
  revert h. induction p as [r|e|X op k IH|X op k IH|k IH|s k IH|msg e k IH];
    intros h; cbn [run_sync snd]; auto.
  - etransitivity; [|apply IH]. cbn. auto.
  - etransitivity; [|apply IH]. unfold count. cbn. auto.
  - etransitivity; [|apply IH]. cbn. auto.
Qed.

(** One synchronous stretch of a program that commits when mounted: it
    suspends, still to commit, or a commit was recorded. *)
Lemma run_sync_Commits (p : Prog unit) (h : Hook) :
  CommitsIfMounted p -> isMounted h = true ->
  CommitsIfMounted (fst (run_sync o p h)) \/
  count is_commit (trace h) < count is_commit (trace (snd (run_sync o p h))).
Proof.
  revert h. induction p as [r|e|X op k IH|X op k IH|k IH|s k IH|msg e k IH];
    intros h HC HM; cbn [run_sync CommitsIfMounted fst snd] in *;
    try contradiction.
  - left. exact I.
  - apply (IH _ (log (Called op (answer o h op)) h)); auto.
  - left. exact HC.
  - rewrite HM. apply IH; auto.
  - right. pose proof (run_sync_commits_mono k (commit s h)) as Hle.
    unfold count in *. cbn in Hle. cbn. lia.
  - apply (IH (log (Logged msg e) h)); auto.
Qed.

Variable env_url : option string.
Variable history : list Entry.

Lemma mount_CommitInv : CommitInv history (mount o env_url history).
Proof.
  unfold mount, CommitInv.
  set (h0 := {| state := initial_state; isMounted := true; trace := history |}).
  pose proof (@run_sync_Commits (initDuckDB (PARQUET_URL env_url)) h0
                (Commits_initDuckDB _) eq_refl) as H.
  destruct (run_sync o (initDuckDB (PARQUET_URL env_url)) h0) as [p h].
  intros _. exact H.
Qed.

Lemma step_CommitInv (sys : Sys) (ev : Event) :
  CallsInv sys -> LifeInv history sys ->
  CommitInv history sys -> CommitInv history (step o ev sys).
Proof.
  intros HQ [_ HL] HJ.
  assert (Hge : count is_commit history <= count is_commit (trace (hook sys))).
  { destruct HL as [[_ Hc]|(_ & _ & Hc)]; lia. }
  clear HL. destruct (is_query_event ev) eqn:Hev.
  { destruct (@step_query o sys ev HQ Hev) as (_ & Hi & Hs & Hm & new & Ht & Hn).
    unfold CommitInv. rewrite Hi, Hm, Ht, count_app. intros HM.
    destruct (HJ HM) as [H|H]; [left; auto | right; lia]. }
  destruct ev as [| |c sql|i]; try discriminate Hev.
  - unfold CommitInv in *. cbn [step].
    pose proof (settle_isMounted o (init sys) (hook sys)) as Hm.
    destruct (init sys) as [r|e|X op k|X op k|k|s k|msg e k];
      cbn [settle] in *; cbn [hook init]; try exact HJ.
    pose proof (@run_sync_Commits (k (answer o (hook sys) op))
                  (log (Settled op (answer o (hook sys) op)) (hook sys))) as H.
    pose proof (run_sync_commits_mono (k (answer o (hook sys) op))
                  (log (Settled op (answer o (hook sys) op)) (hook sys))) as Hle.
    destruct (run_sync o (k (answer o (hook sys) op)) _) as [p h].
    cbn [fst snd hook init] in *. intros HM. rewrite Hm in HM.
    destruct (HJ HM) as [HC|Hc].
    + destruct (H (HC _) HM) as [H'|H']; [left; exact H'|].
      right. unfold count in *. cbn in H'. lia.
    + right. unfold count in *. cbn in Hle. lia.
  - unfold CommitInv. cbn. discriminate.
Qed.

Lemma exec_CommitInv (evs : list Event) :
  LifeInv history (exec o evs (mount o env_url history)) /\
  CommitInv history (exec o evs (mount o env_url history)).
Proof.
  apply (@exec_invariant_calls o
           (fun s => LifeInv history s /\ CommitInv history s)).
  - split; [apply mount_LifeInv | apply mount_CommitInv].
  - intros s ev HQ [HL HJ].
    split; [apply step_LifeInv | apply step_CommitInv]; auto.
Qed.

(** X1. Whatever the environment answers and however queries and the
    cleanup interleave, once three promises of the initializer have settled
    the initializer has ended.  If it has returned and the hook is still
    mounted, the hook has left the loading state for a ready or an error
    state, by the one [setState] of this mount.  If it has ended in an
    exception, that is what building the error object threw for the one
    failed call, whose thrown value is no [Error] and has no string form;
    nothing was committed and the state is still the initial one. *)
Theorem initDuckDB_settles_within_three (evs : list Event) :
  3 <= count_events is_settle evs ->
  let sys := exec o evs (mount o env_url history) in
  finished (init sys) = true /\
  (init sys = Ret tt -> isMounted (hook sys) = true ->
   loading (state (hook sys)) = false /\ settled_state (state (hook sys)) /\
   count is_commit (trace (hook sys)) = S (count is_commit history)) /\
  (forall t,
      init sys = Throw t ->
      state (hook sys) = initial_state /\
      count is_commit (trace (hook sys)) = count is_commit history /\
      exists e,
        init_thrown (trace (hook sys)) = e :: init_thrown history /\
        instanceofError e = false /\ String_ e = Thrown t).
Proof.
  intros Hn sys.
  destruct (mount_AwaitsLe env_url history) as [HS HA].
  pose proof (@init_progress evs 3 _ HS HA Hn) as Hf. fold sys in Hf.
  destruct (exec_CommitInv evs) as [[HG HL] HJ]. fold sys in HG, HL, HJ.
  pose proof (exec_FailureInv o env_url history evs) as HF. fold sys in HF.
  split; [exact Hf|]. split.
  - intros Hr HM. destruct (HJ HM) as [HC|Hc].
    + rewrite Hr in HC. contradiction.
    + destruct HL as [[_ Hc']|(Hs & _ & Hc')]; [lia|].
      split; [|split; [exact Hs | exact Hc']].
      destruct Hs as [[d Hs]|[e Hs]]; rewrite Hs; reflexivity.
  - intros t Ht.
    destruct HL as [[Hs Hc]|(_ & Hp & _)]; [|congruence].
    split; [exact Hs|]. split; [exact Hc|].
    destruct HF as [[_ HH] | (e & Hth & _ & [[Hp _] | (t' & Hp & He)])].
    + rewrite Ht in HH. contradiction.
    + congruence.
    + exists e. split; [exact Hth|].
      rewrite Ht in Hp. injection Hp as <-.
      unfold toError in He. destruct (instanceofError e); [discriminate He|].
      split; [reflexivity|]. destruct (String_ e); [discriminate He|].
      injection He as <-. reflexivity.
Qed.

End Progress.

Lemma nth_error_set_nth_eq {A : Type} (i : nat) (x y : A) (l : list A) :
  nth_error l i = Some y -> nth_error (set_nth i x l) i = Some x.
Proof.
  revert i. induction l as [|z l IH]; intros [|i] H; cbn in *;
    try discriminate; auto.
Qed.

Lemma nth_error_set_nth_neq {A : Type} (i j : nat) (x : A) (l : list A) :
  i <> j -> nth_error (set_nth j x l) i = nth_error l i.
Proof.
  revert i j. induction l as [|z l IH]; intros [|i] [|j] H; cbn; auto;
    contradiction.
Qed.

Section QueryProgress.
Variable o : Oracle.

(** A call that needs at most [n] more settlements has returned or thrown
    once the schedule held that many of its own. *)
Lemma call_progress (evs : list Event) (n : nat) (sys : Sys) (i : nat)
      (q : Prog (list JsonRow)) :
  nth_error (calls sys) i = Some q -> Stopped q -> AwaitsLe n q ->
  n <= count_events (is_settle_of i) evs ->
  exists q', nth_error (calls (exec o evs sys)) i = Some q' /\
             finished q' = true.
Proof.
  revert n sys q. induction evs as [|ev evs IH]; intros n sys q Hq HS Hp Hn.
  - cbn in Hn. assert (n = 0) by lia. subst n.
    exists q. split; [exact Hq | apply Stopped_AwaitsLe_0; auto].
  - rewrite exec_cons. unfold count_events in Hn. cbn [filter] in Hn.
    destruct ev as [| |c sql|j]; cbn [is_settle_of] in Hn.
    + apply (IH n _ q); auto. cbn [step].
      destruct (settle o (init sys) (hook sys)). exact Hq.
    + apply (IH n _ q); auto.
    + apply (IH n _ q); auto. cbn [step].
      destruct (run_sync o _ (hook sys)). cbn [calls].
      rewrite nth_error_app1; [exact Hq|].
      apply nth_error_Some. congruence.
    + destruct (Nat.eqb i j) eqn:Hij.
      * apply Nat.eqb_eq in Hij. subst j.
        destruct (@settle_AwaitsLe o _ (pred n) q (hook sys) HS) as [Hp' HS'].
        { apply (@AwaitsLe_mono _ _ n); [lia|auto]. }
        apply (IH (pred n) _ (fst (settle o q (hook sys)))); auto.
        -- cbn [step]. rewrite Hq.
           destruct (settle o q (hook sys)). cbn [calls fst].
           eapply nth_error_set_nth_eq; eauto.
        -- cbn [length] in Hn. unfold count_events. lia.
      * apply Nat.eqb_neq in Hij.
        apply (IH n _ q); auto. cbn [step].
        destruct (nth_error (calls sys) j) as [qj|]; [|exact Hq].
        destruct (settle o qj (hook sys)). cbn [calls].
        rewrite nth_error_set_nth_neq; auto.
Qed.

(** X2. A call of [executeQuery], whichever closure made it and whatever
    else happens meanwhile, has returned or thrown once three of its own
    promises have settled. *)
Theorem executeQuery_settles_within_three (sys : Sys) (c : Closure)
        (sql : string) (evs : list Event) :
  3 <= count_events (is_settle_of (length (calls sys))) evs ->
  exists q,
    nth_error (calls (exec o evs (step o (StartQuery c sql) sys)))
              (length (calls sys)) = Some q /\
    finished q = true.
Proof.
  intros Hn.
  destruct (@run_sync_AwaitsLe o _ 3
              (executeQuery (closure_state c (hook sys)) sql) (hook sys)
              (AwaitsLe_executeQuery _ _)) as [Hp HS].
  eapply (@call_progress evs 3); eauto.
  cbn [step].
  destruct (run_sync o (executeQuery (closure_state c (hook sys)) sql)
              (hook sys)) as [q h].
  cbn [calls fst]. rewrite nth_error_app2, Nat.sub_diag; auto.
Qed.

End QueryProgress.

(** After three settlements under an environment in which everything
    succeeds the mounted hook is not loading any more; when [selectBundle]
    rejects with an object that has no string form, the hook is still in
    its initial state. *)
Lemma initDuckDB_settles_within_three_witness :
  (let sys := exec happy [Settle; Settle; Settle] (mount happy None []) in
   loading (state (hook sys)) = false /\ settled_state (state (hook sys)) /\
   count is_commit (trace (hook sys)) = S (count is_commit [])) /\
  (let sys := exec no_bundle_opaque [Settle; Settle; Settle]
                   (mount no_bundle_opaque None []) in
   state (hook sys) = initial_state).
Proof.
  split.
  - intros sys.
    apply (proj1 (proj2 (@initDuckDB_settles_within_three happy None []
                           [Settle; Settle; Settle] (le_n 3))));
      reflexivity.
  - intros sys.
    apply (proj2 (proj2 (@initDuckDB_settles_within_three no_bundle_opaque
                           None [] [Settle; Settle; Settle] (le_n 3)))
             (JsError "Cannot convert object to primitive value")).
    reflexivity.
Defined.

(** A query started after a full initialization has settled after its
    three settlements. *)
Lemma executeQuery_settles_within_three_witness :
  let sys := exec happy [Settle; Settle; Settle] (mount happy None []) in
  exists q,
    nth_error (calls (exec happy [SettleQuery 0; SettleQuery 0; SettleQuery 0]
                        (step happy (StartQuery LatestRender sample_sql) sys)))
              (length (calls sys)) = Some q /\
    finished q = true.
Proof.
  intros sys.
  apply (@executeQuery_settles_within_three happy sys LatestRender sample_sql
           [SettleQuery 0; SettleQuery 0; SettleQuery 0]).
  apply le_n.
Defined.

(** ** What one call of [executeQuery] submits and returns *)

Section QueryDataFlow.
Variable o : Oracle.

Lemma mapP_toJSON_shape (rows : list RowProxy) (h : Hook) :
  exists new,
    trace (snd (run o (mapP (fun row => call (toJSON row)) rows) h))
    = new ++ trace h /\
    submitted new = [] /\ fetched new = [] /\
    acquired new = [] /\ connecting new = [] /\
    match fst (run o (mapP (fun row => call (toJSON row)) rows) h) with
    | Ok ys =>
        rev (converted new) = combine rows ys /\
        length ys = length rows /\ engine_thrown new = []
    | Thrown e => engine_thrown new = [e]
    end.
Proof.
  revert h; induction rows as [|row rows IH]; intros h.
  - exists []. cbn. repeat split; auto.
  - cbn. destruct (answer o h (toJSON row)) as [y|e0] eqn:Ha; cbn.
    + rewrite run_bindP.
      destruct (IH (log (Called (toJSON row) (Ok y)) h))
        as (new & Ht & Hsub & Hf & Ha' & Hc & Hres).
      exists (new ++ [Called (toJSON row) (Ok y)]).
      unfold submitted, fetched, acquired, connecting, converted, engine_thrown in *.
      rewrite !collect_app, Hsub, Hf, Ha', Hc.
      destruct (run o (mapP (fun r => call (toJSON r)) rows)
                  (log (Called (toJSON row) (Ok y)) h)) as [[ys|e] h2];
        cbn in *; rewrite Ht, <- app_assoc; repeat split; auto.
      * destruct Hres as (Hr & Hl & He).
        rewrite rev_app_distr. cbn. rewrite Hr. reflexivity.
      * destruct Hres as (Hr & Hl & He). rewrite Hl. reflexivity.
      * destruct Hres as (Hr & Hl & He). rewrite He. reflexivity.
      * rewrite Hres. reflexivity.
    + exists [Called (toJSON row) (Thrown e0)]. repeat split; auto.
Qed.

Lemma executeQuery_try_shape (conn : AsyncDuckDBConnection) (sql : string)
      (h : Hook) :
  exists new,
    trace (snd (run o (executeQuery_try conn sql) h)) = new ++ trace h /\
    submitted new = [(conn, sql)] /\
    acquired new = [] /\ connecting new = [] /\
    match fst (run o (executeQuery_try conn sql) h) with
    | Ok ys =>
        (exists rows,
            fetched new = [rows] /\
            rev (converted new) = combine rows ys /\
            length ys = length rows) /\
        engine_thrown new = []
    | Thrown e => engine_thrown new = [e]
    end.
Proof.
  unfold executeQuery_try. cbn.
  set (h1 := log (Issued (query conn sql)) h).
  destruct (answer o h1 (query conn sql)) as [t|e0]; cbn.
  - set (h2 := log (Settled (query conn sql) (Ok t)) h1).
    destruct (answer o h2 (toArray t)) as [rows|e1]; cbn.
    + destruct (mapP_toJSON_shape rows (log (Called (toArray t) (Ok rows)) h2))
        as (new & Ht & Hsub & Hf & Ha & Hc & Hres).
      exists (new ++ [Called (toArray t) (Ok rows);
                      Settled (query conn sql) (Ok t);
                      Issued (query conn sql)]).
      unfold submitted, fetched, acquired, connecting, converted, engine_thrown in *.
      rewrite !collect_app, Hsub, Hf, Ha, Hc, Ht, <- app_assoc.
      repeat split; auto.
      destruct (fst (run o (mapP (fun r => call (toJSON r)) rows) _)) as [ys|e].
      * destruct Hres as (Hr & Hl & He). split.
        -- exists rows. cbn. rewrite app_nil_r. auto.
        -- rewrite He. reflexivity.
      * rewrite Hres. reflexivity.
    + exists [Called (toArray t) (Thrown e1);
              Settled (query conn sql) (Ok t); Issued (query conn sql)].
      repeat split; auto.
  - exists [Settled (query conn sql) (Thrown e0); Issued (query conn sql)].
    repeat split; auto.
Qed.

(** Everything one call of [executeQuery] on an initialized handle
    records: which handle it asks, what it submits, what it gets back and
    what was thrown, most recent first. *)
Lemma executeQuery_shape (st : DuckDBState) (d : AsyncDuckDB) (sql : string)
      (h : Hook) :
  db st = Some d ->
  exists new,
    trace (snd (run o (executeQuery st sql) h)) = new ++ trace h /\
    connecting new = [d] /\
    submitted new = map (fun c => (c, sql)) (acquired new) /\
    length (acquired new) <= 1 /\
    length (engine_thrown new) <= 2 /\
    match fst (run o (executeQuery st sql) h) with
    | Ok ys =>
        (exists rows,
            fetched new = [rows] /\
            rev (converted new) = combine rows ys /\
            length ys = length rows) /\
        engine_thrown new = []
    | Thrown e => hd_error (engine_thrown new) = Some e
    end.
Proof.
  intros Hd. unfold executeQuery. rewrite Hd. cbn -[executeQuery_try].
  set (h1 := log (Issued (connect d)) h).
  destruct (answer o h1 (connect d)) as [c|e0]; cbn -[executeQuery_try].
  - rewrite run_try_finally.
    set (h2 := log (Settled (connect d) (Ok c)) h1).
    destruct (executeQuery_try_shape c sql h2)
      as (body & Ht & Hsub & Ha & Hc & Hres).
    destruct (run o (executeQuery_try c sql) h2) as [outb h3] eqn:Hr.
    cbn [fst snd] in Ht, Hres. cbn [run await].
    set (h4 := log (Issued (close c)) h3).
    exists ([Settled (close c) (answer o h4 (close c)); Issued (close c)]
            ++ body ++ [Settled (connect d) (Ok c); Issued (connect d)]).
    unfold submitted, fetched, acquired, connecting, converted, engine_thrown in *.
    rewrite !collect_app, Hsub, Ha, Hc.
    assert (Hfc : forall out,
               collect fetched_of [Settled (close c) out; Issued (close c)] = [] /\
               collect converted_of [Settled (close c) out; Issued (close c)] = []).
    { intros [u|ec]; split; reflexivity. }
    destruct (Hfc (answer o h4 (close c))) as [Hf1 Hf2]. rewrite Hf1, Hf2.
    destruct (answer o h4 (close c)) as [u|ec]; cbn [of_outcome run fst snd];
      subst h4 h2 h1; cbn [log trace]; rewrite Ht; cbn [log trace];
      (split; [rewrite <- !app_assoc; reflexivity|]);
      (split; [reflexivity|]); (split; [reflexivity|]);
      (split; [cbn; lia|]).
    + destruct outb as [ys|e]; cbn -[hd_error].
      * destruct Hres as [(rows & Hf & Hcv & Hl) He]. rewrite He. cbn.
        split; [lia|]. split; [|reflexivity].
        exists rows. rewrite !app_nil_r. auto.
      * rewrite Hres. cbn. split; [lia | reflexivity].
    + split; [|reflexivity].
      destruct outb as [ys|e]; cbn.
      * destruct Hres as [_ He]. rewrite He. cbn. lia.
      * rewrite Hres. cbn. lia.
  - exists [Settled (connect d) (Thrown e0); Issued (connect d)].
    repeat split; auto.
Qed.

(** X3. One call of [executeQuery] asks the handle of its closure's state
    for at most one connection, and submits on each connection it gets
    exactly the SQL text it was given, unchanged. *)
Theorem executeQuery_submits_sql_verbatim (st : DuckDBState) (sql : string)
        (h : Hook) :
  exists new,
    trace (snd (run o (executeQuery st sql) h)) = new ++ trace h /\
    connecting new = match db st with Some d => [d] | None => [] end /\
    length (acquired new) <= 1 /\
    submitted new = map (fun c => (c, sql)) (acquired new).
Proof.
  destruct (db st) as [d|] eqn:Hd.
  - destruct (executeQuery_shape st sql h Hd) as (new & Ht & Hc & Hs & Ha & _).
    exists new. auto.
  - exists []. unfold executeQuery. rewrite Hd. cbn. auto.
Qed.

(** X4. A call of [executeQuery] on an initialized handle returns only if
    none of its engine calls threw, and otherwise rejects with the value
    thrown last: a failing [close()] replaces both the rows of a successful
    query and the error of a failed one. *)
Theorem executeQuery_rejects_with_latest_error (st : DuckDBState)
        (d : AsyncDuckDB) (sql : string) (h : Hook) :
  db st = Some d ->
  exists new,
    trace (snd (run o (executeQuery st sql) h)) = new ++ trace h /\
    length (engine_thrown new) <= 2 /\
    match fst (run o (executeQuery st sql) h) with
    | Ok _ => engine_thrown new = []
    | Thrown e => hd_error (engine_thrown new) = Some e
    end.
Proof.
  intros Hd.
  destruct (executeQuery_shape st sql h Hd) as (new & Ht & _ & _ & _ & Hl & Hr).
  exists new. repeat split; auto.
  destruct (fst (run o (executeQuery st sql) h)); [apply Hr | exact Hr].
Qed.

(** X5. The rows a call of [executeQuery] returns are what [toJSON] gave
    for the rows of the one [toArray] result, one for one and in the same
    order. *)
Theorem executeQuery_returns_rows_in_order (st : DuckDBState) (sql : string)
        (h : Hook) (ys : list JsonRow) :
  fst (run o (executeQuery st sql) h) = Ok ys ->
  exists new rows,
    trace (snd (run o (executeQuery st sql) h)) = new ++ trace h /\
    fetched new = [rows] /\
    rev (converted new) = combine rows ys /\
    length ys = length rows.
Proof.
  intros Hr. destruct (db st) as [d|] eqn:Hd.
  - destruct (executeQuery_shape st sql h Hd) as (new & Ht & _ & _ & _ & _ & H).
    rewrite Hr in H. destruct H as [(rows & Hf & Hc & Hl) _].
    exists new, rows. auto.
  - unfold executeQuery in Hr. rewrite Hd in Hr. discriminate Hr.
Qed.

End QueryDataFlow.

(** With the SQL text and then [close()] rejected, the call rejects with
    what [close()] threw. *)
Lemma executeQuery_rejects_with_latest_error_witness :
  exists new,
    trace (snd (run bad_sql_bad_close
                  (executeQuery (ready_state 5) sample_sql) fresh_hook))
    = new ++ trace fresh_hook /\
    length (engine_thrown new) <= 2 /\
    match fst (run bad_sql_bad_close
                 (executeQuery (ready_state 5) sample_sql) fresh_hook) with
    | Ok _ => engine_thrown new = []
    | Thrown e => hd_error (engine_thrown new) = Some e
    end.
Proof.
  apply (@executeQuery_rejects_with_latest_error bad_sql_bad_close
           (ready_state 5) 5 sample_sql fresh_hook).
  reflexivity.
Defined.

(** The three rows of the sample environment come back converted, in
    order. *)
Lemma executeQuery_returns_rows_in_order_witness :
  exists new rows,
    trace (snd (run happy (executeQuery (ready_state 5) sample_sql) fresh_hook))
    = new ++ trace fresh_hook /\
    fetched new = [rows] /\
    rev (converted new)
    = combine rows [[("c", SNumber 0)]; [("c", SNumber 1)]; [("c", SNumber 2)]] /\
    length [[("c", SNumber 0)]; [("c", SNumber 1)]; [("c", SNumber 2)]]
    = length rows.
Proof.
  apply (@executeQuery_returns_rows_in_order happy (ready_state 5) sample_sql
           fresh_hook).
  reflexivity.
Defined.

(** ** The successful initialization, call by call *)

Section InitDataFlow.
Variable o : Oracle.

(** The [catch] block publishes no handle: on a mounted hook that held
    none, or when the block returns, the state it leaves is not a ready
    one. *)
Lemma catch_not_ready (e : JsValue) (h : Hook) (d : AsyncDuckDB) :
  isMounted h = true ->
  db (state h) = None \/ fst (run o (initDuckDB_catch e) h) = Ok tt ->
  state (snd (run o (initDuckDB_catch e) h)) <> ready_state d.
Proof.
  intros HM. cbn -[toError]. rewrite HM. destruct (toError e); cbn.
  - intros _ Hst. discriminate Hst.
  - intros [Hdb|Hr] Hst; [rewrite Hst in Hdb; discriminate Hdb | discriminate Hr].
Qed.

Ltac caught_not_ready HM :=
  let Hor := fresh "Hor" in
  let Hst := fresh "Hst" in
  intros Hor Hst; exfalso; revert Hst; apply catch_not_ready;
  [exact HM | exact Hor].

(** X6. An initialization that runs to the end on a mounted hook and
    leaves a ready state has made exactly these calls, in this order: the
    bundles are fetched and one is selected; a worker is started from a
    script importing that bundle's worker; the engine is built on that
    worker, instantiated with that bundle's module and pthread worker, and
    given the one file registration; the handle committed is the handle of
    that engine.  Running to the end means that the initializer returns;
    on a hook that holds no handle when the initializer starts, as the
    hook's own does, the ready state alone tells it. *)
Theorem initDuckDB_success_trace (url : string) (h : Hook) (d : AsyncDuckDB) :
  isMounted h = true ->
  db (state h) = None \/ fst (run o (initDuckDB url) h) = Ok tt ->
  state (snd (run o (initDuckDB url) h)) = ready_state d ->
  exists bundles bundle worker_url worker,
    trace (snd (run o (initDuckDB url) h)) =
    [ Committed (ready_state d);
      Settled (registerFileURL d "emendas.parquet" url HTTP false) (Ok tt);
      Issued (registerFileURL d "emendas.parquet" url HTTP false);
      Settled (instantiate d (mainModule bundle) (pthreadWorker bundle)) (Ok tt);
      Issued (instantiate d (mainModule bundle) (pthreadWorker bundle));
      Called (newAsyncDuckDB tt worker) (Ok d);
      Called newConsoleLogger (Ok tt);
      Called (newWorker worker_url) (Ok worker);
      Called (createObjectURL {| blobParts := [importScripts bundle];
                                 blobType := "text/javascript" |})
             (Ok worker_url);
      Settled (selectBundle bundles) (Ok bundle);
      Issued (selectBundle bundles);
      Called getJsDelivrBundles (Ok bundles) ] ++ trace h.
Proof.
  intros HM. unfold initDuckDB, initDuckDB_try.
  cbn -[initDuckDB_catch importScripts].
  destruct (answer o h getJsDelivrBundles) as [bundles|?];
    cbn -[initDuckDB_catch importScripts]; [|caught_not_ready HM].
  match goal with
  | |- context [answer o ?h1 (selectBundle bundles)] =>
      destruct (answer o h1 (selectBundle bundles)) as [bundle|?];
      cbn -[initDuckDB_catch importScripts]; [|caught_not_ready HM]
  end.
  match goal with
  | |- context [answer o ?h1 (createObjectURL ?b)] =>
      destruct (answer o h1 (createObjectURL b)) as [worker_url|?];
      cbn -[initDuckDB_catch importScripts]; [|caught_not_ready HM]
  end.
  match goal with
  | |- context [answer o ?h1 (newWorker worker_url)] =>
      destruct (answer o h1 (newWorker worker_url)) as [worker|?];
      cbn -[initDuckDB_catch importScripts]; [|caught_not_ready HM]
  end.
  match goal with
  | |- context [answer o ?h1 newConsoleLogger] =>
      destruct (answer o h1 newConsoleLogger) as [[]|?];
      cbn -[initDuckDB_catch importScripts]; [|caught_not_ready HM]
  end.
  match goal with
  | |- context [answer o ?h1 (newAsyncDuckDB tt worker)] =>
      destruct (answer o h1 (newAsyncDuckDB tt worker)) as [d'|?];
      cbn -[initDuckDB_catch importScripts]; [|caught_not_ready HM]
  end.
  match goal with
  | |- context [answer o ?h1 (instantiate d' ?m ?w)] =>
      destruct (answer o h1 (instantiate d' m w)) as [[]|?];
      cbn -[initDuckDB_catch importScripts]; [|caught_not_ready HM]
  end.
  match goal with
  | |- context [answer o ?h1 (registerFileURL d' ?n ?u ?pr ?f)] =>
      destruct (answer o h1 (registerFileURL d' n u pr f)) as [[]|?];
      cbn -[initDuckDB_catch importScripts]; [|caught_not_ready HM]
  end.
  rewrite HM. cbn -[importScripts]. intros _ Hst. injection Hst as Hst.
  subst d'.
  exists bundles, bundle, worker_url, worker. reflexivity.
Qed.

End InitDataFlow.

(** The calls of a full initialization under an environment in which
    everything succeeds. *)
Lemma initDuckDB_success_trace_witness :
  exists bundles bundle worker_url worker,
    trace (snd (run happy (initDuckDB default_data_url) fresh_hook)) =
    [ Committed (ready_state 6);
      Settled (registerFileURL 6 "emendas.parquet" default_data_url HTTP false)
              (Ok tt);
      Issued (registerFileURL 6 "emendas.parquet" default_data_url HTTP false);
      Settled (instantiate 6 (mainModule bundle) (pthreadWorker bundle)) (Ok tt);
      Issued (instantiate 6 (mainModule bundle) (pthreadWorker bundle));
      Called (newAsyncDuckDB tt worker) (Ok 6);
      Called newConsoleLogger (Ok tt);
      Called (newWorker worker_url) (Ok worker);
      Called (createObjectURL {| blobParts := [importScripts bundle];
                                 blobType := "text/javascript" |})
             (Ok worker_url);
      Settled (selectBundle bundles) (Ok bundle);
      Issued (selectBundle bundles);
      Called getJsDelivrBundles (Ok bundles) ] ++ trace fresh_hook.
Proof.
  apply (@initDuckDB_success_trace happy default_data_url fresh_hook 6);
    [reflexivity | left; reflexivity | reflexivity].
Defined.

(** Why the ready state alone does not tell on a hook that already holds a
    handle: when bundle selection rejects with an object that has no string
    form, the [catch] block throws before it sets any state, and the old
    handle stays in place although nothing was registered. *)
Lemma initDuckDB_rejection_keeps_state :
  let r := run no_bundle_opaque (initDuckDB default_data_url) ready_hook in
  isMounted ready_hook = true /\
  fst r = Thrown (JsError "Cannot convert object to primitive value") /\
  state (snd r) = ready_state 5 /\
  registering (trace (snd r)) = [].
Proof.
  cbn. repeat split.
Qed.

(** ** The string built-ins *)

Lemma trimStart_head (s : string) (c : ascii) (t : string) :
  JS.trimStart s = String c t -> JS.isWhiteSpace c = false.
Proof.
  induction s as [|a s IH]; cbn -[JS.isWhiteSpace]; [discriminate|].
  destruct (JS.isWhiteSpace a) eqn:Ha; auto.
  intros H. injection H as -> _. exact Ha.
Qed.

Lemma trimStart_fixed (c : ascii) (t : string) :
  JS.isWhiteSpace c = false -> JS.trimStart (String c t) = String c t.
Proof. intros H. cbn -[JS.isWhiteSpace]. rewrite H. reflexivity. Qed.

Lemma trimEnd_head (s : string) (c : ascii) (t : string) :
  JS.trimEnd s = String c t -> exists t', s = String c t'.
Proof.
  destruct s as [|a s]; cbn -[JS.isWhiteSpace]; [discriminate|].
  destruct (JS.trimEnd s); [destruct (JS.isWhiteSpace a)|];
    intros H; try discriminate; injection H as -> _; eauto.
Qed.

Lemma trimEnd_idem (s : string) : JS.trimEnd (JS.trimEnd s) = JS.trimEnd s.
Proof.
  induction s as [|a s IH]; cbn -[JS.isWhiteSpace]; auto.
  destruct (JS.trimEnd s) as [|b u] eqn:Hu.
  - destruct (JS.isWhiteSpace a) eqn:Ha; cbn -[JS.isWhiteSpace]; auto.
    rewrite Ha. reflexivity.
  - cbn -[JS.isWhiteSpace] in *. rewrite IH. reflexivity.
Qed.

(** Trimming is idempotent: what [trim] returns has no white space left
    at either end. *)
Lemma trim_idem (s : string) : JS.trim (JS.trim s) = JS.trim s.
Proof.
  unfold JS.trim.
  destruct (JS.trimEnd (JS.trimStart s)) as [|c t] eqn:Hw; [reflexivity|].
  destruct (trimEnd_head _ Hw) as [t' Ht'].
  rewrite (@trimStart_fixed c t (trimStart_head _ Ht')).
  rewrite <- Hw. apply trimEnd_idem.
Qed.

Lemma includes_trimStart (c : ascii) (s : string) :
  JS.includes c s = false -> JS.includes c (JS.trimStart s) = false.
Proof.
  induction s as [|a s IH]; cbn -[JS.isWhiteSpace]; auto.
  intros H. apply orb_false_iff in H. destruct H as [H1 H2].
  destruct (JS.isWhiteSpace a); auto. cbn. rewrite H1, H2. reflexivity.
Qed.

Lemma includes_trimEnd (c : ascii) (s : string) :
  JS.includes c s = false -> JS.includes c (JS.trimEnd s) = false.
Proof.
  induction s as [|a s IH]; cbn -[JS.isWhiteSpace]; auto.
  intros H. apply orb_false_iff in H. destruct H as [H1 H2].
  specialize (IH H2).
  destruct (JS.trimEnd s) as [|b u].
  - destruct (JS.isWhiteSpace a); auto. cbn. rewrite H1. reflexivity.
  - cbn in *. rewrite H1, IH. reflexivity.
Qed.

Lemma split_not_nil (sep : ascii) (s : string) : JS.split sep s <> [].
Proof.
  destruct s as [|a s]; cbn; [discriminate|].
  destruct (Ascii.eqb a sep); [discriminate|].
  destruct (JS.split sep s); discriminate.
Qed.

(** No piece of a split holds the separator. *)
Lemma split_pieces (sep : ascii) (s : string) :
  Forall (fun p => JS.includes sep p = false) (JS.split sep s).
Proof.
  induction s as [|a s IH]; cbn.
  - repeat constructor.
  - destruct (Ascii.eqb a sep) eqn:Ha.
    + constructor; auto.
    + destruct (JS.split sep s) as [|x xs]; [repeat constructor; cbn; rewrite Ha; auto|].
      inversion IH; subst. constructor; auto. cbn. rewrite Ha. auto.
Qed.

Lemma split_no_sep (sep : ascii) (s : string) :
  JS.includes sep s = false -> JS.split sep s = [s].
Proof.
  induction s as [|a s IH]; cbn; auto.
  intros H. apply orb_false_iff in H. destruct H as [H1 H2].
  rewrite H1, (IH H2). reflexivity.
Qed.

Lemma split_app (sep : ascii) (x r : string) :
  JS.includes sep x = false ->
  JS.split sep (x ++ String sep r) = x :: JS.split sep r.
Proof.
  induction x as [|a x IH]; cbn.
  - intros _. rewrite Ascii.eqb_refl. reflexivity.
  - intros H. apply orb_false_iff in H. destruct H as [H1 H2].
    rewrite H1, (IH H2). reflexivity.
Qed.

(** Splitting what [join] glued gives the pieces back, when no piece
    holds the separator. *)
Lemma split_join (sep : ascii) (l : list string) :
  l <> [] -> Forall (fun p => JS.includes sep p = false) l ->
  JS.split sep (JS.join sep l) = l.
Proof.
  induction l as [|x l IH]; [congruence|]. intros _ HF.
  inversion HF as [|? ? Hx Hl]; subst.
  destruct l as [|y l].
  - cbn. apply split_no_sep. exact Hx.
  - change (JS.join sep (x :: y :: l))
      with (x ++ String sep (JS.join sep (y :: l)))%string.
    rewrite split_app; auto. rewrite IH; auto. discriminate.
Qed.

(** Joining the pieces of a split gives the string back. *)
Lemma join_split (sep : ascii) (s : string) :
  JS.join sep (JS.split sep s) = s.
Proof.
  induction s as [|a s IH]; cbn; auto.
  destruct (Ascii.eqb a sep) eqn:Ha.
  - apply Ascii.eqb_eq in Ha. subst a.
    destruct (JS.split sep s) as [|x xs] eqn:Hs;
      [exfalso; eapply split_not_nil; eauto|].
    change (JS.join sep (EmptyString :: x :: xs))
      with (EmptyString ++ String sep (JS.join sep (x :: xs)))%string.
    rewrite IH. reflexivity.
  - destruct (JS.split sep s) as [|x xs] eqn:Hs;
      [exfalso; eapply split_not_nil; eauto|].
    destruct xs as [|y ys]; cbn in *; rewrite <- IH; reflexivity.
Qed.

(** ** [TraceView] *)

Lemma truthy_not_empty (s : string) : JS.truthy s = true <-> s <> EmptyString.
Proof. destruct s; cbn; split; congruence. Qed.

Lemma cnpjs_clean (record : TraceView.TraceRecord) :
  Forall (fun c => c <> EmptyString /\ JS.trim c = c /\
                   JS.includes "," c = false)
         (TraceView.cnpjs record).
Proof.
  unfold TraceView.cnpjs.
  destruct (TraceView.cnpjs_encontrados record) as [s|]; [|constructor].
  destruct (JS.truthy s); [|constructor].
  apply Forall_forall. intros c Hc.
  apply filter_In in Hc. destruct Hc as [Hc Ht].
  apply in_map_iff in Hc. destruct Hc as (p & <- & Hp).
  pose proof (split_pieces "," s) as HF.
  rewrite Forall_forall in HF. specialize (HF p Hp).
  repeat split.
  - apply truthy_not_empty. exact Ht.
  - apply trim_idem.
  - unfold JS.trim. apply includes_trimEnd, includes_trimStart. exact HF.
Qed.

(** X8. Every CNPJ a card works with is non-empty, has no white space at
    either end and holds no comma, whatever the field held; each is the
    trimmed form of one comma-separated piece of the field, and there are
    no more of them than pieces. *)
Theorem cnpjs_entries_clean (record : TraceView.TraceRecord) :
  let field :=
    match TraceView.cnpjs_encontrados record with
    | Some s => s
    | None => EmptyString
    end in
  Forall (fun c => c <> EmptyString /\ JS.trim c = c /\
                   JS.includes "," c = false)
         (TraceView.cnpjs record) /\
  incl (TraceView.cnpjs record) (map JS.trim (JS.split "," field)) /\
  length (TraceView.cnpjs record) <= length (JS.split "," field).
Proof.
  intros field. split; [apply cnpjs_clean|].
  subst field. unfold TraceView.cnpjs.
  destruct (TraceView.cnpjs_encontrados record) as [s|].
  - destruct (JS.truthy s).
    + split.
      * intros c Hc. apply filter_In in Hc. apply Hc.
      * rewrite <- (length_map JS.trim (JS.split "," s)).
        apply filter_length_le.
    + split; [intros c []|cbn; lia].
  - split; [intros c []|cbn; lia].
Qed.

Lemma map_id_on {A : Type} (f : A -> A) (l : list A) :
  Forall (fun x => f x = x) l -> map f l = l.
Proof. induction 1 as [|x l Hx _ IH]; cbn; congruence. Qed.

Lemma filter_all {A : Type} (f : A -> bool) (l : list A) :
  Forall (fun x => f x = true) l -> filter f l = l.
Proof. induction 1 as [|x l Hx _ IH]; cbn; [|rewrite Hx]; congruence. Qed.

(** X9. The parsed CNPJ list is a normal form: a record whose field is the
    parsed list of another, joined with commas, parses to the same list. *)
Theorem cnpjs_canonical (record record' : TraceView.TraceRecord) :
  TraceView.cnpjs_encontrados record'
  = Some (JS.join "," (TraceView.cnpjs record)) ->
  TraceView.cnpjs record' = TraceView.cnpjs record.
Proof.
  intros H. pose proof (cnpjs_clean record) as HC.
  unfold TraceView.cnpjs at 1. rewrite H.
  destruct (TraceView.cnpjs record) as [|c l] eqn:Hl; [reflexivity|].
  assert (Ht : JS.truthy (JS.join "," (c :: l)) = true).
  { inversion HC as [|? ? (Hc & _) _]; subst.
    destruct c as [|a c]; [congruence|]. destruct l; reflexivity. }
  rewrite Ht, split_join.
  - rewrite map_id_on, filter_all; auto.
    + eapply Forall_impl; [|exact HC]. intros x (Hx & _).
      apply truthy_not_empty. exact Hx.
    + eapply Forall_impl; [|exact HC]. intros x (_ & Hx & _). exact Hx.
  - discriminate.
  - eapply Forall_impl; [|exact HC]. intros x (_ & _ & Hx). exact Hx.
Qed.

Lemma or_default_not_empty (v : option string) (d : string) :
  d <> EmptyString -> TraceView.or_default v d <> EmptyString.
Proof.
  intros Hd. unfold TraceView.or_default.
  destruct v as [[|a s]|]; cbn; auto. discriminate.
Qed.

(** X10. What a card shows, field by field.  The author, the municipality
    and the state are the record's own when they are non-empty strings, and
    the placeholders "Deputado", "Municipio" (with an acute accent on its
    second i) and "UF" when they are missing
    or empty; the company is the first CNPJ of the parsed list, or
    "Empresa" when the list is empty; the note is "+N CNPJ(s)", N the
    number of CNPJs beyond the first in decimal, when there are at least
    two, and "CNPJ" otherwise; the amount is the record's, or 0 when it is
    missing, zero or NaN; the badge is read off [link_status]; the evidence
    link is there exactly for a non-empty [gazette_url].  So none of the
    five texts is ever the empty string. *)
Theorem TraceCard_fields (record : TraceView.TraceRecord) :
  let card := TraceView.TraceCard record in
  let shown (v : option string) (placeholder : string) :=
    match v with
    | Some (String c s) => String c s
    | _ => placeholder
    end in
  (TraceView.author card
   = shown (TraceView.emenda_autor record) "Deputado"%string /\
   TraceView.municipality card
   = shown (TraceView.municipio_nome record)
           ("Munic" ++ String "237"%char "pio")%string /\
   TraceView.state_code card = shown (TraceView.uf record) "UF"%string /\
   TraceView.company card
   = hd "Empresa"%string (TraceView.cnpjs record) /\
   TraceView.company_note card
   = match TraceView.cnpjs record with
     | _ :: _ :: rest =>
         ("+" ++ NilEmpty.string_of_uint (Nat.to_uint (S (length rest)))
              ++ " CNPJ(s)")%string
     | _ => "CNPJ"%string
     end) /\
  (TraceView.valor card
   = match TraceView.emenda_valor record with
     | Some x =>
         if PrimFloat.is_zero x || PrimFloat.is_nan x
         then PrimFloat.zero else x
     | None => PrimFloat.zero
     end /\
   TraceView.badge card
   = match TraceView.link_status record with
     | Some "found"%string => TraceView.Found
     | Some "no_gazette"%string => TraceView.NoGazette
     | _ => TraceView.Incomplete
     end /\
   TraceView.evidence card
   = match TraceView.gazette_url record with
     | Some (String c s) => Some (String c s)
     | _ => None
     end) /\
  (TraceView.author card <> EmptyString /\
   TraceView.municipality card <> EmptyString /\
   TraceView.state_code card <> EmptyString /\
   TraceView.company card <> EmptyString /\
   TraceView.company_note card <> EmptyString).
Proof.
  intros card shown. subst card shown. unfold TraceView.TraceCard.
  cbn [TraceView.author TraceView.municipality TraceView.state_code
       TraceView.company TraceView.company_note TraceView.evidence
       TraceView.valor TraceView.badge].
  pose proof (cnpjs_clean record) as HC.
  split; [|split].
  - split; [|split; [|split; [|split]]].
    + destruct (TraceView.emenda_autor record) as [[|c s]|]; reflexivity.
    + destruct (TraceView.municipio_nome record) as [[|c s]|]; reflexivity.
    + destruct (TraceView.uf record) as [[|c s]|]; reflexivity.
    + destruct (TraceView.cnpjs record); reflexivity.
    + destruct (TraceView.cnpjs record) as [|c [|c' l]]; reflexivity.
  - split; [|split].
    + reflexivity.
    + reflexivity.
    + destruct (TraceView.gazette_url record) as [[|c s]|]; reflexivity.
  - split; [|split; [|split; [|split]]].
    + apply or_default_not_empty. discriminate.
    + apply or_default_not_empty. discriminate.
    + apply or_default_not_empty. discriminate.
    + destruct (TraceView.cnpjs record) as [|c l]; [discriminate|].
      inversion HC as [|? ? (Hc & _) _]; subst. exact Hc.
    + destruct (Nat.ltb 1 (length (TraceView.cnpjs record))); discriminate.
Qed.

Lemma cards_from_spec (data : list TraceView.TraceRecord) (idx : nat) :
  length (TraceView.cards_from idx data) = length data /\
  map snd (TraceView.cards_from idx data) = map TraceView.TraceCard data /\
  forall i record,
    nth_error data i = Some record ->
    nth_error (map fst (TraceView.cards_from idx data)) i
    = Some (TraceView.key record (idx + i)).
Proof.
  revert idx. induction data as [|r data IH]; intros idx; cbn.
  - repeat split; auto. intros [|i] record H; discriminate H.
  - destruct (IH (S idx)) as (Hl & Hm & Hk). repeat split; try congruence.
    intros [|i] record H; cbn in *.
    + injection H as <-. rewrite Nat.add_0_r. reflexivity.
    + rewrite (Hk i record H). f_equal. f_equal. lia.
Qed.

(** X11. [TraceView] shows its placeholder exactly for missing or empty
    data; otherwise it shows one card per record, in the order of the
    records, the counter is the number of cards, and the card of the
    [i]-th record is keyed by its non-empty [emenda_id], else by [i]. *)
Theorem TraceView_cards (data : option (list TraceView.TraceRecord)) :
  match TraceView.TraceView data with
  | TraceView.Placeholder => data = None \/ data = Some []
  | TraceView.Cards n cards =>
      exists d,
        data = Some d /\ d <> [] /\
        n = length d /\ length cards = n /\
        map snd cards = map TraceView.TraceCard d /\
        forall i record,
          nth_error d i = Some record ->
          nth_error (map fst cards) i = Some (TraceView.key record i)
  end.
Proof.
  destruct data as [[|r d]|]; cbn [TraceView.TraceView]; auto.
  exists (r :: d).
  destruct (cards_from_spec (r :: d) 0) as (Hl & Hm & Hk).
  repeat split; auto. discriminate.
Qed.

(** The sample record, rewritten from its parsed list, parses to the same
    two CNPJs. *)
Lemma cnpjs_canonical_witness :
  TraceView.cnpjs sample_record_rejoined = TraceView.cnpjs sample_record.
Proof.
  apply (@cnpjs_canonical sample_record sample_record_rejoined).
  reflexivity.
Defined.

(** ** [EvidenceLink] *)

Lemma length_slice0 (n : nat) (s : string) :
  String.length (JS.slice0 n s) = Nat.min n (String.length s).
Proof.
  unfold JS.slice0. revert n. induction s as [|a s IH]; intros [|n]; cbn; auto.
Qed.

Lemma prefix_slice0 (n : nat) (s : string) :
  prefix (JS.slice0 n s) s = true.
Proof.
  unfold JS.slice0. revert n. induction s as [|a s IH]; intros [|n]; cbn; auto.
  destruct (ascii_dec a a); [apply IH | congruence].
Qed.

Lemma firstn_slices (n m : nat) (l : list string) :
  Forall2 (fun x e => prefix x e = true /\
                      String.length x = Nat.min m (String.length e))
          (map (JS.slice0 m) (firstn n l)) (firstn n l).
Proof.
  induction (firstn n l) as [|e l' IH]; cbn; constructor; auto.
  split; [apply prefix_slice0 | apply length_slice0].
Qed.

(** X12. A link box shows at most two excerpts: the first two of the list,
    in order, each cut to its first 150 code units (an excerpt that short
    is shown whole); and its link goes to the address it was given. *)
Theorem EvidenceLink_excerpts (p : EvidenceLink.Props) :
  let r := EvidenceLink.EvidenceLink p in
  let shown :=
    firstn 2 (match EvidenceLink.excerpts p with Some l => l | None => [] end) in
  EvidenceLink.href r = EvidenceLink.url p /\
  length (EvidenceLink.paragraphs r) <= 2 /\
  Forall2 (fun x e => prefix x e = true /\
                      String.length x = Nat.min 150 (String.length e))
          (EvidenceLink.paragraphs r) shown.
Proof.
  intros r shown. subst r shown. unfold EvidenceLink.EvidenceLink.
  cbn [EvidenceLink.href EvidenceLink.paragraphs].
  split; [reflexivity|].
  destruct (EvidenceLink.excerpts p) as [l|]; [|cbn; split; [lia|constructor]].
  destruct l as [|e l]; [cbn; split; [lia|constructor]|].
  cbn [length Nat.ltb Nat.leb]. split.
  - rewrite length_map, length_firstn. lia.
  - apply firstn_slices.
Qed.

(** ** [SqlConsole] *)

Section SqlConsoleFacts.
Variable o : Oracle.

(** X13. [handleExecute] on a ready console: when it has settled, the busy
    flag is down again and the query text is untouched, on every path.  If
    [executeQuery] returned, the handler returns and the cells hold the
    rows and no error.  If it rejected with an [Error] or with a value that
    has a string form, the handler returns and the cells hold no rows and
    the message of the [Error], or the string form of the value.  If it
    rejected with a value that has no string form, building the text throws
    inside the [catch] block: the handler rejects with what was thrown, the
    error cell stays cleared and the rows stay as they were.  The error box
    and the result table are never shown together. *)
Theorem handleExecute_settles (props : SqlConsole.Props)
        (s s0 : SqlConsole.State) (h : Hook) :
  SqlConsole.isReady props = true ->
  let r := urun o (SqlConsole.handleExecute props s) s0 h in
  let q := run o (SqlConsole.executeQuery props (SqlConsole.query s)) h in
  let s1 := snd (fst r) in
  (snd r = snd q /\
   SqlConsole.loading s1 = false /\
   SqlConsole.query s1 = SqlConsole.query s0 /\
   match fst q with
   | Ok data =>
       fst (fst r) = Ok tt /\
       SqlConsole.results s1 = data /\ SqlConsole.error s1 = None
   | Thrown e =>
       match SqlConsole.error_text e with
       | Ok text =>
           fst (fst r) = Ok tt /\
           SqlConsole.results s1 = [] /\ SqlConsole.error s1 = Some text
       | Thrown t =>
           fst (fst r) = Thrown t /\
           SqlConsole.results s1 = SqlConsole.results s0 /\
           SqlConsole.error s1 = None
       end
   end /\
   (SqlConsole.error_box (SqlConsole.render props s1) = None \/
    SqlConsole.table (SqlConsole.render props s1) = None)) /\
  (forall m, SqlConsole.error_text (JsError m) = Ok m) /\
  (forall v, SqlConsole.error_text (JsOther v) = Ok v) /\
  (forall t, SqlConsole.error_text (JsNoString t) = Thrown t).
Proof.
  intros Hr r q s1. subst r q s1. split; [|repeat split].
  unfold SqlConsole.handleExecute.
  rewrite Hr. cbn -[SqlConsole.render SqlConsole.error_text].
  destruct (run o (SqlConsole.executeQuery props (SqlConsole.query s)) h)
    as [[data|e] h']; cbn -[SqlConsole.error_text].
  - repeat split; auto.
  - destruct (SqlConsole.error_text e) as [text|t]; cbn; repeat split; auto.
Qed.

(** X14. A console that is not ready ignores the button: [handleExecute]
    returns at once and changes nothing.  On a ready console it suspends
    on the query with the busy flag up, which disables the button, the
    previous error cleared and the previous rows still in place. *)
Theorem handleExecute_pending (props : SqlConsole.Props)
        (s s0 : SqlConsole.State) (h : Hook) :
  let u := SqlConsole.handleExecute props s in
  let sp := ususpend u s0 in
  if SqlConsole.isReady props
  then ususpends u = true /\
       SqlConsole.loading sp = true /\
       SqlConsole.error sp = None /\
       SqlConsole.results sp = SqlConsole.results s0 /\
       SqlConsole.query sp = SqlConsole.query s0 /\
       SqlConsole.button_disabled (SqlConsole.render props sp) = true
  else ususpends u = false /\ sp = s0 /\ urun o u s0 h = (Ok tt, s0, h).
Proof.
  intros u sp. subst u sp. unfold SqlConsole.handleExecute.
  destruct (SqlConsole.isReady props) eqn:Hr; cbn; repeat split; auto.
  rewrite Hr. reflexivity.
Qed.

End SqlConsoleFacts.

Lemma get_of_key (row : JsonRow) :
  NoDup (JS.keys row) ->
  forall k v, In (k, v) row -> JS.get row k = Some v.
Proof.
  unfold JS.keys. induction row as [|[k0 v0] row IH]; cbn; [contradiction|].
  intros HN k v [H|H].
  - injection H as <- <-. rewrite String.eqb_refl. reflexivity.
  - inversion HN as [|? ? Hk0 HN']; subst.
    destruct (String.eqb k0 k) eqn:Hk.
    + apply String.eqb_eq in Hk. subst k0. exfalso. apply Hk0.
      apply in_map_iff. exists (k, v). auto.
    + apply IH; auto.
Qed.

(** X15. The result table is shown exactly when there are rows.  Its
    counter is the number of rows; its header is the keys of the first
    row; it has one body row per result row, each with one cell per header
    column, so the table is rectangular whatever keys the later rows have;
    the cells of the first row are its own values in order; and a cell
    shows the string form of its value: a string as it is, a number as the
    number-to-string conversion prints it, [null] and a missing value as
    the empty text, a boolean as true or false, a [BigInt] in decimal
    digits with its sign. *)
Theorem results_table (NumberToString : float -> string)
        (props : SqlConsole.Props) (s : SqlConsole.State) :
  match SqlConsole.table (SqlConsole.render props s) with
  | None => SqlConsole.results s = []
  | Some t =>
      SqlConsole.counter t = length (SqlConsole.results s) /\
      0 < SqlConsole.counter t /\
      length (SqlConsole.body t) = SqlConsole.counter t /\
      Forall (fun cells => length cells = length (SqlConsole.header t))
             (SqlConsole.body t) /\
      SqlConsole.cell_texts NumberToString t
      = map (map (fun v =>
                    match v with
                    | None | Some SNull => EmptyString
                    | Some (SString x) => x
                    | Some (SNumber n) => NumberToString n
                    | Some (SBool true) => "true"%string
                    | Some (SBool false) => "false"%string
                    | Some (SBigInt z) => NilEmpty.string_of_int (Z.to_int z)
                    | Some (SObject text _) => text
                    end))
            (SqlConsole.body t) /\
      forall row rest,
        SqlConsole.results s = row :: rest ->
        SqlConsole.header t = map fst row /\
        (NoDup (map fst row) ->
         hd [] (SqlConsole.body t) = map (fun kv => Some (snd kv)) row)
  end.
Proof.
  unfold SqlConsole.render. cbn [SqlConsole.table].
  destruct (SqlConsole.results s) as [|row rest] eqn:Hres; cbn [length Nat.ltb Nat.leb];
    [reflexivity|].
  unfold SqlConsole.cell_texts.
  cbn [SqlConsole.counter SqlConsole.header SqlConsole.body].
  split; [reflexivity|]. split; [lia|]. split; [apply length_map|].
  split; [|split].
  - apply Forall_forall. intros cells Hc.
    apply in_map_iff in Hc. destruct Hc as (r & <- & _). apply length_map.
  - apply map_ext. intros cells. apply map_ext.
    intros [[x|n| |[|]|z|text number]|]; reflexivity.
  - intros row' rest' H. injection H as <- <-.
    unfold SqlConsole.columns. rewrite Hres. split; [reflexivity|].
    intros HN. cbn [map hd]. unfold JS.keys. rewrite map_map.
    apply map_ext_in. intros [k v] Hin. cbn [fst snd].
    apply (@get_of_key row HN k v Hin).
Qed.

(** The table of the sample cells: two columns short in the second result
    row, three cells in both body rows. *)
Lemma results_table_witness :
  exists t,
    SqlConsole.table
      (SqlConsole.render (Home.console_props (useDuckDB (ready_state 5)))
         sample_console) = Some t /\
    SqlConsole.header t = ["municipio_nome"; "uf"; "emenda_valor"]%string /\
    forall NumberToString : float -> string,
      SqlConsole.cell_texts NumberToString t
      = [["Campinas"; EmptyString; NumberToString 1500%float];
         ["Santos"; EmptyString; NumberToString 0%float]]%string.
Proof.
  eexists. split; [reflexivity|]. split; [reflexivity|].
  intros N.
  pose proof (results_table N (Home.console_props (useDuckDB (ready_state 5)))
                sample_console) as H.
  cbn -[SqlConsole.cell_texts] in H.
  destruct H as (_ & _ & _ & _ & Hc & _). exact Hc.
Defined.

(** ** The components on top of the hook *)

Section OverTheHook.
Variable o : Oracle.

Lemma conn_neutral_collect (body : list Entry) :
  Forall conn_neutral body ->
  acquired body = [] /\ released body = [] /\ closed body = [] /\
  logged body = [].
Proof.
  intros HF. unfold acquired, released, closed, logged.
  repeat split; apply collect_none; eapply Forall_impl; try exact HF;
    intros e (Hq & Ha & Hr & Hc); auto.
  destruct e; try discriminate Hq; reflexivity.
Qed.

Lemma around_body (c : AsyncDuckDBConnection) (d : AsyncDuckDB)
      (outc : Outcome unit) (body : list Entry) :
  Forall conn_neutral body ->
  let new := [Settled (close c) outc; Issued (close c)] ++ body ++
             [Settled (connect d) (Ok c); Issued (connect d)] in
  acquired new = [c] /\ released new = [c] /\ closed new = [c] /\
  logged new = [].
Proof.
  intros Hn new. subst new.
  destruct (conn_neutral_collect Hn) as (Ha & Hr & Hc & Hl).
  unfold acquired, released, closed, logged in *.
  rewrite !collect_app, Ha, Hr, Hc, Hl.
  destruct outc; repeat split; reflexivity.
Qed.

(** One call of [executeQuery], summed up: what it adds to the trace
    releases every connection it acquires, reports nothing to the console,
    and leaves the hook's cells alone. *)
Lemma executeQuery_summary (st : DuckDBState) (sql : string) (h : Hook) :
  exists new,
    trace (snd (run o (executeQuery st sql) h)) = new ++ trace h /\
    state (snd (run o (executeQuery st sql) h)) = state h /\
    isMounted (snd (run o (executeQuery st sql) h)) = isMounted h /\
    released new = acquired new /\ closed new = acquired new /\
    length (acquired new) <= 1 /\
    submitted new = map (fun c => (c, sql)) (acquired new) /\
    logged new = [] /\
    connecting new = match db st with Some d => [d] | None => [] end /\
    match fst (run o (executeQuery st sql) h) with
    | Ok _ => engine_thrown new = [] /\ length (acquired new) = 1
    | Thrown e =>
        match db st with
        | Some _ => hd_error (engine_thrown new) = Some e
        | None => new = []
        end
    end.
Proof.
  destruct (executeQuery_frame o st sql h) as [Hst Hm].
  destruct (db st) as [d|] eqn:Hd.
  - destruct (@executeQuery_shape o st d sql h Hd)
      as (new & Ht & Hcn & Hsub & Hal & _ & Hres).
    exists new.
    assert (Hb : released new = acquired new /\ closed new = acquired new /\
                 logged new = [] /\
                 (is_ok (fst (run o (executeQuery st sql) h)) = true ->
                  length (acquired new) = 1)).
    { destruct (@executeQuery_run o st d sql h Hd)
        as [[e Hr] | (c & body & outb & outc & Ht' & _ & Hn & _)].
      - rewrite Hr in Ht |- *. cbn in Ht.
        change (Settled (connect d) (Thrown e) :: Issued (connect d) :: trace h)
          with ([Settled (connect d) (Thrown e); Issued (connect d)] ++ trace h)
          in Ht.
        apply app_inv_tail in Ht. subst new.
        repeat split; try reflexivity. discriminate.
      - rewrite Ht' in Ht. rewrite !app_assoc in Ht.
        apply app_inv_tail in Ht. rewrite <- !app_assoc in Ht. subst new.
        destruct (@around_body c d outc body Hn) as (Ha & Hr & Hc & Hl).
        repeat split; try congruence. intros _. rewrite Ha. reflexivity. }
    destruct Hb as (Hb1 & Hb2 & Hb3 & Hb4). repeat split; auto.
    destruct (fst (run o (executeQuery st sql) h)); [|exact Hres].
    split; [apply Hres | apply Hb4; reflexivity].
  - exists []. unfold executeQuery in *. rewrite Hd in *. cbn. repeat split; auto.
Qed.

Lemma isReady_db (st : DuckDBState) :
  UseDuckDB.isReady (useDuckDB st) = true -> exists d, db st = Some d.
Proof.
  cbn. destruct (db st) as [d|]; [eauto | discriminate].
Qed.

(** X16. [SqlConsole] wired to the hook as [Home] wires it.  When the hook
    is not ready the button does nothing.  When it is, one execution asks
    the engine for a connection, submits the query text of its render
    unchanged, has released every connection it acquired when it settles,
    and leaves the hook's cells alone.  If no engine call threw, the
    handler returns with no error in the error cell.  If one did, the
    handler returns with the text of what was thrown last in the error cell
    and no rows, unless that value has no string form: then the handler
    rejects with what the conversion threw and the error cell stays
    cleared. *)
Theorem handleExecute_over_hook (st : DuckDBState) (s s0 : SqlConsole.State)
        (h : Hook) :
  let props := Home.console_props (useDuckDB st) in
  let r := urun o (SqlConsole.handleExecute props s) s0 h in
  let s1 := snd (fst r) in
  exists new,
    trace (snd r) = new ++ trace h /\
    state (snd r) = state h /\ isMounted (snd r) = isMounted h /\
    released new = acquired new /\ closed new = acquired new /\
    length (acquired new) <= 1 /\
    submitted new = map (fun c => (c, SqlConsole.query s)) (acquired new) /\
    if SqlConsole.isReady props
    then connecting new <> [] /\
         match engine_thrown new with
         | [] => fst (fst r) = Ok tt /\ SqlConsole.error s1 = None
         | e :: _ =>
             match e with
             | JsError m =>
                 fst (fst r) = Ok tt /\
                 SqlConsole.error s1 = Some m /\ SqlConsole.results s1 = []
             | JsOther v =>
                 fst (fst r) = Ok tt /\
                 SqlConsole.error s1 = Some v /\ SqlConsole.results s1 = []
             | JsNoString t =>
                 fst (fst r) = Thrown t /\
                 SqlConsole.error s1 = None /\
                 SqlConsole.results s1 = SqlConsole.results s0
             end
         end
    else new = [] /\ s1 = s0 /\ fst (fst r) = Ok tt.
Proof.
  intros props r s1. subst props r s1. unfold SqlConsole.handleExecute.
  cbn [Home.console_props SqlConsole.isReady SqlConsole.executeQuery].
  destruct (UseDuckDB.isReady (useDuckDB st)) eqn:Hr; cbn [negb].
  - destruct (isReady_db st Hr) as [d Hd].
    change (UseDuckDB.executeQuery (useDuckDB st)) with (executeQuery st).
    destruct (executeQuery_summary st (SqlConsole.query s) h)
      as (new & Ht & Hs & Hm & Hrel & Hcl & Hal & Hsub & _ & Hcn & Hres).
    rewrite Hd in Hcn, Hres.
    exists new. cbn -[SqlConsole.error_text].
    destruct (run o (executeQuery st (SqlConsole.query s)) h) as [[data|e] h'];
      cbn -[SqlConsole.error_text] in *.
    + destruct Hres as [Hth _]. rewrite Hth.
      repeat split; auto. rewrite Hcn; discriminate.
    + destruct (engine_thrown new) as [|e' l']; [discriminate Hres|].
      cbn in Hres. injection Hres as ->.
      destruct e as [m|v|t]; cbn; repeat split; auto;
        rewrite Hcn; discriminate.
  - exists []. cbn. repeat split; auto.
Qed.

(** X17. [loadInitialData] never rejects and never switches the tab.  On
    a hook that is not ready it does nothing.  Otherwise: if the first query
    rejects, no cell changes and the failure is reported to the console; if
    it returns, its rows become the trace data and the second query runs;
    the counters change only if that one returns at least one row, and then
    each is the number form of the column of that row it is read from, or
    0 where that number is 0, -0 or NaN; if it rejects, the failure is
    reported and the counters stay.  The number form of a number is itself,
    of a missing column NaN, of [null] 0, of a boolean 1 or 0; strings and
    [BigInt]s go through the conversions of the language. *)
Theorem loadInitialData_settles (StringToNumber : string -> float)
        (BigIntToNumber : Z -> float)
        (v : UseDuckDB.t) (s0 : Home.State) (h : Hook) :
  let r := urun o (Home.loadInitialData StringToNumber BigIntToNumber v) s0 h in
  let s1 := snd (fst r) in
  let number := fun w : option Scalar =>
    match w with
    | None => PrimFloat.nan
    | Some SNull => PrimFloat.zero
    | Some (SBool true) => PrimFloat.one
    | Some (SBool false) => PrimFloat.zero
    | Some (SNumber n) => n
    | Some (SString x) => StringToNumber x
    | Some (SBigInt z) => BigIntToNumber z
    | Some (SObject _ n) => n
    end in
  let or_0 := fun x : float =>
    if PrimFloat.is_zero x || PrimFloat.is_nan x then PrimFloat.zero else x in
  fst (fst r) = Ok tt /\
  Home.activeTab s1 = Home.activeTab s0 /\
  if UseDuckDB.isReady v
  then
    match run o (UseDuckDB.executeQuery v Home.trace_sql) h with
    | (Thrown e, h1) =>
        s1 = s0 /\ snd r = log (Logged "Failed to load initial data:" e) h1
    | (Ok data, h1) =>
        Home.traceData s1 = data /\
        match run o (UseDuckDB.executeQuery v Home.stats_sql) h1 with
        | (Thrown e, h2) =>
            Home.stats s1 = Home.stats s0 /\
            snd r = log (Logged "Failed to load initial data:" e) h2
        | (Ok [], h2) => Home.stats s1 = Home.stats s0 /\ snd r = h2
        | (Ok (row :: _), h2) =>
            Home.stats s1
            = {| Home.totalEmendas := or_0 (number (JS.get row "total_emendas"));
                 Home.totalValor := or_0 (number (JS.get row "total_valor"));
                 Home.totalMunicipios :=
                   or_0 (number (JS.get row "total_municipios"));
                 Home.evidenciasEncontradas :=
                   or_0 (number (JS.get row "evidencias")) |} /\
            snd r = h2
        end
    end
  else s1 = s0 /\ snd r = h.
Proof.
  intros r s1 number or_0. subst r s1. unfold Home.loadInitialData.
  destruct (UseDuckDB.isReady v); cbn -[Home.trace_sql Home.stats_sql];
    [|auto].
  destruct (run o (UseDuckDB.executeQuery v Home.trace_sql) h)
    as [[data|e] h1]; cbn -[Home.trace_sql Home.stats_sql]; [|auto].
  destruct (run o (UseDuckDB.executeQuery v Home.stats_sql) h1)
    as [[[|row rows]|e] h2]; cbn -[JS.get]; auto.
Qed.

(** X18. [loadInitialData] on top of the hook: whatever the engine
    answers, it asks for at most two connections and has released each one
    when it settles; it submits the trace query first and the statistics
    query only after the trace query returned; it leaves the hook's cells
    alone; and it reports to the console exactly when an engine call threw,
    once, with what was thrown last. *)
Theorem loadInitialData_over_hook (StringToNumber : string -> float)
        (BigIntToNumber : Z -> float)
        (st : DuckDBState) (s0 : Home.State) (h : Hook) :
  let r := urun o (Home.loadInitialData StringToNumber BigIntToNumber
                     (useDuckDB st)) s0 h in
  exists new,
    trace (snd r) = new ++ trace h /\
    state (snd r) = state h /\ isMounted (snd r) = isMounted h /\
    released new = acquired new /\ closed new = acquired new /\
    length (acquired new) <= 2 /\
    (map snd (submitted new) = [] \/
     map snd (submitted new) = [Home.trace_sql] \/
     map snd (submitted new) = [Home.stats_sql; Home.trace_sql]) /\
    logged new
    = match engine_thrown new with
      | [] => []
      | e :: _ => [(Home.load_failure_message, e)]
      end.
Proof.
  intros r. subst r. unfold Home.loadInitialData.
  destruct (UseDuckDB.isReady (useDuckDB st)) eqn:Hr; cbn [negb].
  2:{ exists []. cbn. repeat split; auto. }
  destruct (isReady_db st Hr) as [d Hd].
  change (UseDuckDB.executeQuery (useDuckDB st)) with (executeQuery st).
  cbn -[Home.trace_sql Home.stats_sql executeQuery].
  destruct (executeQuery_summary st Home.trace_sql h)
    as (new1 & Ht1 & Hs1 & Hm1 & Hrel1 & Hcl1 & Hal1 & Hsub1 & Hlg1 & _ & Hres1).
  rewrite Hd in Hres1.
  destruct (run o (executeQuery st Home.trace_sql) h) as [[data|e] h1];
    cbn -[Home.trace_sql Home.stats_sql executeQuery] in *.
  - destruct Hres1 as [Hth1 Hac1].
    destruct (executeQuery_summary st Home.stats_sql h1)
      as (new2 & Ht2 & Hs2 & Hm2 & Hrel2 & Hcl2 & Hal2 & Hsub2 & Hlg2 & _ & Hres2).
    rewrite Hd in Hres2.
    assert (Hsubs : map snd (submitted (new2 ++ new1)) = [Home.trace_sql] \/
                    map snd (submitted (new2 ++ new1))
                    = [Home.stats_sql; Home.trace_sql]).
    { unfold submitted in *. rewrite collect_app, Hsub1, Hsub2.
      destruct (acquired new1) as [|c1 [|c1' l1]]; try discriminate Hac1.
      destruct (acquired new2) as [|c2 [|c2' l2]]; cbn in *; auto; lia. }
    destruct (run o (executeQuery st Home.stats_sql) h1)
      as [[[|row rows]|e] h2];
      cbn -[Home.trace_sql Home.stats_sql executeQuery] in *.
    + exists (new2 ++ new1). destruct Hres2 as [Hth2 _].
      unfold acquired, released, closed, logged, engine_thrown in *.
      rewrite !collect_app, Hrel1, Hrel2, Hcl1, Hcl2, Hlg1, Hlg2, Hth1, Hth2.
      rewrite Ht2, Ht1, app_assoc, Hs2, Hm2, length_app.
      repeat split; auto. lia.
    + exists (new2 ++ new1). destruct Hres2 as [Hth2 _].
      unfold acquired, released, closed, logged, engine_thrown in *.
      rewrite !collect_app, Hrel1, Hrel2, Hcl1, Hcl2, Hlg1, Hlg2, Hth1, Hth2.
      rewrite Ht2, Ht1, app_assoc, Hs2, Hm2, length_app.
      repeat split; auto. lia.
    + exists (Logged Home.load_failure_message e :: new2 ++ new1).
      unfold acquired, released, closed, logged, engine_thrown in *.
      cbn [collect released_of acquired_of closed_of logged_of thrown_by
           log trace state isMounted app].
      rewrite !collect_app, Hrel1, Hrel2, Hcl1, Hcl2, Hlg1, Hlg2, Hth1.
      rewrite Ht2, Ht1, app_assoc, Hs2, Hm2, length_app, app_nil_r.
      repeat split; auto; try lia.
      destruct (collect (thrown_by (@is_engine_query_op)) new2) as [|e' l'];
        [discriminate Hres2|].
      cbn in Hres2. injection Hres2 as ->. reflexivity.
  - exists (Logged Home.load_failure_message e :: new1).
    unfold acquired, released, closed, logged, engine_thrown, submitted in *.
    cbn [collect released_of acquired_of closed_of logged_of thrown_by
         submitted_of log trace state isMounted app].
    rewrite Hlg1, Ht1, Hsub1. repeat split; auto; try lia.
    + destruct (collect acquired_of new1) as [|c1 [|c1' l1]]; cbn in *; auto; lia.
    + destruct (collect (thrown_by (@is_engine_query_op)) new1) as [|e' l'];
        [discriminate Hres1|].
      cbn in Hres1. injection Hres1 as ->. reflexivity.
Qed.

End OverTheHook.

(** ** What [Home] shows of the hook *)

Lemma errors_catch (e : JsValue) :
  Emits (commits_satisfy error_is_Error) (initDuckDB_catch e).
Proof.
  cbn. repeat split. intros [|]; cbn; repeat split.
  destruct e as [m|v|t]; cbn; repeat split.
Qed.

Lemma errors_initDuckDB (url : string) :
  Emits (commits_satisfy error_is_Error) (initDuckDB url).
Proof.
  unfold initDuckDB, initDuckDB_try. cbn -[initDuckDB_catch].
  intros [?|?]; (split; [repeat split|]); cbn -[initDuckDB_catch];
    [|apply errors_catch].
  split; [repeat split|].
  do 5 (intros [?|?]; (split; [repeat split|]); cbn -[initDuckDB_catch];
        [|apply errors_catch]).
  do 2 (split; [repeat split|];
        intros [?|?]; (split; [repeat split|]); cbn -[initDuckDB_catch];
        [|apply errors_catch]).
  intros [|]; cbn; repeat split.
Qed.

Section HomeStatus.
Variable o : Oracle.
Variable env_url : option string.
Variable history : list Entry.
Variable Q : DuckDBState -> Prop.

Lemma run_sync_commits_satisfy {R : Type} (p : Prog R) (h : Hook) :
  Emits (commits_satisfy Q) p -> Q (state h) ->
  Q (state (snd (run_sync o p h))).
Proof.
  revert h. induction p as [r|e|X op k IH|X op k IH|k IH|s k IH|msg e k IH];
    intros h HE HQ; cbn [run_sync snd]; cbn [Emits] in HE; auto.
  - apply IH; [apply HE | exact HQ].
  - destruct HE as [Hs HE]. apply IH; auto.
  - destruct HE as [_ HE]. apply IH; auto.
Qed.

Lemma settle_commits_satisfy {R : Type} (p : Prog R) (h : Hook) :
  Emits (commits_satisfy Q) p -> Q (state h) ->
  Q (state (snd (settle o p h))).
Proof.
  destruct p as [r|e|X op k|X op k|k|s k|msg e k]; intros HE HQ;
    cbn [settle snd]; auto.
  cbn [Emits] in HE. destruct HE as [_ HE].
  apply run_sync_commits_satisfy; [apply HE | exact HQ].
Qed.

Lemma exec_commits_satisfy (evs : list Event) :
  Q initial_state ->
  Emits (commits_satisfy Q) (initDuckDB (PARQUET_URL env_url)) ->
  Emits (commits_satisfy Q) (init (exec o evs (mount o env_url history))) /\
  Q (state (hook (exec o evs (mount o env_url history)))).
Proof.
  intros HQ0 HE0.
  apply (@exec_invariant_calls o
           (fun s => Emits (commits_satisfy Q) (init s) /\ Q (state (hook s)))).
  - unfold mount.
    set (h0 := {| state := initial_state; isMounted := true; trace := history |}).
    pose proof (@Emits_run_sync o _ (commits_satisfy Q) _ h0 HE0) as [HE _].
    pose proof (@run_sync_commits_satisfy _ _ h0 HE0 HQ0) as HQ.
    destruct (run_sync o (initDuckDB (PARQUET_URL env_url)) h0). auto.
  - intros s ev HC [HE HQ]. destruct (is_query_event ev) eqn:Hev.
    { destruct (@step_query o s ev HC Hev) as (_ & Hi & Hs & _).
      rewrite Hi, Hs. auto. }
    destruct ev as [| |c sql|i]; try discriminate Hev; cbn [step].
    + pose proof (@Emits_settle o _ (commits_satisfy Q) (init s) (hook s) HE)
        as [HE' _].
      pose proof (@settle_commits_satisfy _ (init s) (hook s) HE HQ) as HQ'.
      destruct (settle o (init s) (hook s)). auto.
    + auto.
Qed.

End HomeStatus.

(** X19. Along every execution of the hook, what [Home] and the console
    show of it is one of three pictures: the initial state, header
    "Carregando...", no error banner, console disabled; a ready state,
    header "Online", no error banner, console enabled and labelled
    connected; an error state holding an [Error], header "Offline", the
    banner showing that error's message, console disabled and still
    labelled as loading. *)
Theorem Home_status (o : Oracle) (env_url : option string)
        (history : list Entry) (evs : list Event) (cs : SqlConsole.State) :
  let st := state (hook (exec o evs (mount o env_url history))) in
  let v := useDuckDB st in
  let console := SqlConsole.render (Home.console_props v) cs in
  (st = initial_state /\
   Home.status_label v = "Carregando..."%string /\
   Home.error_banner v = None /\
   SqlConsole.textarea_disabled console = true /\
   SqlConsole.button_disabled console = true /\
   SqlConsole.status console = "Carregando..."%string)
  \/
  (exists d,
      st = ready_state d /\
      Home.status_label v = "Online"%string /\
      Home.error_banner v = None /\
      SqlConsole.textarea_disabled console = false /\
      SqlConsole.button_disabled console = SqlConsole.loading cs /\
      SqlConsole.status console = "DuckDB Conectado"%string)
  \/
  (exists m,
      st = error_state (JsError m) /\
      Home.status_label v = "Offline"%string /\
      Home.error_banner v = Some (Some m) /\
      SqlConsole.textarea_disabled console = true /\
      SqlConsole.button_disabled console = true /\
      SqlConsole.status console = "Carregando..."%string).
Proof.
  intros st v console.
  destruct (@exec_LifeInv o env_url history evs) as [_ HL].
  destruct (@exec_commits_satisfy o env_url history error_is_Error evs I
              (errors_initDuckDB _)) as [_ HE].
  fold st in HL, HE. subst console v.
  destruct HL as [[Hs _] | ([[d Hs]|[e Hs]] & _)]; rewrite Hs in *.
  - left. repeat split.
  - right. left. exists d. repeat split.
  - right. right. unfold error_is_Error in HE. cbn in HE.
    destruct e as [m|r|t]; try discriminate HE.
    exists m. repeat split.
Qed.

Section RegisteredUrl.
Variable o : Oracle.
Variable env_url : option string.

Lemma PARQUET_URL_cases :
  PARQUET_URL env_url <> EmptyString /\
  PARQUET_URL env_url
  = match env_url with
    | Some (String c u) => String c u
    | _ => "/data/emendas_rastreadas.parquet"%string
    end.
Proof.
  destruct env_url as [[|c s]|]; cbn; split; auto; discriminate.
Qed.

(** X7. Whatever the environment, a registration the hook asks for names
    the configured address when one is configured and not empty, and the
    path /data/emendas_rastreadas.parquet when none or an empty one is: so
    it never names an empty address. *)
Theorem registered_url_never_empty (evs : list Event) :
  Forall (fun r => reg_url r <> EmptyString /\
                   reg_url r
                   = match env_url with
                     | Some (String c u) => String c u
                     | _ => "/data/emendas_rastreadas.parquet"%string
                     end)
         (registering (trace (hook (exec o evs (mount o env_url []))))).
Proof.
  pose proof (@exec_RegInv o (PARQUET_URL env_url) env_url eq_refl evs) as H.
  unfold RegInv in H. destruct H as (_ & _ & H).
  destruct H as [(_ & Hg & _) | (d & _ & Hg & _)]; rewrite Hg;
    constructor; auto.
  cbn [the_registration reg_url]. apply PARQUET_URL_cases.
Qed.

End RegisteredUrl.

(** The two sample records give two cards, the first keyed by its
    identifier, the second by its position. *)
Lemma TraceView_cards_witness :
  exists cards,
    TraceView.TraceView (Some sample_data) = TraceView.Cards 2 cards /\
    map fst cards = [inl "202312340001"%string; inr 1].
Proof.
  pose proof (TraceView_cards (Some sample_data)) as H.
  destruct (TraceView.TraceView (Some sample_data)) as [|n cards] eqn:HT;
    [discriminate HT|].
  destruct H as (d & Hd & _ & Hn & Hl & _ & Hk).
  injection Hd as <-. exists cards. split; [rewrite Hn; reflexivity|].
  pose proof (Hk 0 _ eq_refl) as H0. pose proof (Hk 1 _ eq_refl) as H1.
  rewrite Hn in Hl. rewrite <- (length_map fst) in Hl.
  destruct (map fst cards) as [|k0 [|k1 [|k2 ks]]]; try discriminate Hl.
  cbn in H0, H1. injection H0 as ->. injection H1 as ->. reflexivity.
Defined.

(** A ready console under an environment that rejects every SQL text with
    an [Error]: the execution returns with the busy flag down, no rows and
    the engine's message in the error cell.  Under one that rejects with an
    object without string form, the execution rejects with the
    [TypeError] of the conversion, the busy flag down and the error cell
    empty. *)
Lemma handleExecute_settles_witness :
  let props := Home.console_props (useDuckDB (ready_state 5)) in
  let r := urun bad_sql (SqlConsole.handleExecute props SqlConsole.initial)
                SqlConsole.initial ready_hook in
  let r' := urun bad_sql_opaque
                 (SqlConsole.handleExecute props SqlConsole.initial)
                 SqlConsole.initial ready_hook in
  (fst (fst r) = Ok tt /\
   SqlConsole.loading (snd (fst r)) = false /\
   SqlConsole.results (snd (fst r)) = [] /\
   SqlConsole.error (snd (fst r)) = Some "Parser Error: syntax error"%string) /\
  (fst (fst r')
   = Thrown (JsError "Cannot convert object to primitive value") /\
   SqlConsole.loading (snd (fst r')) = false /\
   SqlConsole.error (snd (fst r')) = None).
Proof.
  intros props r r'. split.
  - destruct (@handleExecute_settles bad_sql props SqlConsole.initial
                SqlConsole.initial ready_hook eq_refl)
      as ((_ & Hl & _ & H & _) & _).
    cbn in H. destruct H as (H1 & H2 & H3). repeat split; assumption.
  - destruct (@handleExecute_settles bad_sql_opaque props SqlConsole.initial
                SqlConsole.initial ready_hook eq_refl)
      as ((_ & Hl & _ & H & _) & _).
    cbn in H. destruct H as (H1 & H2 & H3). repeat split; assumption.
Defined.
